(** * ssh-menu: the configuration parser, the host registry, the colour
    configuration, direct selection and the interactive selector, embedded
    from the Go sources and checked against the specification.

    Go strings are byte strings: they are modelled by [string], one [ascii]
    per byte.  Go's [int] is the 64-bit integer of the released binaries
    (amd64 and arm64); it is modelled by [Z] and every increment is wrapped
    explicitly. *)

From Stdlib Require Import ZArith Ascii String List Bool Lia Permutation Sorted.
From Stdlib Require Import DecimalString OrdersEx.
From Stdlib Require DecimalPos.
From stdpp Require Import base option list gmap strings sorting.

Local Open Scope Z_scope.

(* ===================================================================== *)
(** ** Results of fallible code *)
(* ===================================================================== *)

(** Go's [(T, error)] pair: either a value or an error message. *)
Inductive result (A : Type) : Type :=
| Ok (a : A)
| Err (msg : string).
Arguments Ok {A} a.
Arguments Err {A} msg.

(** What a run of the program ends with when it does not enter the menu:
    a call of the external ssh client on a host, or [os.Exit] after a
    message was printed. *)
Inductive outcome (A : Type) : Type :=
| Done (a : A)
| Exit (code : Z) (printed : string).
Arguments Done {A} a.
Arguments Exit {A} code printed.

(* ===================================================================== *)
(** ** The Go library functions the sources call *)
(* ===================================================================== *)

Module GoStr.

Definition byte_of (c : ascii) : N := N_of_ascii c.

(** [int] of the released binaries. *)
Definition maxInt : Z := 2 ^ 63 - 1.
Definition minInt : Z := - 2 ^ 63.

(** Two's complement wrap-around of a 64-bit [int]. *)
Definition wrap (z : Z) : Z := (z + 2 ^ 63) mod 2 ^ 64 - 2 ^ 63.

Fixpoint rev_onto (s acc : string) : string :=
  match s with
  | EmptyString => acc
  | String c s' => rev_onto s' (String c acc)
  end.

Definition rev (s : string) : string := rev_onto s EmptyString.

(** [strings.HasPrefix s prefix]. *)
Fixpoint HasPrefix (s prefix : string) {struct prefix} : bool :=
  match prefix, s with
  | EmptyString, _ => true
  | String p prefix', String c s' => Ascii.eqb p c && HasPrefix s' prefix'
  | String _ _, EmptyString => false
  end.

(** [s[len(prefix):]] when [prefix] starts [s]. *)
Fixpoint CutPrefix (s prefix : string) {struct prefix} : option string :=
  match prefix, s with
  | EmptyString, _ => Some s
  | String p prefix', String c s' =>
      if Ascii.eqb p c then CutPrefix s' prefix' else None
  | String _ _, EmptyString => None
  end.

(** [s[:n]]. *)
Fixpoint take (n : nat) (s : string) : string :=
  match n, s with
  | S n', String c s' => String c (take n' s')
  | _, _ => EmptyString
  end.

(** *** unicode.IsSpace on the UTF-8 encoding

    The one-byte spaces are TAB, LF, VT, FF, CR and SPACE; the two-byte
    ones U+0085 and U+00A0; the three-byte ones U+1680, U+2000..U+200A,
    U+2028, U+2029, U+202F, U+205F and U+3000. *)
Definition isSpace1 (a : ascii) : bool :=
  match byte_of a with
  | 9 | 10 | 11 | 12 | 13 | 32 => true
  | _ => false
  end%N.

Definition isSpace2 (a b : ascii) : bool :=
  match byte_of a, byte_of b with
  | 194, 133 | 194, 160 => true
  | _, _ => false
  end%N.

Definition isSpace3 (a b c : ascii) : bool :=
  match byte_of a, byte_of b with
  | 225, 154 => N.eqb (byte_of c) 128
  | 226, 128 =>
      (N.leb 128 (byte_of c) && N.leb (byte_of c) 138)
      || N.eqb (byte_of c) 168 || N.eqb (byte_of c) 169
      || N.eqb (byte_of c) 175
  | 226, 129 => N.eqb (byte_of c) 159
  | 227, 128 => N.eqb (byte_of c) 128
  | _, _ => false
  end%N.

(** [strings.TrimLeftFunc s unicode.IsSpace]. *)
Fixpoint TrimLeft (s : string) : string :=
  match s with
  | EmptyString => s
  | String a s1 =>
      if isSpace1 a then TrimLeft s1
      else match s1 with
           | EmptyString => s
           | String b s2 =>
               if isSpace2 a b then TrimLeft s2
               else match s2 with
                    | EmptyString => s
                    | String c s3 =>
                        if isSpace3 a b c then TrimLeft s3 else s
                    end
           end
  end.

(** [strings.TrimRightFunc s unicode.IsSpace], on the reversed bytes: the
    last rune is read backwards. *)
Fixpoint TrimLeftRev (s : string) : string :=
  match s with
  | EmptyString => s
  | String a s1 =>
      if isSpace1 a then TrimLeftRev s1
      else match s1 with
           | EmptyString => s
           | String b s2 =>
               if isSpace2 b a then TrimLeftRev s2
               else match s2 with
                    | EmptyString => s
                    | String c s3 =>
                        if isSpace3 c b a then TrimLeftRev s3 else s
                    end
           end
  end.

Definition TrimRight (s : string) : string := rev (TrimLeftRev (rev s)).

(** [strings.TrimSpace]. *)
Definition TrimSpace (s : string) : string := TrimRight (TrimLeft s).

(** *** strings.ToLower

    The library lowers an ASCII-only string byte by byte; any other
    string goes through the Unicode case tables, which are a parameter
    here. *)
Definition isASCIIbyte (c : ascii) : bool := N.ltb (byte_of c) 128.

Fixpoint isASCII (s : string) : bool :=
  match s with
  | EmptyString => true
  | String c s' => isASCIIbyte c && isASCII s'
  end.

Definition lowerByte (c : ascii) : ascii :=
  if N.leb 65 (byte_of c) && N.leb (byte_of c) 90
  then ascii_of_N (byte_of c + 32) else c.

Fixpoint lowerASCII (s : string) : string :=
  match s with
  | EmptyString => EmptyString
  | String c s' => String (lowerByte c) (lowerASCII s')
  end.

Section ToLower.
Variable unicodeLower : string → string.

Definition ToLower (s : string) : string :=
  if isASCII s then lowerASCII s else unicodeLower s.
End ToLower.

(** *** strconv.Atoi and the %d verb *)
Definition isDigit (c : ascii) : bool :=
  N.leb 48 (byte_of c) && N.leb (byte_of c) 57.

Definition digitVal (c : ascii) : Z := Z.of_N (byte_of c) - 48.

(** The value of a run of decimal digits, [None] at the first byte that
    is not a digit. *)
Fixpoint digits (s : string) (acc : Z) : option Z :=
  match s with
  | EmptyString => Some acc
  | String c s' =>
      if isDigit c then digits s' (acc * 10 + digitVal c) else None
  end.

(** [strconv.Atoi]: an optional sign, at least one digit, nothing else,
    and a value that fits [int]; [None] stands for a non-nil error. *)
Definition Atoi (s : string) : option Z :=
  match s with
  | EmptyString => None
  | String a r =>
      let '(neg, body) :=
        if Ascii.eqb a "-" then (true, r)
        else if Ascii.eqb a "+" then (false, r)
        else (false, s) in
      match body with
      | EmptyString => None
      | String _ _ =>
          match digits body 0 with
          | None => None
          | Some n =>
              let v := if neg then - n else n in
              if (minInt <=? v) && (v <=? maxInt) then Some v else None
          end
      end
  end.

(** [fmt.Sprintf("%d", n)]. *)
Definition Itoa (n : Z) : string := NilZero.string_of_int (Z.to_int n).

(** [strings.Fields]: the maximal runs of bytes between white space, as
    [unicode.IsSpace] has it; [cur] holds the bytes of the field being
    read, last byte first. *)
Definition flush (cur : string) : list string :=
  match cur with
  | EmptyString => []
  | String _ _ => [rev cur]
  end.

Fixpoint fieldsFrom (s cur : string) {struct s} : list string :=
  match s with
  | EmptyString => flush cur
  | String a s1 =>
      if isSpace1 a then flush cur ++ fieldsFrom s1 EmptyString
      else match s1 with
           | EmptyString => fieldsFrom s1 (String a cur)
           | String b s2 =>
               if isSpace2 a b then flush cur ++ fieldsFrom s2 EmptyString
               else match s2 with
                    | EmptyString => fieldsFrom s1 (String a cur)
                    | String c s3 =>
                        if isSpace3 a b c
                        then flush cur ++ fieldsFrom s3 EmptyString
                        else fieldsFrom s1 (String a cur)
                    end
           end
  end.

Definition Fields (s : string) : list string := fieldsFrom s EmptyString.

(** *** bufio.Scanner with bufio.ScanLines

    [readConfigFile] and [getColorSettings] read their file through
    [bufio.NewScanner] and never look at [scanner.Err()].  The scanner
    holds the line it is reading in a buffer that grows to
    [bufio.MaxScanTokenSize] bytes and no further: once that many bytes
    are held with no line feed among them, [Scan] returns false (the
    error is [bufio.ErrTooLong]) and the loop of the caller ends as it
    does at the end of the file. *)
Definition MaxScanTokenSize : Z := 65536.

(** [dropCR]: one carriage return is taken off the end of a line. *)
Definition dropCR (data : string) : string :=
  match rev data with
  | String c r => if N.eqb (byte_of c) 13 then rev r else data
  | EmptyString => data
  end.

(** The strings [scanner.Text()] returns over the successful calls of
    [scanner.Scan()].  [content] holds the bytes the file delivers, up to
    its end or to a read error (the scanner hands out the line it holds
    in both cases); [held] is the line read so far, last byte first, and
    [n] the number of its bytes. *)
Fixpoint scanFrom (content held : string) (n : Z) {struct content}
    : list string :=
  if MaxScanTokenSize <=? n then []
  else
    match content with
    | EmptyString =>
        match held with
        | EmptyString => []
        | String _ _ => [dropCR (rev held)]
        end
    | String c content' =>
        if N.eqb (byte_of c) 10
        then dropCR (rev held) :: scanFrom content' EmptyString 0
        else scanFrom content' (String c held) (n + 1)
    end.

Definition Scan (content : string) : list string :=
  scanFrom content EmptyString 0.

End GoStr.

(* ===================================================================== *)
(** ** Regular expressions, as far as the patterns of the sources go *)
(* ===================================================================== *)

Module Regexp.
Import GoStr.

Inductive class : Type :=
| Space   (** [\s], which is [[\t\n\f\r ]] *)
| Digit   (** [\d], which is [[0-9]] *)
| Dot.    (** [.], anything but a line feed *)

Definition in_class (k : class) (c : ascii) : bool :=
  match k with
  | Space =>
      match byte_of c with
      | 9 | 10 | 12 | 13 | 32 => true
      | _ => false
      end%N
  | Digit => isDigit c
  | Dot => negb (N.eqb (byte_of c) 10)
  end.

Inductive regex : Type :=
| Bol                          (** [^] *)
| Eol                          (** [$] *)
| Lit (s : string)             (** literal text *)
| Star (k : class)             (** [k*], greedy *)
| Plus (k : class)             (** [k+], greedy *)
| Group (i : nat) (r : regex)  (** the [i]-th capturing group *)
| Opt (r : regex)              (** [(?:r)?], greedy *)
| Seq (r1 r2 : regex).

Declare Scope regex_scope.
Delimit Scope regex_scope with re.
Bind Scope regex_scope with regex.
Infix ">>" := Seq (at level 62, right associativity) : regex_scope.

(** The text of each group that took part in the match, latest first. *)
Definition captures : Type := list (nat * string).

Fixpoint capture (c : captures) (i : nat) : string :=
  match c with
  | [] => EmptyString
  | (j, s) :: c' => if Nat.eqb i j then s else capture c' i
  end.

(** The part of [s] that was read when [rest] is what is left of it. *)
Definition consumed (s rest : string) : string :=
  take (String.length s - String.length rest) s.

(** Greedy repetition of one class with backtracking: the longest run
    first, then shorter ones, until the continuation accepts. *)
Fixpoint star (p : ascii → bool) (k : string → option captures)
    (s : string) : option captures :=
  match s with
  | String a s' =>
      if p a then
        match star p k s' with
        | Some c => Some c
        | None => k s
        end
      else k s
  | EmptyString => k s
  end.

(** Leftmost-first matching from the start of [s], in continuation
    passing style: [k] is the rest of the pattern.  The matcher is only
    started at offset 0 and every pattern of the sources has its [^] in
    front, so [Bol] holds where it is met. *)
Fixpoint run (r : regex) (k : string → captures → option captures)
    (s : string) (c : captures) : option captures :=
  match r with
  | Bol => k s c
  | Eol => match s with EmptyString => k s c | String _ _ => None end
  | Lit l =>
      match CutPrefix s l with
      | Some s' => k s' c
      | None => None
      end
  | Star cl => star (in_class cl) (λ s', k s' c) s
  | Plus cl =>
      match s with
      | String a s' =>
          if in_class cl a then star (in_class cl) (λ s'', k s'' c) s'
          else None
      | EmptyString => None
      end
  | Group i r' => run r' (λ s' c', k s' ((i, consumed s s') :: c')) s c
  | Opt r' =>
      match run r' k s c with
      | Some c' => Some c'
      | None => k s c
      end
  | Seq r1 r2 => run r1 (λ s' c', run r2 k s' c') s c
  end.

(** [re.FindStringSubmatch s] for a pattern with [n] groups that starts
    with [^], so that only offset 0 is tried: the whole match and the
    groups' texts, the empty string for a group that took no part. *)
Definition FindStringSubmatch (re : regex) (n : nat) (s : string)
    : option (list string) :=
  match run (Group 0 re) (λ _ c, Some c) s [] with
  | Some c => Some (map (capture c) (seq 0 (S n)))
  | None => None
  end.

(** [m[i]] of a submatch slice. *)
Definition sub (m : list string) (i : nat) : string := nth i m EmptyString.

End Regexp.

(* ===================================================================== *)
(** ** Package internal: hosts and the configuration parser *)
(* ===================================================================== *)

Module internal.
Import GoStr Regexp.

(** [type Host struct]. *)
Record Host : Type := mkHost {
  ShortName : string;
  LongName : string;
  User : string;
  Port : string;
  IP : string;
  IdentityFile : string;
  DescText : string;
  MenuNumber : Z;
  Groups : list string;
  ServerAliveInterval : Z;
  ServerAliveCountMax : Z;
  ConnectTimeout : Z
}.

(** Assignments to one field of a host. *)
Definition set_LongName (v : string) (h : Host) : Host :=
  mkHost (ShortName h) v (User h) (Port h) (IP h) (IdentityFile h)
    (DescText h) (MenuNumber h) (Groups h) (ServerAliveInterval h)
    (ServerAliveCountMax h) (ConnectTimeout h).
Definition set_User (v : string) (h : Host) : Host :=
  mkHost (ShortName h) (LongName h) v (Port h) (IP h) (IdentityFile h)
    (DescText h) (MenuNumber h) (Groups h) (ServerAliveInterval h)
    (ServerAliveCountMax h) (ConnectTimeout h).
Definition set_Port (v : string) (h : Host) : Host :=
  mkHost (ShortName h) (LongName h) (User h) v (IP h) (IdentityFile h)
    (DescText h) (MenuNumber h) (Groups h) (ServerAliveInterval h)
    (ServerAliveCountMax h) (ConnectTimeout h).
Definition set_IP (v : string) (h : Host) : Host :=
  mkHost (ShortName h) (LongName h) (User h) (Port h) v (IdentityFile h)
    (DescText h) (MenuNumber h) (Groups h) (ServerAliveInterval h)
    (ServerAliveCountMax h) (ConnectTimeout h).
Definition set_IdentityFile (v : string) (h : Host) : Host :=
  mkHost (ShortName h) (LongName h) (User h) (Port h) (IP h) v
    (DescText h) (MenuNumber h) (Groups h) (ServerAliveInterval h)
    (ServerAliveCountMax h) (ConnectTimeout h).
Definition set_DescText (v : string) (h : Host) : Host :=
  mkHost (ShortName h) (LongName h) (User h) (Port h) (IP h)
    (IdentityFile h) v (MenuNumber h) (Groups h) (ServerAliveInterval h)
    (ServerAliveCountMax h) (ConnectTimeout h).
Definition set_MenuNumber (v : Z) (h : Host) : Host :=
  mkHost (ShortName h) (LongName h) (User h) (Port h) (IP h)
    (IdentityFile h) (DescText h) v (Groups h) (ServerAliveInterval h)
    (ServerAliveCountMax h) (ConnectTimeout h).
Definition set_Groups (v : list string) (h : Host) : Host :=
  mkHost (ShortName h) (LongName h) (User h) (Port h) (IP h)
    (IdentityFile h) (DescText h) (MenuNumber h) v (ServerAliveInterval h)
    (ServerAliveCountMax h) (ConnectTimeout h).
Definition set_ServerAliveInterval (v : Z) (h : Host) : Host :=
  mkHost (ShortName h) (LongName h) (User h) (Port h) (IP h)
    (IdentityFile h) (DescText h) (MenuNumber h) (Groups h) v
    (ServerAliveCountMax h) (ConnectTimeout h).
Definition set_ServerAliveCountMax (v : Z) (h : Host) : Host :=
  mkHost (ShortName h) (LongName h) (User h) (Port h) (IP h)
    (IdentityFile h) (DescText h) (MenuNumber h) (Groups h)
    (ServerAliveInterval h) v (ConnectTimeout h).
Definition set_ConnectTimeout (v : Z) (h : Host) : Host :=
  mkHost (ShortName h) (LongName h) (User h) (Port h) (IP h)
    (IdentityFile h) (DescText h) (MenuNumber h) (Groups h)
    (ServerAliveInterval h) (ServerAliveCountMax h) v.

(** [len(l)] and [l[i]] of a slice; an index out of range panics. *)
Definition len {A : Type} (l : list A) : Z := Z.of_nat (length l).

Definition index {A : Type} (l : list A) (i : Z) : option A :=
  if (0 <=? i) && (i <? len l) then l !! Z.to_nat i else None.

(** *** newConfigParser: the eleven patterns *)
Definition reHost : regex :=
  (Bol >> Lit "Host" >> Plus Space >> Group 1 (Plus Dot) >> Eol)%re.
Definition reHostname : regex :=
  (Bol >> Lit "Hostname" >> Plus Space >> Group 1 (Plus Dot) >> Eol)%re.
Definition reUser : regex :=
  (Bol >> Lit "User" >> Plus Space >> Group 1 (Plus Dot) >> Eol)%re.
Definition rePort : regex :=
  (Bol >> Lit "Port" >> Plus Space >> Group 1 (Plus Digit) >> Eol)%re.
Definition reIdentity : regex :=
  (Bol >> Lit "IdentityFile" >> Plus Space >> Group 1 (Plus Dot) >> Eol)%re.
Definition reMenu : regex :=
  (Bol >> Lit "#" >> Star Space >> Lit "Menu"
     >> Opt (Plus Space >> Group 1 (Plus Digit))
     >> Lit ":" >> Star Space >> Group 2 (Plus Dot) >> Eol)%re.
Definition reIP : regex :=
  (Bol >> Lit "#" >> Star Space >> Lit "IP:" >> Star Space
     >> Group 1 (Plus Dot) >> Eol)%re.
Definition reGroup : regex :=
  (Bol >> Lit "#" >> Star Space >> Lit "Group:" >> Star Space
     >> Group 1 (Plus Dot) >> Eol)%re.
Definition reConnTimeout : regex :=
  (Bol >> Lit "ConnectTimeout" >> Plus Space >> Group 1 (Plus Digit)
     >> Eol)%re.
Definition reServerAliveInterval : regex :=
  (Bol >> Lit "ServerAliveInterval" >> Plus Space >> Group 1 (Plus Digit)
     >> Eol)%re.
Definition reServerAliveCountMax : regex :=
  (Bol >> Lit "ServerAliveCountMax" >> Plus Space >> Group 1 (Plus Digit)
     >> Eol)%re.

Definition nonempty (s : string) : bool :=
  match s with EmptyString => false | String _ _ => true end.

(** [contains]. *)
Fixpoint contains (slice : list string) (s : string) : bool :=
  match slice with
  | [] => false
  | item :: slice' => if String.eqb item s then true else contains slice' s
  end.

(** The host a [Host] line starts. *)
Definition newHost (hostName : string) : Host :=
  mkHost hostName hostName "root" "22" "" "" "" 0 [] 0 0 0.

(** The host [readConfigFile] starts from, before any [Host] line. *)
Definition noHost : Host := mkHost "" "" "root" "22" "" "" "" 0 [] 0 0 0.

(** The test both [handleHostLine] and [readConfigFile] make before they
    append the current host. *)
Definition retained (h : Host) : bool :=
  nonempty (ShortName h) && nonempty (DescText h).

(** [handleHostLine]. *)
Definition handleHostLine (hostName : string) (current : Host)
    (hosts : list Host) : result (Host * list Host) :=
  let hosts := if retained current then hosts ++ [current] else hosts in
  Ok (newHost hostName, hosts).

(** [handleMenuLine]. *)
Definition handleMenuLine (matches : list string) (current : Host)
    : result Host :=
  if nonempty (sub matches 1) then
    match Atoi (sub matches 1) with
    | None => Err ("invalid menu number: " +:+ sub matches 1)
    | Some num =>
        Ok (set_DescText (sub matches 2) (set_MenuNumber num current))
    end
  else Ok (set_DescText (sub matches 2) (set_MenuNumber 0 current)).

(** [handleGroupLine]. *)
Definition handleGroupLine (groupValue : string) (current : Host) : Host :=
  let groupValue := TrimSpace groupValue in
  if contains (Groups current) groupValue then current
  else set_Groups (Groups current ++ [groupValue]) current.

(** The three tuning fields: a value [Atoi] rejects leaves the field as
    it was. *)
Definition setIfInt (set : Z → Host → Host) (text : string)
    (current : Host) : Host :=
  match Atoi text with
  | Some v => set v current
  | None => current
  end.

(** [parseLine]: the patterns are tried in the order of the source and
    the first that matches decides. *)
Definition parseLine (line : string) (current : Host) (hosts : list Host)
    : result (Host * list Host) :=
  match FindStringSubmatch reHost 1 line with
  | Some m => handleHostLine (sub m 1) current hosts
  | None =>
  match FindStringSubmatch reHostname 1 line with
  | Some m => Ok (set_LongName (sub m 1) current, hosts)
  | None =>
  match FindStringSubmatch reUser 1 line with
  | Some m => Ok (set_User (sub m 1) current, hosts)
  | None =>
  match FindStringSubmatch rePort 1 line with
  | Some m => Ok (set_Port (sub m 1) current, hosts)
  | None =>
  match FindStringSubmatch reIdentity 1 line with
  | Some m => Ok (set_IdentityFile (sub m 1) current, hosts)
  | None =>
  match FindStringSubmatch reMenu 2 line with
  | Some m =>
      match handleMenuLine m current with
      | Ok current' => Ok (current', hosts)
      | Err e => Err e
      end
  | None =>
  match FindStringSubmatch reIP 1 line with
  | Some m => Ok (set_IP (sub m 1) current, hosts)
  | None =>
  match FindStringSubmatch reGroup 1 line with
  | Some m => Ok (handleGroupLine (sub m 1) current, hosts)
  | None =>
  match FindStringSubmatch reConnTimeout 1 line with
  | Some m => Ok (setIfInt set_ConnectTimeout (sub m 1) current, hosts)
  | None =>
  match FindStringSubmatch reServerAliveInterval 1 line with
  | Some m =>
      Ok (setIfInt set_ServerAliveInterval (sub m 1) current, hosts)
  | None =>
  match FindStringSubmatch reServerAliveCountMax 1 line with
  | Some m =>
      Ok (setIfInt set_ServerAliveCountMax (sub m 1) current, hosts)
  | None => Ok (current, hosts)
  end end end end end end end end end end end.

(** The scanner loop of [readConfigFile] over the lines [scanner.Text]
    yields ([GoStr.Scan] of the bytes of the file): a line is trimmed, an
    empty one skipped, and the first error of [parseLine] is returned at
    once. *)
Fixpoint scanLines (lines : list string) (current : Host)
    (hosts : list Host) : result (Host * list Host) :=
  match lines with
  | [] => Ok (current, hosts)
  | text :: lines' =>
      let line := TrimSpace text in
      if nonempty line then
        match parseLine line current hosts with
        | Err e => Err e
        | Ok (current', hosts') => scanLines lines' current' hosts'
        end
      else scanLines lines' current hosts
  end.

(** [readConfigFile]: [opened] is what [os.Open] and the scanner give:
    the error of the open, or the lines [scanner.Text] returns while
    [scanner.Scan] succeeds, which are [GoStr.Scan content] for a file
    that delivers the bytes [content].  These need not be all the lines
    of the file: the scan ends without a word at a line of
    [bufio.MaxScanTokenSize] bytes or more, as [scanner.Err] is not
    looked at. *)
Definition readConfigFile (opened : result (list string))
    : result (list Host) :=
  match opened with
  | Err e => Err e
  | Ok lines =>
      match scanLines lines noHost [] with
      | Err e => Err e
      | Ok (current, hosts) =>
          Ok (if retained current then hosts ++ [current] else hosts)
      end
  end.

(** *** Host blocks, as the specification describes them

    A block is a [Host] line with the lines that follow it up to the
    next [Host] line or the end of the file. *)
Definition hostLine (line : string) : option string :=
  match FindStringSubmatch reHost 1 line with
  | Some m => Some (sub m 1)
  | None => None
  end.

(** The lines the scanner loop hands to [parseLine]. *)
Definition significant (lines : list string) : list string :=
  List.filter nonempty (map TrimSpace lines).

(** The lines before the first [Host] line, which belong to no block,
    and the blocks of the file in file order, each with its name and the
    lines after its [Host] line. *)
Fixpoint blocks_from (lines : list string)
    : list string * list (string * list string) :=
  match lines with
  | [] => ([], [])
  | l :: lines' =>
      let '(body, bs) := blocks_from lines' in
      match hostLine l with
      | Some name => ([], (name, body) :: bs)
      | None => (l :: body, bs)
      end
  end.

Definition blocks (lines : list string) : list (string * list string) :=
  snd (blocks_from (significant lines)).

(** A line that makes [parseLine] return an error. *)
Definition aborts (line : string) : bool :=
  match parseLine line noHost [] with
  | Err _ => true
  | Ok _ => false
  end.

(** What a line of a block does to the host of the block. *)
Definition effect (h : Host) (line : string) : Host :=
  match parseLine line h [] with
  | Ok (h', _) => h'
  | Err _ => h
  end.

(** The host of a block when the block ends. *)
Definition blockHost (b : string * list string) : Host :=
  fold_left effect (snd b) (newHost (fst b)).

(** A line that is a menu comment. *)
Definition menuLine (line : string) : bool :=
  match FindStringSubmatch reMenu 2 line with
  | Some _ => true
  | None => false
  end.

(** A block that carries a menu comment. *)
Definition carriesMenu (b : string * list string) : bool :=
  existsb menuLine (snd b).

(* ------------------------------------------------------------------- *)
(** *** The host registry *)
(* ------------------------------------------------------------------- *)

(** [sort.Slice] with a [less] on the elements.  The library promises a
    permutation in which no later element is less than an earlier one,
    and nothing about elements that compare equal. *)
Section SortSlice.
Context {A : Type} (less : A → A → bool).

Definition notAfter (a b : A) : Prop := less b a = false.

Definition sortSlice_spec (l out : list A) : Prop :=
  out ≡ₚ l ∧ StronglySorted notAfter out.

#[local] Instance notAfter_dec a b : Decision (notAfter a b).
Proof. unfold notAfter. apply _. Defined.

(** One sort that meets the promise. *)
Definition sortSlice (l : list A) : list A := merge_sort notAfter l.
End SortSlice.

(** [usedNumbers[n]] of a [map[int]bool]: a missing key reads false. *)
Definition used (usedNumbers : gmap Z bool) (n : Z) : bool :=
  default false (usedNumbers !! n).

Definition newline : string := String (ascii_of_N 10) EmptyString.

(** First loop of [AssignMenuNumbers]: the explicit numbers are
    collected, and the second host with a number already seen ends the
    process. *)
Fixpoint validate (hosts : list Host) (usedNumbers : gmap Z bool)
    : outcome (gmap Z bool) :=
  match hosts with
  | [] => Done usedNumbers
  | h :: hosts' =>
      if MenuNumber h =? 0 then validate hosts' usedNumbers
      else if used usedNumbers (MenuNumber h) then
        Exit 1 ("Error: Duplicate menu number " +:+ Itoa (MenuNumber h)
                  +:+ " found for host " +:+ ShortName h +:+ "."
                  +:+ newline)
      else validate hosts' (<[MenuNumber h := true]> usedNumbers)
  end.

(** [for usedNumbers[nextAvailable] { nextAvailable++ }], with the number
    of rounds bounded by [fuel]. *)
Fixpoint nextFree (fuel : nat) (usedNumbers : gmap Z bool)
    (nextAvailable : Z) : option Z :=
  match fuel with
  | O => None
  | S fuel' =>
      if used usedNumbers nextAvailable
      then nextFree fuel' usedNumbers (wrap (nextAvailable + 1))
      else Some nextAvailable
  end.

(** Second loop of [AssignMenuNumbers]. *)
Fixpoint assign (fuel : nat) (hosts : list Host)
    (usedNumbers : gmap Z bool) (nextAvailable : Z)
    : option (list Host) :=
  match hosts with
  | [] => Some []
  | h :: hosts' =>
      if MenuNumber h =? 0 then
        match nextFree fuel usedNumbers nextAvailable with
        | None => None
        | Some n =>
            match assign fuel hosts' (<[n := true]> usedNumbers) n with
            | None => None
            | Some out => Some (set_MenuNumber n h :: out)
            end
        end
      else
        match assign fuel hosts' usedNumbers nextAvailable with
        | None => None
        | Some out => Some (h :: out)
        end
  end.

Definition lessMenu (a b : Host) : bool := MenuNumber a <? MenuNumber b.

(** [AssignMenuNumbers]; [None] when an inner loop needs more than [fuel]
    rounds. *)
Definition AssignMenuNumbers (fuel : nat) (hosts : list Host)
    : option (outcome (list Host)) :=
  match validate hosts ∅ with
  | Exit code printed => Some (Exit code printed)
  | Done usedNumbers =>
      match assign fuel hosts usedNumbers 1 with
      | None => None
      | Some hosts' => Some (Done (sortSlice lessMenu hosts'))
      end
  end.

(** Go's [<] on strings: the bytes are compared in order. *)
Definition strLess (a b : string) : bool :=
  match String_as_OT.compare a b with
  | Lt => true
  | _ => false
  end.

(** The [less] of [GetAllGroups]. *)
Definition lessGroup (a b : string) : bool :=
  if String.eqb a "Ungrouped" then false
  else if String.eqb b "Ungrouped" then true
  else strLess a b.

(** First loop of [GetAllGroups]. *)
Definition collectGroups (hosts : list Host) : gmap string bool :=
  fold_left
    (λ groupMap h,
       fold_left (λ groupMap g, <[g := true]> groupMap) (Groups h) groupMap)
    hosts ∅.

(** Second loop of [GetAllGroups], which stops at the first host without
    a group. *)
Fixpoint hasUngrouped (hosts : list Host) : bool :=
  match hosts with
  | [] => false
  | h :: hosts' => if len (Groups h) =? 0 then true else hasUngrouped hosts'
  end.

(** The map [GetAllGroups] ranges over. *)
Definition groupMap (hosts : list Host) : gmap string bool :=
  let groupMap := collectGroups hosts in
  if hasUngrouped hosts then <["Ungrouped" := true]> groupMap else groupMap.

(** [GetAllGroups] when the range over the map yields the keys in the
    order [keys]; Go leaves that order open. *)
Definition GetAllGroups_in (keys : list string) : list string :=
  sortSlice lessGroup keys.

(** [GetAllGroups], with one order for the range over the map. *)
Definition GetAllGroups (hosts : list Host) : list string :=
  GetAllGroups_in (elements (dom (groupMap hosts))).

(* ------------------------------------------------------------------- *)
(** *** The colour configuration *)
(* ------------------------------------------------------------------- *)

(** [type ColorConfig struct]. *)
Record ColorConfig : Type := mkColors {
  Background : string;
  Foreground : string;
  Border : string;
  Selected : string;
  Accent : string;
  Dimmed : string
}.

Definition EnvColorBackground : string := "SSH_MENU_COLOR_BACKGROUND".
Definition EnvColorForeground : string := "SSH_MENU_COLOR_FOREGROUND".
Definition EnvColorBorder : string := "SSH_MENU_COLOR_BORDER".
Definition EnvColorSelected : string := "SSH_MENU_COLOR_SELECTED".
Definition EnvColorAccent : string := "SSH_MENU_COLOR_ACCENT".
Definition EnvColorDimmed : string := "SSH_MENU_COLOR_DIMMED".

(** [DefaultColors]. *)
Definition DefaultColors : ColorConfig :=
  mkColors "#1e1e2e" "#cdd6f4" "#9399b2" "#a6e3a1" "#89dceb" "#585b70".

(** The six colour comments; [readColorsFromConfig] and
    [newColorConfigParser] compile the same patterns. *)
Definition reColor (name : string) : regex :=
  (Bol >> Lit "#" >> Star Space >> Lit name >> Lit ":" >> Star Space
     >> Group 1 (Plus Dot) >> Eol)%re.
Definition reColorBackground : regex := reColor "ColorBackground".
Definition reColorForeground : regex := reColor "ColorForeground".
Definition reColorBorder : regex := reColor "ColorBorder".
Definition reColorSelected : regex := reColor "ColorSelected".
Definition reColorAccent : regex := reColor "ColorAccent".
Definition reColorDimmed : regex := reColor "ColorDimmed".

(** [strings.Split(s, "\n")]. *)
Fixpoint splitLines (s : string) (line : string) : list string :=
  match s with
  | EmptyString => [GoStr.rev line]
  | String c s' =>
      if N.eqb (byte_of c) 10 then GoStr.rev line :: splitLines s' EmptyString
      else splitLines s' (String c line)
  end.

Section Environment.
(** [os.Getenv]: the value of a variable, empty when it is not set. *)
Variable Getenv : string → string.

(** [x = v] when the variable [name] is set to the non-empty [v]. *)
Definition fromEnv (name : string) (x : string) : string :=
  if nonempty (Getenv name) then Getenv name else x.

(** [applyEnvVarColors]; each setter of [colorEnvVars] writes its own
    field, so the order of the range over that map does not show. *)
Definition applyEnvVarColors (config : ColorConfig) : ColorConfig :=
  mkColors
    (fromEnv "SSH_MENU_COLOR_BACKGROUND" (Background config))
    (fromEnv "SSH_MENU_COLOR_FOREGROUND" (Foreground config))
    (fromEnv "SSH_MENU_COLOR_BORDER" (Border config))
    (fromEnv "SSH_MENU_COLOR_SELECTED" (Selected config))
    (fromEnv "SSH_MENU_COLOR_ACCENT" (Accent config))
    (fromEnv "SSH_MENU_COLOR_DIMMED" (Dimmed config)).

(** One round of the loop of [readColorsFromConfig]. *)
Definition readColorLine (config : ColorConfig) (text : string)
    : ColorConfig :=
  let line := TrimSpace text in
  match FindStringSubmatch reColorBackground 1 line with
  | Some m =>
      mkColors (TrimSpace (sub m 1)) (Foreground config) (Border config)
        (Selected config) (Accent config) (Dimmed config)
  | None =>
  match FindStringSubmatch reColorForeground 1 line with
  | Some m =>
      mkColors (Background config) (TrimSpace (sub m 1)) (Border config)
        (Selected config) (Accent config) (Dimmed config)
  | None =>
  match FindStringSubmatch reColorBorder 1 line with
  | Some m =>
      mkColors (Background config) (Foreground config) (TrimSpace (sub m 1))
        (Selected config) (Accent config) (Dimmed config)
  | None =>
  match FindStringSubmatch reColorSelected 1 line with
  | Some m =>
      mkColors (Background config) (Foreground config) (Border config)
        (TrimSpace (sub m 1)) (Accent config) (Dimmed config)
  | None =>
  match FindStringSubmatch reColorAccent 1 line with
  | Some m =>
      mkColors (Background config) (Foreground config) (Border config)
        (Selected config) (TrimSpace (sub m 1)) (Dimmed config)
  | None =>
  match FindStringSubmatch reColorDimmed 1 line with
  | Some m =>
      mkColors (Background config) (Foreground config) (Border config)
        (Selected config) (Accent config) (TrimSpace (sub m 1))
  | None => config
  end end end end end end.

(** [readColorsFromConfig]: [content] is what [os.ReadFile] gives. *)
Definition readColorsFromConfig (content : result string) : ColorConfig :=
  match content with
  | Err _ => mkColors "" "" "" "" "" ""
  | Ok text => fold_left readColorLine (splitLines text EmptyString)
                 (mkColors "" "" "" "" "" "")
  end.

(** One field of [mergeConfigColors]. *)
Definition mergeColor (current default fromFile : string) : string :=
  if String.eqb current default && nonempty fromFile then fromFile
  else current.

(** [mergeConfigColors]. *)
Definition mergeConfigColors (config configColors : ColorConfig)
    : ColorConfig :=
  let defaults := DefaultColors in
  mkColors
    (mergeColor (Background config) (Background defaults)
       (Background configColors))
    (mergeColor (Foreground config) (Foreground defaults)
       (Foreground configColors))
    (mergeColor (Border config) (Border defaults) (Border configColors))
    (mergeColor (Selected config) (Selected defaults)
       (Selected configColors))
    (mergeColor (Accent config) (Accent defaults) (Accent configColors))
    (mergeColor (Dimmed config) (Dimmed defaults) (Dimmed configColors)).

(** [ApplyColorConfig]: the value it stores in [currentColorConfig]. *)
Definition ApplyColorConfig (configPath : string) (content : result string)
    : ColorConfig :=
  let config := applyEnvVarColors DefaultColors in
  if nonempty configPath
  then mergeConfigColors config (readColorsFromConfig content)
  else config.

(** One test of [parseColorLine], the colour reader next to the host
    parser: the comment is taken only when the variable is not set. *)
Definition colorTest (re : regex) (envKey : string) (line : string)
    (field : string) : string :=
  match FindStringSubmatch re 1 line with
  | Some m => if nonempty (Getenv envKey) then field else sub m 1
  | None => field
  end.

(** [parseColorLine]. *)
Definition parseColorLine (config : ColorConfig) (line : string)
    : ColorConfig :=
  mkColors
    (colorTest reColorBackground EnvColorBackground line (Background config))
    (colorTest reColorForeground EnvColorForeground line (Foreground config))
    (colorTest reColorBorder EnvColorBorder line (Border config))
    (colorTest reColorSelected EnvColorSelected line (Selected config))
    (colorTest reColorAccent EnvColorAccent line (Accent config))
    (colorTest reColorDimmed EnvColorDimmed line (Dimmed config)).

(** [applyEnvColors], which writes the same six fields from the same six
    variables as [applyEnvVarColors]. *)
Definition applyEnvColors (config : ColorConfig) : ColorConfig :=
  mkColors
    (fromEnv EnvColorBackground (Background config))
    (fromEnv EnvColorForeground (Foreground config))
    (fromEnv EnvColorBorder (Border config))
    (fromEnv EnvColorSelected (Selected config))
    (fromEnv EnvColorAccent (Accent config))
    (fromEnv EnvColorDimmed (Dimmed config)).

(** [getColorSettings]; [opened] is as for [readConfigFile]: the error
    of the open, or the lines the scanner returns. *)
Definition getColorSettings (opened : result (list string)) : ColorConfig :=
  let colorConfig := applyEnvColors DefaultColors in
  match opened with
  | Err _ => colorConfig
  | Ok lines =>
      fold_left (λ c text, parseColorLine c (TrimSpace text)) lines
        colorConfig
  end.
End Environment.

(** [GetCurrentColors]: [currentColorConfig] is the package variable
    [ApplyColorConfig] writes, the zero [ColorConfig] before that. *)
Definition GetCurrentColors (currentColorConfig : ColorConfig) : ColorConfig :=
  if nonempty (Foreground currentColorConfig) then currentColorConfig
  else DefaultColors.

(** [groups[g] = append(groups[g], h)] on a [map[string][]Host]: a missing
    key reads as the nil slice. *)
Definition fileUnder (h : Host) (groups : gmap string (list Host))
    (g : string) : gmap string (list Host) :=
  <[g := default [] (groups !! g) ++ [h]]> groups.

(** [GroupHosts]. *)
Definition GroupHosts (hosts : list Host) : gmap string (list Host) :=
  fold_left
    (λ groups h,
       if len (Groups h) =? 0 then fileUnder h groups "Ungrouped"
       else fold_left (fileUnder h) (Groups h) groups)
    hosts ∅.

(** What [os.Stat] says of the [config.d] directory. *)
Inductive statResult : Type :=
| StatNotExist                 (** an error for which [os.IsNotExist] holds *)
| StatFound (isDir : bool)     (** no error *)
| StatFailed (err : string).   (** any other error *)

(** An entry of the [config.d] directory: its name, whether it is a
    directory, and what opening it for [readConfigFile] gives (the error,
    or the lines the scanner returns). *)
Record DirEntry : Type := mkDirEntry {
  entryName : string;
  entryIsDir : bool;
  entryOpened : result (list string)
}.

(** The loop of [ReadConfigFiles] over the entries of the directory; the
    warnings printed are collected as pairs of the name of the file and
    the error. *)
Fixpoint readDirEntries (files : list DirEntry) (allHosts : list Host)
    (warnings : list (string * string))
    : list Host * list (string * string) :=
  match files with
  | [] => (allHosts, warnings)
  | file :: files' =>
      if entryIsDir file || HasPrefix (entryName file) "." then
        readDirEntries files' allHosts warnings
      else
        match readConfigFile (entryOpened file) with
        | Err err =>
            readDirEntries files' allHosts
              (warnings ++ [(entryName file, err)])
        | Ok additionalHosts =>
            readDirEntries files' (allHosts ++ additionalHosts) warnings
        end
  end.

(** [ReadConfigFiles]: the hosts or the error, and the warnings printed.
    [mainOpened] is the main file as opened, [stat] what [os.Stat] says of
    [config.d] and [dir] what [os.ReadDir] gives for it. *)
Definition ReadConfigFiles (mainOpened : result (list string))
    (stat : statResult) (dir : result (list DirEntry))
    : result (list Host) * list (string * string) :=
  match readConfigFile mainOpened with
  | Err err => (Err ("error reading main config file: " +:+ err), [])
  | Ok mainHosts =>
      match stat with
      | StatNotExist => (Ok mainHosts, [])
      | StatFound false => (Ok mainHosts, [])
      | StatFailed err =>
          (Err ("error checking config.d directory: " +:+ err), [])
      | StatFound true =>
          match dir with
          | Err err =>
              (Err ("error reading config.d directory: " +:+ err), [])
          | Ok files =>
              let '(allHosts, warnings) :=
                readDirEntries files mainHosts [] in
              (Ok allHosts, warnings)
          end
      end
  end.

End internal.

(* ===================================================================== *)
(** ** Package internal, ui.go: the interactive selector *)
(* ===================================================================== *)

Module ui.
Import GoStr Regexp internal.

(** [type Model struct]. *)
Record Model : Type := mkModel {
  hosts : list Host;
  Selected : option Host;
  verbose : bool;
  detailed : bool;
  sshOpts : string;
  cursor : Z;
  viewIndex : Z;
  groups : list string;
  filteredHosts : list Host;
  filterText : string;
  width : Z;
  height : Z
}.

(** Assignments to the fields the handlers write. *)
Definition set_Selected (v : option Host) (m : Model) : Model :=
  mkModel (hosts m) v (verbose m) (detailed m) (sshOpts m) (cursor m)
    (viewIndex m) (groups m) (filteredHosts m) (filterText m) (width m)
    (height m).
Definition set_cursor (v : Z) (m : Model) : Model :=
  mkModel (hosts m) (Selected m) (verbose m) (detailed m) (sshOpts m) v
    (viewIndex m) (groups m) (filteredHosts m) (filterText m) (width m)
    (height m).
Definition set_viewIndex (v : Z) (m : Model) : Model :=
  mkModel (hosts m) (Selected m) (verbose m) (detailed m) (sshOpts m)
    (cursor m) v (groups m) (filteredHosts m) (filterText m) (width m)
    (height m).
Definition set_groups (v : list string) (m : Model) : Model :=
  mkModel (hosts m) (Selected m) (verbose m) (detailed m) (sshOpts m)
    (cursor m) (viewIndex m) v (filteredHosts m) (filterText m) (width m)
    (height m).
Definition set_filteredHosts (v : list Host) (m : Model) : Model :=
  mkModel (hosts m) (Selected m) (verbose m) (detailed m) (sshOpts m)
    (cursor m) (viewIndex m) (groups m) v (filterText m) (width m)
    (height m).
Definition set_filterText (v : string) (m : Model) : Model :=
  mkModel (hosts m) (Selected m) (verbose m) (detailed m) (sshOpts m)
    (cursor m) (viewIndex m) (groups m) (filteredHosts m) v (width m)
    (height m).
Definition set_size (w h : Z) (m : Model) : Model :=
  mkModel (hosts m) (Selected m) (verbose m) (detailed m) (sshOpts m)
    (cursor m) (viewIndex m) (groups m) (filteredHosts m) (filterText m) w h.

(** The messages [Update] tells apart; [text] is [msg.String()]. *)
Inductive KeyType : Type :=
| KeyEscape | KeyEnter | KeyUp | KeyDown | KeyLeft | KeyRight
| KeyBackspace | KeyRunes | KeyTab | KeyOther.

Inductive Msg : Type :=
| WindowSizeMsg (Width Height : Z)
| KeyMsg (type : KeyType) (text : string)
| OtherMsg.

(** The inner loop over [h.Groups] that stops at the first hit. *)
Fixpoint hasGroup (gs : list string) (groupName : string) : bool :=
  match gs with
  | [] => false
  | g :: gs' => if String.eqb g groupName then true else hasGroup gs' groupName
  end.

(** [getHostsForGroup]. *)
Definition getHostsForGroup (m : Model) (groupName : string) : list Host :=
  if String.eqb groupName "Ungrouped"
  then List.filter (λ h, len (Groups h) =? 0) (hosts m)
  else List.filter (λ h, hasGroup (Groups h) groupName) (hosts m).

Section Selector.
(** The Unicode branch of [strings.ToLower]. *)
Variable unicodeLower : string → string.

#[local] Abbreviation ToLower := (GoStr.ToLower unicodeLower).

(** The loop of [updateFilteredHosts] over the hosts of the view. *)
Fixpoint filterLoop (filterText filterLower : string)
    (viewHosts filteredHosts : list Host) : list Host :=
  match viewHosts with
  | [] => filteredHosts
  | host :: viewHosts' =>
      let menuNumStr := Itoa (MenuNumber host) in
      if HasPrefix menuNumStr filterText then
        filterLoop filterText filterLower viewHosts' (filteredHosts ++ [host])
      else if HasPrefix (ToLower (ShortName host)) filterLower then
        filterLoop filterText filterLower viewHosts' (filteredHosts ++ [host])
      else if HasPrefix (ToLower (LongName host)) filterLower then
        filterLoop filterText filterLower viewHosts' (filteredHosts ++ [host])
      else filterLoop filterText filterLower viewHosts' filteredHosts
  end.

(** First half of [updateFilteredHosts]: the hosts of the current view;
    [None] when [m.groups[groupIndex]] is out of range. *)
Definition viewHosts (m : Model) : option (list Host) :=
  if viewIndex m =? 0 then Some (hosts m)
  else
    let groupIndex := wrap (viewIndex m - 1) in
    if groupIndex <? len (groups m) then
      match index (groups m) groupIndex with
      | Some groupName => Some (getHostsForGroup m groupName)
      | None => None
      end
    else Some [].

(** Second half of [updateFilteredHosts]: the filter. *)
Definition applyFilter (filterText : string) (viewHosts : list Host)
    : list Host :=
  if nonempty filterText
  then filterLoop filterText (ToLower filterText) viewHosts []
  else viewHosts.

(** [updateFilteredHosts]. *)
Definition updateFilteredHosts (m : Model) : option Model :=
  match viewHosts m with
  | Some vh => Some (set_filteredHosts (applyFilter (filterText m) vh) m)
  | None => None
  end.

(** [handleEnterKey]: the model and whether [tea.Quit] is returned;
    [None] when a read of [m.filteredHosts] is out of range. *)
Definition handleEnterKey (m : Model) : option (Model * bool) :=
  if len (filteredHosts m) =? 1 then
    match index (filteredHosts m) 0 with
    | Some h => Some (set_Selected (Some h) m, true)
    | None => None
    end
  else if (0 <? len (filteredHosts m)) && (cursor m <? len (filteredHosts m))
  then
    match index (filteredHosts m) (cursor m) with
    | Some h => Some (set_Selected (Some h) m, true)
    | None => None
    end
  else Some (m, false).

(** [m.filterText[:len(m.filterText)-1]]. *)
Definition dropLast (s : string) : string :=
  take (String.length s - 1) s.

(** [handleBackspace]. *)
Definition handleBackspace (m : Model) : option Model :=
  if nonempty (filterText m) then
    match updateFilteredHosts (set_filterText (dropLast (filterText m)) m) with
    | Some m' => Some (set_cursor 0 m')
    | None => None
    end
  else Some m.

(** [handleTypedCharacter]. *)
Definition handleTypedCharacter (char : string) (m : Model) : option Model :=
  match updateFilteredHosts (set_filterText (filterText m +:+ char) m) with
  | Some m' => Some (set_cursor 0 m')
  | None => None
  end.

(** [moveCursor]. *)
Definition moveCursor (delta : Z) (m : Model) : Model :=
  let m := set_cursor (wrap (cursor m + delta)) m in
  if cursor m <? 0 then set_cursor 0 m
  else if len (filteredHosts m) <=? cursor m
  then set_cursor (wrap (len (filteredHosts m) - 1)) m
  else m.

(** [navigateView]. *)
Definition navigateView (delta : Z) (m : Model) : option Model :=
  let totalViews := wrap (1 + len (groups m)) in
  let m := set_viewIndex (wrap (viewIndex m + delta)) m in
  let m :=
    if viewIndex m <? 0 then set_viewIndex (wrap (totalViews - 1)) m
    else if totalViews <=? viewIndex m then set_viewIndex 0 m
    else m in
  updateFilteredHosts (set_cursor 0 (set_filterText "" m)).

(** [handleKeyPress]. *)
Definition handleKeyPress (type : KeyType) (text : string) (m : Model)
    : option (Model * bool) :=
  let continue (o : option Model) : option (Model * bool) :=
    match o with
    | Some m' => Some (m', false)
    | None => None
    end in
  match type with
  | KeyEscape => Some (m, true)
  | KeyEnter => handleEnterKey m
  | KeyUp => continue (Some (moveCursor (-1) m))
  | KeyDown => continue (Some (moveCursor 1 m))
  | KeyLeft => continue (navigateView (-1) m)
  | KeyRight => continue (navigateView 1 m)
  | KeyBackspace => continue (handleBackspace m)
  | KeyRunes => continue (handleTypedCharacter text m)
  | KeyTab => continue (navigateView 1 m)
  | KeyOther => Some (m, false)
  end.

(** [Update]. *)
Definition Update (msg : Msg) (m : Model) : option (Model * bool) :=
  match msg with
  | WindowSizeMsg w h => Some (set_size w h m, false)
  | KeyMsg type text => handleKeyPress type text m
  | OtherMsg => Some (m, false)
  end.

(** [SetupUI]. *)
Definition SetupUI (hosts : list Host) (verbose detailed : bool)
    (sshOpts : string) : option Model :=
  let m := mkModel hosts None verbose detailed sshOpts 0 0 [] hosts "" 0 0 in
  let m := set_groups (GetAllGroups hosts) m in
  updateFilteredHosts m.

(** The event loop over a sequence of messages.  A message may still
    arrive after [tea.Quit] was returned and before the program stops, so
    the loop here goes on to the end of the sequence; the flag tells
    whether a quit was asked for. *)
Fixpoint events (msgs : list Msg) (m : Model) (quit : bool)
    : option (Model * bool) :=
  match msgs with
  | [] => Some (m, quit)
  | msg :: msgs' =>
      match Update msg m with
      | Some (m', q) => events msgs' m' (quit || q)
      | None => None
      end
  end.
End Selector.

End ui.

(* ===================================================================== *)
(** ** Package main *)
(* ===================================================================== *)

Module main.
Import GoStr internal.

(** What [main] goes on to do with the hosts. *)
Inductive action : Type :=
| Connect (h : Host)            (** [connectSSH] on the host *)
| Menu (hosts : list Host).     (** [startTerminalUI] on the hosts *)

(** One round of the loop of [filterHostsByGroup]: whether the host is
    appended. *)
Definition inGroup (group : string) (h : Host) : bool :=
  if String.eqb group "Ungrouped" then len (Groups h) =? 0
  else ui.hasGroup (Groups h) group.

(** [filterHostsByGroup]. *)
Fixpoint filterHostsByGroup (hosts : list Host) (group : string)
    : list Host :=
  match hosts with
  | [] => []
  | h :: hosts' =>
      if inGroup group h then h :: filterHostsByGroup hosts' group
      else filterHostsByGroup hosts' group
  end.

(** The two search loops of [handleDirectHostSelection]: the first host
    that meets the test. *)
Fixpoint search (test : Host → bool) (hosts : list Host) : option Host :=
  match hosts with
  | [] => None
  | h :: hosts' => if test h then Some h else search test hosts'
  end.

Definition byNumber (num : Z) (h : Host) : bool := MenuNumber h =? num.

Definition byName (input : string) (h : Host) : bool :=
  String.eqb (ShortName h) input || String.eqb (LongName h) input
  || String.eqb (IP h) input.

(** [handleDirectHostSelection], up to the call of [connectSSH]. *)
Definition handleDirectHostSelection (input : string) (hosts : list Host)
    : outcome action :=
  match Atoi input with
  | Some num =>
      match search (byNumber num) hosts with
      | Some selected => Done (Connect selected)
      | None => Exit 1 ("Invalid selection." +:+ newline)
      end
  | None =>
      match search (byName input) hosts with
      | Some selected => Done (Connect selected)
      | None => Exit 1 ("Host not found." +:+ newline)
      end
  end.

(** [main] from the group filter on: [group] is the value of [-g], [args]
    the positional arguments and [hosts] what [AssignMenuNumbers]
    returned. *)
Definition selectFrom (group : string) (args : list string)
    (hosts : list Host) : outcome action :=
  let filtered : outcome (list Host) :=
    if nonempty group then
      let hosts := filterHostsByGroup hosts group in
      if len hosts =? 0
      then Exit 1 ("No hosts found in group '" +:+ group +:+ "'" +:+ newline)
      else Done hosts
    else Done hosts in
  match filtered with
  | Exit code printed => Exit code printed
  | Done hosts =>
      match args with
      | input :: _ => handleDirectHostSelection input hosts
      | [] => Done (Menu hosts)
      end
  end.

(** The arguments [connectSSH] gives to the ssh client. *)
Definition sshArgs (h : Host) (verbose : bool) (sshOpts : string)
    : list string :=
  let args := [] in
  let args := if verbose then args ++ ["-v"] else args in
  let args := if nonempty sshOpts then args ++ Fields sshOpts else args in
  args ++ [ShortName h].

(** The two counting loops of [listAvailableGroups]. *)
Fixpoint countInGroup (hosts : list Host) (g : string) : Z :=
  match hosts with
  | [] => 0
  | h :: hosts' =>
      if String.eqb g "Ungrouped" then
        if len (Groups h) =? 0 then wrap (countInGroup hosts' g + 1)
        else countInGroup hosts' g
      else
        if ui.hasGroup (Groups h) g then wrap (countInGroup hosts' g + 1)
        else countInGroup hosts' g
  end.

(** [listAvailableGroups]: the lines it prints. *)
Definition listAvailableGroups (hosts : list Host) : list string :=
  let groups := GetAllGroups hosts in
  if len groups =? 0 then ["No groups found in SSH config." +:+ newline]
  else
    ("Available groups:" +:+ newline)
    :: map (λ g, "  " +:+ g +:+ " (" +:+ Itoa (countInGroup hosts g)
                 +:+ " hosts)" +:+ newline) groups.

(** What [main] does after the configuration was read: the lines printed
    by [-l], or the selection. *)
Inductive ending : Type :=
| Listed (printed : list string)
| Selection (a : action).

(** [main] from the result of [ReadConfigFiles] on; [None] when an inner
    loop of [AssignMenuNumbers] needs more than [fuel] rounds. *)
Definition mainFrom (fuel : nat) (read : result (list Host))
    (listGroups : bool) (group : string) (args : list string)
    : option (outcome ending) :=
  match read with
  | Err err => Some (Exit 1 ("Error reading SSH config: " +:+ err +:+ newline))
  | Ok hosts =>
      if len hosts =? 0 then
        Some (Exit 1 ("No menu hosts found in SSH config. Ensure hosts have a "
                        +:+ "'# Menu ...' comment." +:+ newline))
      else
        match AssignMenuNumbers fuel hosts with
        | None => None
        | Some (Exit code printed) => Some (Exit code printed)
        | Some (Done hosts) =>
            if listGroups then Some (Done (Listed (listAvailableGroups hosts)))
            else
              match selectFrom group args hosts with
              | Exit code printed => Some (Exit code printed)
              | Done a => Some (Done (Selection a))
              end
        end
  end.

End main.

(* ===================================================================== *)
(** ** Notions of the specification *)
(* ===================================================================== *)

Module Spec.
Import GoStr Regexp internal.

(** What every report of a duplicate menu number starts with. *)
Definition duplicateReport (printed : string) : Prop :=
  HasPrefix printed "Error: Duplicate menu number " = true.

(** Every byte of [s] meets [p]. *)
Fixpoint all (p : ascii → bool) (s : string) : bool :=
  match s with
  | EmptyString => true
  | String a s' => p a && all p s'
  end.

(** *** What a pattern matches

    [matches r s rest c c'] reads: at a point where [s +:+ rest] is left of
    the text and the groups so far are [c], the pattern [r] can read [s]
    and leave the groups [c']. *)
Inductive matches : regex → string → string → captures → captures → Prop :=
| matches_bol rest c : matches Bol "" rest c c
| matches_eol c : matches Eol "" "" c c
| matches_lit l rest c : matches (Lit l) l rest c c
| matches_star k s rest c :
    all (in_class k) s = true → matches (Star k) s rest c c
| matches_plus k s rest c :
    nonempty s = true → all (in_class k) s = true →
    matches (Plus k) s rest c c
| matches_group i r s rest c c' :
    matches r s rest c c' → matches (Group i r) s rest c ((i, s) :: c')
| matches_opt r s rest c c' :
    matches r s rest c c' → matches (Opt r) s rest c c'
| matches_skip r rest c : matches (Opt r) "" rest c c
| matches_seq r1 r2 s1 s2 rest c c1 c2 :
    matches r1 s1 (s2 +:+ rest) c c1 → matches r2 s2 rest c1 c2 →
    matches (Seq r1 r2) (s1 +:+ s2) rest c c2.

(** The number a run of decimal digits writes. *)
Fixpoint decimal_from (acc : Z) (s : string) : Z :=
  match s with
  | EmptyString => acc
  | String a s' => decimal_from (acc * 10 + digitVal a) s'
  end.

Definition decimal (s : string) : Z := decimal_from 0 s.

(** A menu comment whose explicit number does not fit [int]. *)
Definition overflowingMenu (line : string) : Prop :=
  ∃ m, FindStringSubmatch reMenu 2 line = Some m
       ∧ nonempty (sub m 1) = true
       ∧ all isDigit (sub m 1) = true
       ∧ maxInt < decimal (sub m 1).

(** What a tuning line does with its run of digits: the number they
    write is stored when an [int] holds it, and the field is left as it
    was when not. *)
Definition tuned (set : Z → Host → Host) (digits : string) (cur : Host)
    : Host :=
  if decimal digits <=? maxInt then set (decimal digits) cur else cur.

(** A byte that can stand in the number position of a menu comment. *)
Definition numeric (a : ascii) : bool := in_class Space a || isDigit a.

Definition colon (a : ascii) : bool := N.eqb (byte_of a) 58.

(** Lexicographic order on the bytes of two strings. *)
Definition lexLt (a b : string) : Prop := strLess a b = true.

(** A list of group names in the order the specification asks for:
    lexicographic, with ["Ungrouped"] after all others when it is there. *)
Definition groupsInOrder (l : list string) : Prop :=
  ∃ named,
    ("Ungrouped" ∉ named)
    ∧ StronglySorted lexLt named
    ∧ (l = named ∨ l = named ++ ["Ungrouped"]).

(** *** The filter of the selector, in the words of the specification *)

(** [text] is a prefix of [s]. *)
Definition isPrefix (text s : string) : Prop := ∃ rest, s = text +:+ rest.

(** [text] is a prefix of [s] when case is ignored; [lower] is the
    lowering of case. *)
Definition isPrefixNoCase (lower : string → string) (text s : string)
    : Prop :=
  isPrefix (lower text) (lower s).

(** A host the filter text selects: the text starts the decimal writing
    of the menu number, or starts the short name or the long name when
    case is ignored. *)
Definition selects (lower : string → string) (text : string) (h : Host)
    : Prop :=
  isPrefix text (Itoa (MenuNumber h))
  ∨ isPrefixNoCase lower text (ShortName h)
  ∨ isPrefixNoCase lower text (LongName h).

Definition selectsb (lower : string → string) (text : string) (h : Host)
    : bool :=
  HasPrefix (Itoa (MenuNumber h)) text
  || HasPrefix (lower (ShortName h)) (lower text)
  || HasPrefix (lower (LongName h)) (lower text).

(** *** The numbering of hosts, in the words of the specification *)

(** The explicit (nonzero) menu numbers of a list, in list order. *)
Definition explicitNumbers (hosts : list Host) : list Z :=
  List.filter (λ n, negb (n =? 0)) (map MenuNumber hosts).

(** The smallest positive integer that is not in the used set. *)
Definition leastFree (usedSet : gset Z) (n : Z) : Prop :=
  0 < n ∧ (n ∉ usedSet) ∧ ∀ k, 0 < k < n → k ∈ usedSet.

(** Pass 2 of the specification: the entries are taken in list order; an
    entry with an explicit number is left as it is, an entry at 0 gets the
    smallest positive integer not in the used set, which is marked used
    at once. *)
Inductive numbered : gset Z → list Host → list Host → Prop :=
| numbered_nil usedSet : numbered usedSet [] []
| numbered_explicit usedSet h hosts out :
    MenuNumber h ≠ 0 →
    numbered usedSet hosts out →
    numbered usedSet (h :: hosts) (h :: out)
| numbered_free usedSet h hosts out n :
    MenuNumber h = 0 →
    leastFree usedSet n →
    numbered (usedSet ∪ {[n]}) hosts out →
    numbered usedSet (h :: hosts) (set_MenuNumber n h :: out).

(** Menu numbers strictly ascending along the list. *)
Definition ascending (l : list Host) : Prop :=
  StronglySorted (λ a b, MenuNumber a < MenuNumber b) l.

(** The hosts with the numbers [n], [n + 1], ... in list order. *)
Fixpoint numberFrom (n : Z) (hosts : list Host) : list Host :=
  match hosts with
  | [] => []
  | h :: hosts' => set_MenuNumber n h :: numberFrom (n + 1) hosts'
  end.

(** Every value of the map is [true], as in a Go map used as a set. *)
Definition allTrue (m : gmap Z bool) : Prop :=
  map_Forall (λ _ v, v = true) m.

(** The number of entries at 0. *)
Definition unnumbered (hosts : list Host) : nat :=
  length (List.filter (λ h, MenuNumber h =? 0) hosts).

(** *** The state of the selector *)

(** The cursor points at an entry of the filtered list. *)
Definition cursorInBounds (m : ui.Model) : Prop :=
  0 ≤ ui.cursor m < len (ui.filteredHosts m).

(** The filtered list is empty and the cursor is where the handlers can
    leave it then. *)
Definition cursorAtRest (m : ui.Model) : Prop :=
  ui.filteredHosts m = [] ∧ (ui.cursor m = 0 ∨ ui.cursor m = -1).

(** The slices of the model have lengths that leave room for one more in
    an [int], as every Go slice does. *)
Definition slicesFit (m : ui.Model) : Prop :=
  len (ui.hosts m) < maxInt ∧ len (ui.groups m) < maxInt
  ∧ len (ui.filteredHosts m) < maxInt.

(** The current view is the list of all hosts or one of the groups. *)
Definition viewInRange (m : ui.Model) : Prop :=
  0 ≤ ui.viewIndex m ≤ len (ui.groups m).

(** What every handler keeps. *)
Definition sound (m : ui.Model) : Prop :=
  slicesFit m ∧ viewInRange m ∧ (cursorInBounds m ∨ cursorAtRest m).

(** *** What holds of every host the parser builds *)

(** The value of a tuning field or menu number read by [Atoi] from a run
    of digits. *)
Definition inIntRange (z : Z) : Prop := 0 ≤ z ≤ maxInt.

(** The port is a non-empty run of digits, the groups do not repeat, and
    the four numbers are between 0 and the largest [int]. *)
Definition wellFormed (h : Host) : Prop :=
  NoDup (Groups h)
  ∧ nonempty (Port h) = true ∧ all isDigit (Port h) = true
  ∧ inIntRange (MenuNumber h)
  ∧ inIntRange (ConnectTimeout h)
  ∧ inIntRange (ServerAliveInterval h)
  ∧ inIntRange (ServerAliveCountMax h).

(** *** The lines of a file

    The runs of bytes between the line feeds of a file, in file order; a
    run after the last line feed is a line when it is not empty.  [held]
    is the line read so far, last byte first. *)
Fixpoint rawLinesFrom (content held : string) {struct content}
    : list string :=
  match content with
  | EmptyString =>
      match held with
      | EmptyString => []
      | String _ _ => [GoStr.rev held]
      end
  | String c content' =>
      if N.eqb (byte_of c) 10
      then GoStr.rev held :: rawLinesFrom content' EmptyString
      else rawLinesFrom content' (String c held)
  end.

Definition rawLines (content : string) : list string :=
  rawLinesFrom content EmptyString.

(** The lines of a file as text: without the carriage return of a line
    that ends in CR LF. *)
Definition fileLines (content : string) : list string :=
  map dropCR (rawLines content).

(** A line the buffer of the scanner can hold together with its line
    feed. *)
Definition short (line : string) : bool :=
  Z.of_nat (String.length line) <? MaxScanTokenSize.

(** Every line of the file is shorter than [bufio.MaxScanTokenSize]. *)
Definition shortLines (content : string) : Prop :=
  forallb short (rawLines content) = true.

(** A file made of the given lines, each ended by a line feed. *)
Fixpoint joinLines (lines : list string) : string :=
  match lines with
  | [] => EmptyString
  | l :: lines' => l +:+ newline +:+ joinLines lines'
  end.

(** A line that can be written into a file as one short line: it holds
    no line feed and is shorter than [bufio.MaxScanTokenSize]. *)
Definition scannable (line : string) : Prop :=
  all (λ c, negb (N.eqb (byte_of c) 10)) line = true ∧ short line = true.

(** A line before the first [Host] line that the parser passes without
    failing. *)
Definition preambleLine (text : string) : Prop :=
  hostLine (TrimSpace text) = None ∧ aborts (TrimSpace text) = false.

(** *** What [ReadConfigFiles] takes from an entry of [config.d] *)

(** The entries the loop passes over: directories and hidden files. *)
Definition skipped (file : DirEntry) : bool :=
  entryIsDir file || HasPrefix (entryName file) ".".

Definition entryHosts (file : DirEntry) : list Host :=
  if skipped file then []
  else match readConfigFile (entryOpened file) with
       | Ok hosts => hosts
       | Err _ => []
       end.

Definition entryWarnings (file : DirEntry) : list (string * string) :=
  if skipped file then []
  else match readConfigFile (entryOpened file) with
       | Ok _ => []
       | Err err => [(entryName file, err)]
       end.

(** What [readConfigFile] makes of the result of the scanner loop. *)
Definition finished (r : result (Host * list Host)) : result (list Host) :=
  match r with
  | Err e => Err e
  | Ok (current, hosts) =>
      Ok (if retained current then hosts ++ [current] else hosts)
  end.

(** *** What [AssignMenuNumbers] does to a host *)

(** [o] is [h] itself when [h] has an explicit number, and [h] with some
    number in place of 0 otherwise. *)
Definition renumbered (h o : Host) : Prop :=
  if MenuNumber h =? 0 then ∃ n, o = set_MenuNumber n h else o = h.

(** *** Groups *)

(** The hosts [GroupHosts] files under [g]. *)
Definition filedUnder (g : string) (h : Host) : bool :=
  if len (Groups h) =? 0 then String.eqb g "Ungrouped"
  else ui.hasGroup (Groups h) g.

(** *** Colours *)

(** How [ApplyColorConfig] fills one slot from the variable [name], the
    built-in colour [default] and the colour [fromFile] of the comment in
    the file (empty without one). *)
Definition slotRule (Getenv : string → string)
    (name default fromFile slot : string) : Prop :=
  (Getenv name ≠ "" → Getenv name ≠ default → slot = Getenv name)
  ∧ (Getenv name = "" → fromFile ≠ "" → slot = fromFile)
  ∧ (Getenv name = "" → fromFile = "" → slot = default)
  ∧ (Getenv name = default → fromFile ≠ "" → slot = fromFile).

(** No slot is empty. *)
Definition allSet (c : ColorConfig) : Prop :=
  nonempty (Background c) = true ∧ nonempty (Foreground c) = true
  ∧ nonempty (Border c) = true ∧ nonempty (internal.Selected c) = true
  ∧ nonempty (Accent c) = true ∧ nonempty (Dimmed c) = true.

(** Each slot whose variable is set holds the value of the variable. *)
Definition fromEnvironment (Getenv : string → string) (c : ColorConfig)
    : Prop :=
  (Getenv EnvColorBackground ≠ "" → Background c = Getenv EnvColorBackground)
  ∧ (Getenv EnvColorForeground ≠ ""
     → Foreground c = Getenv EnvColorForeground)
  ∧ (Getenv EnvColorBorder ≠ "" → Border c = Getenv EnvColorBorder)
  ∧ (Getenv EnvColorSelected ≠ ""
     → internal.Selected c = Getenv EnvColorSelected)
  ∧ (Getenv EnvColorAccent ≠ "" → Accent c = Getenv EnvColorAccent)
  ∧ (Getenv EnvColorDimmed ≠ "" → Dimmed c = Getenv EnvColorDimmed).

(** *** The selector *)

(** The message is the Enter key. *)
Definition confirms (msg : ui.Msg) : bool :=
  match msg with
  | ui.KeyMsg ui.KeyEnter _ => true
  | _ => false
  end.

(** The model the handlers of the view keys leave: [m] in the view
    [view], showing all the hosts [shown] of that view, with no filter
    text and the cursor on the first line. *)
Definition viewOf (m : ui.Model) (view : Z) (shown : list Host) : ui.Model :=
  ui.set_filteredHosts shown
    (ui.set_cursor 0 (ui.set_filterText "" (ui.set_viewIndex view m))).

(** *** The command line *)

(** An argument as the ssh client gets it from the options string: not
    empty and without an ASCII white-space byte. *)
Definition argument (a : string) : Prop :=
  a ≠ "" ∧ all (λ c, negb (isSpace1 c)) a = true.

(** The line [listAvailableGroups] prints for a group. *)
Definition groupLine (hosts : list Host) (g : string) : string :=
  "  " +:+ g +:+ " (" +:+ Itoa (main.countInGroup hosts g) +:+ " hosts)"
  +:+ newline.

(** A host of the configuration, with the menu number it was given. *)
Definition configured (hosts : list Host) (h : Host) : Prop :=
  ∃ h0, h0 ∈ hosts ∧ renumbered h0 h.

(** The host is in the group of [-g], when there is one. *)
Definition withinGroup (group : string) (h : Host) : Prop :=
  group ≠ "" → main.inGroup group h = true.

End Spec.

(* ===================================================================== *)
(** ** Sample inputs *)
(* ===================================================================== *)

Module Samples.
Import GoStr Regexp internal.

(** A configuration file in the style of the example that ships with the
    program: three menu hosts, one of them with an explicit number, and a
    template block without a menu comment. *)
Definition sampleConfig : list string :=
  [ "# ColorBackground: #1e1e2e";
    "";
    "Host web1";
    "    Hostname web1.example.com";
    "    User webadmin";
    "    Port 22";
    "    # Menu: Primary web server";
    "    # IP: 203.0.113.10";
    "    # Group: Production";
    "";
    "Host db";
    "    Hostname db.example.com";
    "    Port 3022";
    "    ConnectTimeout 15";
    "    # Menu 1: Primary database server";
    "    # Group: Production";
    "Host lb";
    "    # Menu: Load balancer";
    "    # Group: Production";
    "Host dev*";
    "    User developer" ].

(** A file whose second host has a word where the menu number goes. *)
Definition wordNumberConfig : list string :=
  [ "Host web1";
    "    # Menu: Primary web server";
    "Host db";
    "    # Menu one: Primary database server" ].

Definition web1 : Host :=
  mkHost "web1" "web1" "root" "22" "" "" "Primary web server" 0 [] 0 0 0.

(** A host with a name, a description, a menu number and groups. *)
Definition entry (name desc : string) (number : Z) (groups : list string)
    : Host :=
  mkHost name name "root" "22" "" "" desc number groups 0 0 0.

(** Hosts with the menu numbers 1, 2, 10, 11 and 100. *)
Definition fiveNumbers : list Host :=
  [ entry "web" "web server" 1 []; entry "db" "database" 2 [];
    entry "lb" "balancer" 10 []; entry "dev" "development" 11 [];
    entry "jump" "bastion" 100 [] ].

(** A stand-in for the Unicode case tables; the samples are ASCII and
    never reach it. *)
Definition noUnicode (s : string) : string := s.

(** The hosts of the example of the specification: [web1] and [lb]
    without a number and [db] with the explicit number 1. *)
Definition threeHosts : list Host :=
  [ entry "web1" "Primary web" 0 ["Prod"]; entry "db" "Database" 1 ["Prod"];
    entry "lb" "LB" 0 ["Prod"] ].

Definition outcome_map {A B : Type} (f : A → B) (o : outcome A) : outcome B :=
  match o with
  | Done a => Done (f a)
  | Exit code printed => Exit code printed
  end.

(** An environment in which the background colour is set, to the value
    the README exports (which is also the built-in default), and nothing
    else. *)
Definition backgroundEnv (name : string) : string :=
  if String.eqb name "SSH_MENU_COLOR_BACKGROUND" then "#1e1e2e" else "".

(** A configuration file that asks for a red background. *)
Definition redBackground : string := "# ColorBackground: #ff0000".

(** Numbered hosts in two groups. *)
Definition groupedHosts : list Host :=
  [ entry "web1" "Primary web" 1 ["Prod"]; entry "db" "Database" 2 ["Prod"];
    entry "dev" "Development" 3 ["Test"] ].

Definition twoFives : list Host :=
  [ entry "a" "first" 5 []; entry "b" "second" 0 []; entry "c" "third" 5 [] ].

(** A [config.d] directory with a hidden file, a file whose menu number is
    too large, a file that cannot be opened, a subdirectory and a good
    file. *)
Definition sampleDir : list DirEntry :=
  [ mkDirEntry ".hidden" false (Ok ["Host h"; "# Menu: hidden"]);
    mkDirEntry "bad" false (Ok ["Host b"; "# Menu 99999999999999999999: b"]);
    mkDirEntry "gone" false (Err "permission denied");
    mkDirEntry "sub" true (Ok []);
    mkDirEntry "extra" false (Ok ["Host e"; "# Menu: extra"]) ].

(** The hosts of the example once numbered and sorted. *)
Definition threeNumbered : list Host :=
  [ entry "db" "Database" 1 ["Prod"]; entry "web1" "Primary web" 2 ["Prod"];
    entry "lb" "LB" 3 ["Prod"] ].

(** Hosts of which one is tagged ["Ungrouped"] by hand and none is
    without a group. *)
Definition taggedUngrouped : list Host :=
  [ entry "web1" "Primary web" 1 ["Prod"];
    entry "old" "Old box" 2 ["Ungrouped"] ].

(** A line of [bufio.MaxScanTokenSize] bytes. *)
Definition longLine : string := N.iter 65536 (String "x") EmptyString.

(** A file with two hosts, each with a menu comment, and a line of
    [bufio.MaxScanTokenSize] bytes between them. *)
Definition longLineConfig : string :=
  Spec.joinLines
    ["Host a"; "# Menu: first"; longLine; "Host b"; "# Menu: second"].

(** A file whose only host has a menu number one beyond the largest
    [int]. *)
Definition hugeNumberConfig : string :=
  Spec.joinLines ["Host a"; "# Menu 9223372036854775808: big"].

(** An environment that sets the accent colour only. *)
Definition accentEnv (name : string) : string :=
  if String.eqb name "SSH_MENU_COLOR_ACCENT" then "#ffffff" else "".

(** The selector on [groupedHosts], in the view of all hosts. *)
Definition menuModel : ui.Model :=
  ui.mkModel groupedHosts None false false "" 0 0 ["Prod"; "Test"]
    groupedHosts "" 80 24.

End Samples.

(* ===================================================================== *)
(** * Properties *)
(* ===================================================================== *)

Import GoStr Regexp internal main Spec Samples.

(* ===================================================================== *)
(** ** Duplicate explicit menu numbers *)
(* ===================================================================== *)

Section Duplicates.

Lemma validate_seen (hosts : list Host) (usedNumbers : gmap Z bool) (h : Host) :
  h ∈ hosts → MenuNumber h ≠ 0 → used usedNumbers (MenuNumber h) = true →
  ∃ printed, validate hosts usedNumbers = Exit 1 printed ∧ duplicateReport printed.
Proof.
  revert usedNumbers.
  induction hosts as [|h0 hosts IH]; intros usedNumbers Hin Hnz Hused.
  - by apply elem_of_nil in Hin.
  - cbn [validate].
    destruct (Z.eqb_spec (MenuNumber h0) 0) as [Hz|Hz].
    + apply elem_of_cons in Hin as [->|Hin]; [done|]. by apply IH.
    + destruct (used usedNumbers (MenuNumber h0)) eqn:Hu0.
      * eexists. split; [reflexivity|]. reflexivity.
      * apply elem_of_cons in Hin as [->|Hin]; [congruence|].
        apply IH; [done..|].
        unfold used in *. rewrite lookup_insert.
        case_decide; [done|]. done.
Qed.

Lemma validate_repeat (hosts : list Host) (usedNumbers : gmap Z bool)
    (i j : nat) (hi hj : Host) :
  (i < j)%nat → hosts !! i = Some hi → hosts !! j = Some hj →
  MenuNumber hi = MenuNumber hj → MenuNumber hi ≠ 0 →
  ∃ printed, validate hosts usedNumbers = Exit 1 printed ∧ duplicateReport printed.
Proof.
  revert usedNumbers i j.
  induction hosts as [|h0 hosts IH]; intros usedNumbers i j Hlt Hi Hj Heq Hnz.
  - done.
  - destruct j as [|j]; [lia|]. cbn in Hj.
    cbn [validate].
    destruct i as [|i].
    + injection Hi as ->.
      destruct (Z.eqb_spec (MenuNumber hi) 0) as [Hz|Hz]; [done|].
      destruct (used usedNumbers (MenuNumber hi)) eqn:Hu0.
      * eexists. split; reflexivity.
      * apply (validate_seen _ _ hj).
        -- apply list_elem_of_lookup. eauto.
        -- congruence.
        -- rewrite <- Heq. unfold used. by rewrite lookup_insert_eq.
    + cbn in Hi.
      destruct (Z.eqb_spec (MenuNumber h0) 0) as [Hz|Hz].
      * apply (IH _ i j); [lia|done..].
      * destruct (used usedNumbers (MenuNumber h0)) eqn:Hu0.
        -- eexists. split; reflexivity.
        -- apply (IH _ i j); [lia|done..].
Qed.

(** C1.  When two distinct entries of the host list carry the same
    explicit (nonzero) menu number, [AssignMenuNumbers] prints the
    duplicate-menu-number error and ends the process with exit status 1,
    whatever else the list holds and however much fuel the inner loop is
    given: no list of hosts is returned. *)
Theorem duplicate_explicit_number_is_fatal (fuel : nat) (hosts : list Host)
    (i j : nat) (hi hj : Host) :
  hosts !! i = Some hi → hosts !! j = Some hj → i ≠ j →
  MenuNumber hi = MenuNumber hj → MenuNumber hi ≠ 0 →
  ∃ printed,
    AssignMenuNumbers fuel hosts = Some (Exit 1 printed)
    ∧ duplicateReport printed.
Proof.
  intros Hi Hj Hne Heq Hnz.
  assert (∃ printed, validate hosts ∅ = Exit 1 printed ∧ duplicateReport printed)
    as (printed & Hv & Hp).
  { destruct (Nat.lt_total i j) as [Hlt|[?|Hlt]]; [|done|].
    - by apply (validate_repeat hosts ∅ i j hi hj).
    - apply (validate_repeat hosts ∅ j i hj hi); [done..|congruence]. }
  exists printed. unfold AssignMenuNumbers. by rewrite Hv.
Qed.

Lemma duplicate_explicit_number_is_fatal_witness :
  ∃ printed,
    AssignMenuNumbers 0 twoFives = Some (Exit 1 printed)
    ∧ duplicateReport printed.
Proof.
  apply (duplicate_explicit_number_is_fatal 0 twoFives 0 2
           (entry "a" "first" 5 []) (entry "c" "third" 5 []));
    [reflexivity|reflexivity|lia|reflexivity|discriminate].
Defined.

End Duplicates.

(* ===================================================================== *)
(** ** Strings and the matcher *)
(* ===================================================================== *)

Section Matcher.

#[local] Arguments String.append !_ _ / : simpl nomatch.

Lemma str_app_nil_r (s : string) : s +:+ "" = s.
Proof. induction s as [|a s IH]; simpl; [done|]. by rewrite IH. Qed.

Lemma str_app_assoc (s1 s2 s3 : string) : (s1 +:+ s2) +:+ s3 = s1 +:+ s2 +:+ s3.
Proof. induction s1 as [|a s1 IH]; simpl; [done|]. by rewrite IH. Qed.

Lemma str_length_app (s1 s2 : string) :
  String.length (s1 +:+ s2) = (String.length s1 + String.length s2)%nat.
Proof. induction s1 as [|a s1 IH]; simpl; [done|]. by rewrite IH. Qed.

Lemma take_app (s1 s2 : string) : take (String.length s1) (s1 +:+ s2) = s1.
Proof. induction s1 as [|a s1 IH]; simpl; [by destruct s2|]. by rewrite IH. Qed.

Lemma consumed_app (s1 s2 : string) : consumed (s1 +:+ s2) s2 = s1.
Proof.
  unfold consumed. rewrite str_length_app.
  replace (String.length s1 + String.length s2 - String.length s2)%nat
    with (String.length s1) by lia.
  apply take_app.
Qed.

Lemma all_app (p : ascii → bool) (s1 s2 : string) :
  all p (s1 +:+ s2) = all p s1 && all p s2.
Proof.
  induction s1 as [|a s1 IH]; simpl; [done|]. rewrite IH. by destruct (p a).
Qed.

Lemma nonempty_true (s : string) : nonempty s = true ↔ s ≠ "".
Proof. destruct s; simpl; split; congruence. Qed.

Lemma nonempty_false (s : string) : nonempty s = false ↔ s = "".
Proof. destruct s; simpl; split; congruence. Qed.

Lemma CutPrefix_Some (s l s' : string) :
  CutPrefix s l = Some s' ↔ s = l +:+ s'.
Proof.
  revert s. induction l as [|a l IH]; intros s; simpl.
  - split; congruence.
  - destruct s as [|b s]; [split; congruence|].
    destruct (Ascii.eqb_spec a b) as [->|Hne].
    + rewrite IH. split; congruence.
    + split; congruence.
Qed.

Lemma HasPrefix_app (s l : string) :
  HasPrefix s l = true ↔ ∃ rest, s = l +:+ rest.
Proof.
  revert s. induction l as [|a l IH]; intros s; simpl.
  - split; eauto.
  - destruct s as [|b s]; [split; [done|by intros [? ?]]|].
    destruct (Ascii.eqb_spec a b) as [->|Hne]; simpl.
    + rewrite IH. split; intros [rest Hr]; exists rest; congruence.
    + split; [done|]. intros [rest Hr]. congruence.
Qed.

(** The greedy loop finds a split whenever it answers. *)
Lemma star_sound (p : ascii → bool) (k : string → option captures)
    (s : string) (out : captures) :
  star p k s = Some out →
  ∃ s1 s2, s = s1 +:+ s2 ∧ all p s1 = true ∧ k s2 = Some out.
Proof.
  induction s as [|a s IH]; simpl; intros H.
  - exists "", "". done.
  - destruct (p a) eqn:Hp.
    + destruct (star p k s) as [c|] eqn:Hs.
      * injection H as <-. destruct (IH eq_refl) as (s1 & s2 & -> & Ha & Hk).
        exists (String a s1), s2. simpl. rewrite Hp. done.
      * exists "", (String a s). done.
    + exists "", (String a s). done.
Qed.

(** The greedy loop answers whenever some split would do. *)
Lemma star_complete (p : ascii → bool) (k : string → option captures)
    (s1 s2 : string) :
  all p s1 = true → is_Some (k s2) → is_Some (star p k (s1 +:+ s2)).
Proof.
  induction s1 as [|a s1 IH]; simpl; intros Ha Hk.
  - destruct s2 as [|b s2]; simpl; [done|].
    destruct (p b); [|done]. by destruct (star p k s2).
  - apply andb_true_iff in Ha as [-> Ha].
    destruct (IH Ha Hk) as [c ->]. done.
Qed.

(** The matcher is sound for [matches]. *)
Lemma run_sound (r : regex) :
  ∀ (k : string → captures → option captures) (s : string)
    (c out : captures),
  run r k s c = Some out →
  ∃ s1 s2 c', s = s1 +:+ s2 ∧ matches r s1 s2 c c' ∧ k s2 c' = Some out.
Proof.
  induction r as [| |l|cl|cl|i r IH|r IH|r1 IH1 r2 IH2]; intros k s c out; simpl.
  - intros H. exists "", s, c. split_and!; [done|constructor|done].
  - destruct s; [|done]. intros H. exists "", "", c.
    split_and!; [done|constructor|done].
  - destruct (CutPrefix s l) as [s'|] eqn:Hc; [|done].
    apply CutPrefix_Some in Hc as ->. intros H.
    exists l, s', c. split_and!; [done|constructor|done].
  - intros (s1 & s2 & -> & Ha & Hk)%star_sound.
    exists s1, s2, c. split_and!; [done|by constructor|done].
  - destruct s as [|a s]; [done|]. destruct (in_class cl a) eqn:Hp; [|done].
    intros (s1 & s2 & -> & Ha & Hk)%star_sound.
    exists (String a s1), s2, c. split_and!; [done| |done].
    constructor; [done|]. simpl. by rewrite Hp.
  - intros (s1 & s2 & c' & -> & Hm & Hk)%IH.
    rewrite consumed_app in Hk.
    exists s1, s2, ((i, s1) :: c'). split_and!; [done|by constructor|done].
  - destruct (run r k s c) as [o|] eqn:Hr.
    + intros [= ->]. apply IH in Hr as (s1 & s2 & c' & -> & Hm & Hk).
      exists s1, s2, c'. split_and!; [done|by constructor|done].
    + intros H. exists "", s, c. split_and!; [done|apply matches_skip|done].
  - intros (s1 & s' & c1 & -> & Hm1 & Hk1)%IH1.
    apply IH2 in Hk1 as (s2 & s3 & c2 & -> & Hm2 & Hk2).
    exists (s1 +:+ s2), s3, c2. rewrite str_app_assoc.
    split_and!; [done|by econstructor|done].
Qed.

(** The matcher is complete for [matches]: it answers whenever the
    pattern can read a prefix that the rest of the pattern accepts. *)
Lemma run_complete (r : regex) (s1 s2 : string) (c c' : captures) :
  matches r s1 s2 c c' →
  ∀ k : string → captures → option captures,
  is_Some (k s2 c') → is_Some (run r k (s1 +:+ s2) c).
Proof.
  induction 1 as [rest c|c|l rest c|cl s rest c Ha|cl s rest c Hne Ha
                 |i r s rest c c' Hm IH|r s rest c c' Hm IH|r rest c
                 |r1 r2 s1 s2 rest c c1 c2 Hm1 IH1 Hm2 IH2];
    intros k Hk; simpl.
  - done.
  - done.
  - assert (CutPrefix (l +:+ rest) l = Some rest) as -> by by apply CutPrefix_Some.
    done.
  - by apply star_complete.
  - destruct s as [|a s]; [done|]. simpl in *.
    apply andb_true_iff in Ha as [-> Ha]. by apply star_complete.
  - apply IH. by rewrite consumed_app.
  - destruct (IH k Hk) as [o ->]. done.
  - destruct (run r k rest c); done.
  - rewrite str_app_assoc. apply IH1. by apply IH2.
Qed.

End Matcher.

(* ===================================================================== *)
(** ** What the patterns of the parser match *)
(* ===================================================================== *)

Section Patterns.

#[local] Arguments String.append !_ _ / : simpl nomatch.

Lemma Find_sound (re : regex) (n : nat) (s : string) (m : list string) :
  FindStringSubmatch re n s = Some m →
  ∃ s1 s2 c, s = s1 +:+ s2 ∧ matches re s1 s2 [] c
             ∧ m = map (capture ((0%nat, s1) :: c)) (seq 0 (S n)).
Proof.
  unfold FindStringSubmatch.
  destruct (run _ _ s []) as [out|] eqn:Hr; [|done]. intros [= <-].
  apply run_sound in Hr as (s1 & s2 & c' & -> & Hm & [= <-]).
  inversion Hm; subst. eauto 10.
Qed.

Lemma Find_complete (re : regex) (n : nat) (s1 s2 : string) (c : captures) :
  matches re s1 s2 [] c → is_Some (FindStringSubmatch re n (s1 +:+ s2)).
Proof.
  intros Hm. unfold FindStringSubmatch.
  destruct (run_complete (Group 0 re) s1 s2 [] _ (matches_group _ _ _ _ _ _ Hm)
              (λ _ c, Some c)) as [out ->]; done.
Qed.

(** Inversion of a derivation for a pattern that is known. *)
Ltac invert_matches :=
  repeat match goal with
    | H : matches (Seq _ _) _ _ _ _ |- _ => inversion H; clear H; subst
    | H : matches Bol _ _ _ _ |- _ => inversion H; clear H; subst
    | H : matches Eol _ _ _ _ |- _ => inversion H; clear H; subst
    | H : matches (Lit _) _ _ _ _ |- _ => inversion H; clear H; subst
    | H : matches (Star _) _ _ _ _ |- _ => inversion H; clear H; subst
    | H : matches (Plus _) _ _ _ _ |- _ => inversion H; clear H; subst
    | H : matches (Group _ _) _ _ _ _ |- _ => inversion H; clear H; subst
    | H : matches (Opt _) _ _ _ _ |- _ => inversion H; clear H; subst
    end.

(** A line of the shape [Keyword\s+(value)], as six patterns of the
    parser have it. *)
Lemma keyword_line (kw : string) (cl : class) (s : string) (m : list string) :
  FindStringSubmatch
    (Bol >> Lit kw >> Plus Space >> Group 1 (Plus cl) >> Eol)%re 1 s = Some m →
  ∃ sp v, s = kw +:+ sp +:+ v
          ∧ nonempty sp = true ∧ all (in_class Space) sp = true
          ∧ nonempty v = true ∧ all (in_class cl) v = true
          ∧ m = [s; v].
Proof.
  intros (s1 & s2 & c & -> & Hm & ->)%Find_sound.
  invert_matches. simpl. rewrite !str_app_nil_r.
  eexists _, _. split_and!; try done.
Qed.

(** A line the menu pattern matches. *)
Lemma menu_line (s : string) (m : list string) :
  FindStringSubmatch reMenu 2 s = Some m →
  ∃ sp num sp' text,
    (s = "#" +:+ sp +:+ "Menu" +:+ ":" +:+ sp' +:+ text ∧ num = ""
     ∨ ∃ ws, s = "#" +:+ sp +:+ "Menu" +:+ (ws +:+ num) +:+ ":" +:+ sp' +:+ text
             ∧ nonempty num = true
             ∧ all (in_class Space) ws = true)
    ∧ all (in_class Space) sp = true
    ∧ all isDigit num = true
    ∧ nonempty text = true
    ∧ m = [s; num; text].
Proof.
  intros (s1 & s2 & c & -> & Hm & ->)%Find_sound. unfold reMenu in Hm.
  invert_matches; simpl; rewrite ?str_app_nil_r.
  - eexists _, _, _, _.
    split_and!; [right; eexists; split_and!; [reflexivity|done..]|done..].
  - eexists _, "", _, _. split_and!; [left; split; reflexivity|done..].
Qed.

Lemma menu_number_digits (s : string) (m : list string) :
  FindStringSubmatch reMenu 2 s = Some m → all isDigit (sub m 1) = true.
Proof. intros (sp & num & sp' & text & _ & _ & Hd & _ & ->)%menu_line. done. Qed.

Lemma menu_text_nonempty (s : string) (m : list string) :
  FindStringSubmatch reMenu 2 s = Some m → nonempty (sub m 2) = true.
Proof. intros (sp & num & sp' & text & _ & _ & _ & Ht & ->)%menu_line. done. Qed.

Lemma menu_line_hash (s : string) (m : list string) :
  FindStringSubmatch reMenu 2 s = Some m → ∃ rest, s = String "#" rest.
Proof.
  intros (sp & num & sp' & text & [[-> _]|(ws & -> & _)] & _)%menu_line;
    simpl; eauto.
Qed.

Lemma host_name_nonempty (line name : string) :
  hostLine line = Some name → nonempty name = true.
Proof.
  unfold hostLine. destruct (FindStringSubmatch reHost 1 line) as [m|] eqn:Hm; [|done].
  intros [= <-]. apply keyword_line in Hm as (sp & v & _ & _ & _ & Hv & _ & ->).
  done.
Qed.

End Patterns.

(* ===================================================================== *)
(** ** The parser, line by line *)
(* ===================================================================== *)

Section Lines.

#[local] Arguments String.append !_ _ / : simpl nomatch.

Lemma digits_decimal (d : string) (acc : Z) :
  all isDigit d = true → digits d acc = Some (decimal_from acc d).
Proof.
  revert acc. induction d as [|a d IH]; intros acc; simpl; [done|].
  intros [-> Hd]%andb_true_iff. by apply IH.
Qed.

Lemma decimal_from_nonneg (d : string) (acc : Z) :
  all isDigit d = true → 0 ≤ acc → 0 ≤ decimal_from acc d.
Proof.
  revert acc. induction d as [|a d IH]; intros acc; simpl; [done|].
  intros [Ha Hd]%andb_true_iff Hacc. apply IH; [done|].
  unfold isDigit, digitVal in *. apply andb_true_iff in Ha as [?%N.leb_le ?%N.leb_le].
  lia.
Qed.

(** [Atoi] on a run of digits fails exactly when the number is too large. *)
Lemma Atoi_digits (d : string) :
  nonempty d = true → all isDigit d = true →
  Atoi d = if decimal d <=? maxInt then Some (decimal d) else None.
Proof.
  intros Hne Hd. destruct d as [|a d]; [done|].
  pose proof (decimal_from_nonneg _ 0 Hd ltac:(lia)) as Hpos.
  unfold Atoi.
  assert (Ascii.eqb a "-" = false) as ->.
  { apply Ascii.eqb_neq. intros ->. done. }
  assert (Ascii.eqb a "+" = false) as ->.
  { apply Ascii.eqb_neq. intros ->. done. }
  rewrite digits_decimal by done. fold (decimal (String a d)).
  assert ((minInt <=? decimal (String a d)) = true) as ->; [|done].
  apply Z.leb_le. unfold minInt, decimal. lia.
Qed.

Lemma parseLine_host (line name : string) (cur : Host) (hs : list Host) :
  hostLine line = Some name →
  parseLine line cur hs
  = Ok (newHost name, if retained cur then hs ++ [cur] else hs).
Proof.
  unfold hostLine, parseLine.
  destruct (FindStringSubmatch reHost 1 line); [|done]. by intros [= <-].
Qed.

Lemma parseLine_menu (line : string) (m : list string) (cur : Host)
    (hs : list Host) :
  FindStringSubmatch reMenu 2 line = Some m →
  parseLine line cur hs
  = match handleMenuLine m cur with
    | Ok cur' => Ok (cur', hs)
    | Err e => Err e
    end.
Proof.
  intros Hm. destruct (menu_line_hash _ _ Hm) as [rest ->].
  unfold parseLine. rewrite Hm. reflexivity.
Qed.

(** A line that neither starts a block nor is a menu comment leaves the
    name and the description alone and never fails. *)
Lemma parseLine_plain (line : string) (cur : Host) :
  hostLine line = None → menuLine line = false →
  ∃ cur', (∀ hs, parseLine line cur hs = Ok (cur', hs))
          ∧ ShortName cur' = ShortName cur ∧ DescText cur' = DescText cur.
Proof.
  unfold hostLine, menuLine, parseLine.
  destruct (FindStringSubmatch reHost 1 line); [done|].
  destruct (FindStringSubmatch reMenu 2 line); [done|]. intros _ _.
  repeat match goal with
    | |- context [match FindStringSubmatch ?re ?n line with _ => _ end] =>
        destruct (FindStringSubmatch re n line)
    end;
    try (eexists; split_and!; [reflexivity|done..]).
  - eexists; split_and!; [reflexivity|..];
      unfold handleGroupLine; by destruct (contains _ _).
  - eexists; split_and!; [reflexivity|..]; unfold setIfInt; by destruct (Atoi _).
  - eexists; split_and!; [reflexivity|..]; unfold setIfInt; by destruct (Atoi _).
  - eexists; split_and!; [reflexivity|..]; unfold setIfInt; by destruct (Atoi _).
Qed.

Lemma hostLine_not_menu (line name : string) :
  hostLine line = Some name → menuLine line = false.
Proof.
  unfold hostLine, menuLine.
  destruct (FindStringSubmatch reMenu 2 line) as [m|] eqn:Hm; [|done].
  destruct (menu_line_hash _ _ Hm) as [rest ->]. done.
Qed.

(** The only lines that make the parser fail. *)
Lemma aborts_overflowing (line : string) :
  aborts line = true ↔ overflowingMenu line.
Proof.
  unfold aborts, overflowingMenu.
  destruct (FindStringSubmatch reMenu 2 line) as [m|] eqn:Hm.
  - rewrite (parseLine_menu _ _ _ _ Hm). unfold handleMenuLine.
    pose proof (menu_number_digits _ _ Hm) as Hd.
    destruct (nonempty (sub m 1)) eqn:Hne.
    + rewrite Atoi_digits by done.
      destruct (Z.leb_spec (decimal (sub m 1)) maxInt).
      * split; [done|]. intros (m' & [= <-] & _ & _ & ?). lia.
      * split; [|done]. intros _. exists m. split_and!; [done..|lia].
    + split; [done|]. intros (m' & [= <-] & ? & _). congruence.
  - split; [|by intros (? & ? & _)].
    destruct (hostLine line) as [name|] eqn:Hh.
    + by rewrite (parseLine_host _ _ _ _ Hh).
    + destruct (parseLine_plain line noHost Hh) as (cur' & -> & _).
      * unfold menuLine. by rewrite Hm.
      * done.
Qed.

(** Whether a line fails does not depend on the host being built. *)
Lemma parseLine_aborts (line : string) (cur : Host) (hs : list Host) :
  (∃ e, parseLine line cur hs = Err e) ↔ aborts line = true.
Proof.
  unfold aborts.
  destruct (hostLine line) as [name|] eqn:Hh.
  { rewrite !(parseLine_host _ _ _ _ Hh). split; [by intros [? ?]|done]. }
  destruct (menuLine line) eqn:Hml.
  - unfold menuLine in Hml.
    destruct (FindStringSubmatch reMenu 2 line) as [m|] eqn:Hm; [|done].
    rewrite !(parseLine_menu _ _ _ _ Hm). unfold handleMenuLine.
    destruct (nonempty (sub m 1)); [|split; [by intros [? ?]|done]].
    destruct (Atoi (sub m 1)); [split; [by intros [? ?]|done]|].
    split; eauto.
  - destruct (parseLine_plain line cur Hh Hml) as (c1 & -> & _).
    destruct (parseLine_plain line noHost Hh Hml) as (c2 & -> & _).
    split; [by intros [? ?]|done].
Qed.

End Lines.

(* ===================================================================== *)
(** ** The scanner *)
(* ===================================================================== *)

Section Scanning.

#[local] Arguments String.append !_ _ / : simpl nomatch.

Lemma scanFrom_eq (content held : string) (n : Z) :
  scanFrom content held n
  = if MaxScanTokenSize <=? n then []
    else
      match content with
      | EmptyString =>
          match held with
          | EmptyString => []
          | String _ _ => [dropCR (GoStr.rev held)]
          end
      | String c content' =>
          if N.eqb (byte_of c) 10
          then dropCR (GoStr.rev held) :: scanFrom content' EmptyString 0
          else scanFrom content' (String c held) (n + 1)
      end.
Proof. by destruct content. Qed.

Lemma rev_onto_length (s acc : string) :
  String.length (rev_onto s acc) = (String.length s + String.length acc)%nat.
Proof.
  revert acc. induction s as [|a s IH]; intros acc; simpl; [done|].
  rewrite IH. simpl. lia.
Qed.

Lemma rev_length (s : string) :
  String.length (GoStr.rev s) = String.length s.
Proof. unfold GoStr.rev. rewrite rev_onto_length. simpl. lia. Qed.

Lemma rev_onto_rev_onto (s a b : string) :
  rev_onto (rev_onto s a) b = rev_onto a (s +:+ b).
Proof.
  revert a b. induction s as [|c s IH]; intros a b; simpl; [done|].
  by rewrite IH.
Qed.

Lemma rev_rev_onto (s : string) : GoStr.rev (rev_onto s "") = s.
Proof.
  unfold GoStr.rev. rewrite rev_onto_rev_onto. simpl. apply str_app_nil_r.
Qed.

(** The line being read is part of a line of the file. *)
Lemma rawLinesFrom_held (content : string) :
  ∀ held : string,
  held ≠ "" → forallb short (rawLinesFrom content held) = true →
  Z.of_nat (String.length held) < MaxScanTokenSize.
Proof.
  induction content as [|c content IH]; intros held Hne; simpl.
  - destruct held as [|a held]; [done|]. simpl.
    intros [Hs _]%andb_true_iff. unfold short in Hs.
    rewrite rev_length in Hs. by apply Z.ltb_lt in Hs.
  - destruct (N.eqb (byte_of c) 10).
    + simpl. intros [Hs _]%andb_true_iff. unfold short in Hs.
      rewrite rev_length in Hs. by apply Z.ltb_lt in Hs.
    + intros Hs. apply IH in Hs; [|done].
      cbn [String.length] in Hs. lia.
Qed.

Lemma scanFrom_short (content : string) :
  ∀ held : string,
  forallb short (rawLinesFrom content held) = true →
  scanFrom content held (Z.of_nat (String.length held))
  = map dropCR (rawLinesFrom content held).
Proof.
  induction content as [|c content IH]; intros held Hs; rewrite scanFrom_eq.
  - destruct held as [|a held]; [done|].
    pose proof (rawLinesFrom_held "" (String a held) ltac:(done) Hs) as Hlt.
    destruct (Z.leb_spec MaxScanTokenSize
                (Z.of_nat (String.length (String a held)))); [lia|done].
  - assert (Z.of_nat (String.length held) < MaxScanTokenSize) as Hlt.
    { destruct held as [|a held]; [done|].
      by apply (rawLinesFrom_held (String c content)). }
    destruct (Z.leb_spec MaxScanTokenSize (Z.of_nat (String.length held)));
      [lia|].
    simpl in Hs |- *. destruct (N.eqb (byte_of c) 10).
    + simpl in Hs |- *. apply andb_true_iff in Hs as [_ Hs].
      f_equal. by apply (IH "").
    + rewrite <- IH by done. f_equal. cbn [String.length]. lia.
Qed.

(** A file whose lines are all short is read to its end, line by
    line. *)
Lemma Scan_short (content : string) :
  shortLines content → Scan content = fileLines content.
Proof. apply (scanFrom_short content ""). Qed.

Lemma scanFrom_line (l rest : string) :
  ∀ held : string,
  all (λ c, negb (N.eqb (byte_of c) 10)) l = true →
  Z.of_nat (String.length held) + Z.of_nat (String.length l)
  < MaxScanTokenSize →
  scanFrom (l +:+ newline +:+ rest) held (Z.of_nat (String.length held))
  = dropCR (GoStr.rev (rev_onto l held)) :: Scan rest.
Proof.
  induction l as [|c l IH]; intros held Hnl Hlen; rewrite scanFrom_eq.
  - simpl in Hlen.
    destruct (Z.leb_spec MaxScanTokenSize (Z.of_nat (String.length held)));
      [lia|].
    reflexivity.
  - cbn [String.length] in Hlen.
    destruct (Z.leb_spec MaxScanTokenSize (Z.of_nat (String.length held)));
      [lia|].
    simpl in Hnl |- *. apply andb_true_iff in Hnl as [Hc Hnl].
    apply negb_true_iff in Hc. rewrite Hc.
    rewrite <- IH; [|done|cbn [String.length]; lia].
    f_equal. cbn [String.length]. lia.
Qed.

(** Short lines written at the head of a file are the first lines the
    scanner returns. *)
Lemma Scan_joinLines (pre : list string) (content : string) :
  Forall scannable pre →
  Scan (joinLines pre +:+ content) = map dropCR pre ++ Scan content.
Proof.
  induction pre as [|l pre IH]; intros Hpre; [done|].
  apply Forall_cons in Hpre as [[Hnl Hs] Hpre].
  cbn [joinLines map]. rewrite !str_app_assoc.
  change (Scan (l +:+ newline +:+ joinLines pre +:+ content))
    with (scanFrom (l +:+ newline +:+ joinLines pre +:+ content) ""
            (Z.of_nat (String.length ""))).
  rewrite (scanFrom_line l (joinLines pre +:+ content) "" Hnl).
  - rewrite rev_rev_onto, IH by done. done.
  - unfold short in Hs. apply Z.ltb_lt in Hs. simpl. lia.
Qed.

End Scanning.

(* ===================================================================== *)
(** ** Host blocks *)
(* ===================================================================== *)

Section Blocks.

(** What [parseLine] does to the host of a block does not depend on the
    hosts found so far. *)
Lemma parseLine_effect (line : string) (cur : Host) (hs : list Host) :
  hostLine line = None → aborts line = false →
  parseLine line cur hs = Ok (effect cur line, hs).
Proof.
  intros Hh Hab. unfold effect.
  destruct (menuLine line) eqn:Hml.
  - unfold menuLine in Hml.
    destruct (FindStringSubmatch reMenu 2 line) as [m|] eqn:Hm; [|done].
    rewrite !(parseLine_menu _ _ _ _ Hm).
    destruct (handleMenuLine m cur) as [cur'|e] eqn:Hhm; [done|].
    assert (aborts line = true); [|congruence].
    apply (parseLine_aborts line cur hs). exists e.
    by rewrite (parseLine_menu _ _ _ _ Hm), Hhm.
  - destruct (parseLine_plain line cur Hh Hml) as (c1 & H1 & _).
    by rewrite !H1.
Qed.

Lemma effect_ShortName (line : string) (cur : Host) :
  hostLine line = None → ShortName (effect cur line) = ShortName cur.
Proof.
  intros Hh. unfold effect.
  destruct (menuLine line) eqn:Hml.
  - unfold menuLine in Hml.
    destruct (FindStringSubmatch reMenu 2 line) as [m|] eqn:Hm; [|done].
    rewrite (parseLine_menu _ _ _ _ Hm). unfold handleMenuLine.
    destruct (nonempty (sub m 1)); [|done]. by destruct (Atoi (sub m 1)).
  - by destruct (parseLine_plain line cur Hh Hml) as (c1 & -> & -> & _).
Qed.

Lemma effect_DescText (line : string) (cur : Host) :
  hostLine line = None → aborts line = false →
  nonempty (DescText (effect cur line))
  = menuLine line || nonempty (DescText cur).
Proof.
  intros Hh Hab. unfold effect.
  destruct (menuLine line) eqn:Hml.
  - unfold menuLine in Hml.
    destruct (FindStringSubmatch reMenu 2 line) as [m|] eqn:Hm; [|done].
    pose proof (menu_text_nonempty _ _ Hm) as Ht.
    unfold aborts in Hab. rewrite (parseLine_menu _ _ _ _ Hm) in Hab.
    rewrite (parseLine_menu _ _ _ _ Hm). unfold handleMenuLine in *.
    destruct (nonempty (sub m 1)); [|done]. by destruct (Atoi (sub m 1)).
  - by destruct (parseLine_plain line cur Hh Hml) as (c1 & -> & _ & ->).
Qed.

Lemma fold_effect_ShortName (body : list string) (cur : Host) :
  Forall (λ l, hostLine l = None) body →
  ShortName (fold_left effect body cur) = ShortName cur.
Proof.
  revert cur. induction body as [|l body IH]; intros cur Hb; [done|].
  apply Forall_cons in Hb as [Hl Hb]. simpl.
  rewrite IH by done. by apply effect_ShortName.
Qed.

Lemma fold_effect_DescText (body : list string) (cur : Host) :
  Forall (λ l, hostLine l = None) body →
  Forall (λ l, aborts l = false) body →
  nonempty (DescText (fold_left effect body cur))
  = existsb menuLine body || nonempty (DescText cur).
Proof.
  revert cur. induction body as [|l body IH]; intros cur Hb Ha; [done|].
  apply Forall_cons in Hb as [Hl Hb]. apply Forall_cons in Ha as [Hal Ha].
  simpl. rewrite IH, effect_DescText by done.
  destruct (menuLine l), (existsb menuLine body); done.
Qed.

(** The bodies [blocks_from] cuts hold no [Host] line, and hold lines of
    the file only; the names are what the [Host] lines give. *)
Lemma blocks_from_plain (lines : list string) :
  Forall (λ l, hostLine l = None) (fst (blocks_from lines))
  ∧ Forall (λ b, Forall (λ l, hostLine l = None) (snd b))
      (snd (blocks_from lines)).
Proof.
  induction lines as [|l lines [IH1 IH2]]; simpl; [by split|].
  destruct (blocks_from lines) as [body bs]. simpl in *.
  destruct (hostLine l) eqn:Hh; simpl; split; auto.
Qed.

Lemma blocks_from_lines (P : string → Prop) (lines : list string) :
  Forall P lines →
  Forall P (fst (blocks_from lines))
  ∧ Forall (λ b, Forall P (snd b)) (snd (blocks_from lines)).
Proof.
  induction 1 as [|l lines Hl Hls [IH1 IH2]]; simpl; [by split|].
  destruct (blocks_from lines) as [body bs]. simpl in *.
  destruct (hostLine l) eqn:Hh; simpl; split; auto.
Qed.

Lemma blocks_from_names (lines : list string) :
  Forall (λ b, nonempty (fst b) = true) (snd (blocks_from lines)).
Proof.
  induction lines as [|l lines IH]; simpl; [done|].
  destruct (blocks_from lines) as [body bs]. simpl in *.
  destruct (hostLine l) eqn:Hh; simpl; [|done].
  constructor; [|done]. by apply (host_name_nonempty l).
Qed.

(** The scanner loop, stated on blocks: the hosts it has appended once
    the last host is dealt with are those it had, then the host under
    construction at the start if it is kept, then the kept hosts of the
    blocks. *)
Lemma scanLines_blocks (lines : list string) :
  ∀ (cur : Host) (hs : list Host),
  Forall (λ l, aborts l = false) (significant lines) →
  ∃ cur' hs',
    scanLines lines cur hs = Ok (cur', hs')
    ∧ (if retained cur' then hs' ++ [cur'] else hs')
      = hs ++ List.filter retained
                (fold_left effect (fst (blocks_from (significant lines))) cur
                   :: map blockHost (snd (blocks_from (significant lines)))).
Proof.
  unfold significant.
  induction lines as [|text lines IH]; intros cur hs Hab; simpl.
  - eexists _, _. split; [done|]. destruct (retained cur); [done|].
    by rewrite List.app_nil_r.
  - simpl in Hab. destruct (nonempty (TrimSpace text)) eqn:Hne; [|by apply IH].
    apply Forall_cons in Hab as [Hal Hab]. simpl.
    destruct (blocks_from (List.filter nonempty (map TrimSpace lines)))
      as [body bs] eqn:Hbf.
    destruct (hostLine (TrimSpace text)) as [name|] eqn:Hh.
    + rewrite (parseLine_host _ _ _ _ Hh).
      destruct (IH (newHost name) (if retained cur then hs ++ [cur] else hs) Hab)
        as (cur' & hs' & -> & Heq).
      eexists _, _. split; [done|]. rewrite Heq. simpl.
      unfold blockHost at 2. simpl.
      destruct (retained cur); [|done]. by rewrite <- List.app_assoc.
    + rewrite (parseLine_effect _ _ _ Hh Hal).
      destruct (IH (effect cur (TrimSpace text)) hs Hab)
        as (cur' & hs' & -> & Heq).
      eexists _, _. split; [done|]. by rewrite Heq.
Qed.

Lemma retained_blockHost (b : string * list string) :
  nonempty (fst b) = true →
  Forall (λ l, hostLine l = None) (snd b) →
  Forall (λ l, aborts l = false) (snd b) →
  retained (blockHost b) = carriesMenu b.
Proof.
  intros Hn Hp Ha. unfold retained, blockHost, carriesMenu.
  rewrite fold_effect_ShortName, fold_effect_DescText by done.
  simpl. rewrite Hn. simpl. by destruct (existsb menuLine (snd b)).
Qed.

Lemma filter_ext_Forall {A : Type} (f g : A → bool) (l : list A) :
  Forall (λ x, f x = g x) l → List.filter f l = List.filter g l.
Proof.
  induction 1 as [|x l Hx Hl IH]; simpl; [done|]. by rewrite Hx, IH.
Qed.

Lemma filter_map_comm {A B : Type} (f : A → B) (p : B → bool) (l : list A) :
  List.filter p (map f l) = map f (List.filter (λ x, p (f x)) l).
Proof.
  induction l as [|x l IH]; simpl; [done|]. destruct (p (f x)); simpl; by rewrite IH.
Qed.

Lemma filter_all {A : Type} (p : A → bool) (l : list A) :
  forallb p l = true → List.filter p l = l.
Proof.
  induction l as [|x l IH]; simpl; [done|].
  intros [-> Hl]%andb_true_iff. by rewrite IH.
Qed.

(** What the parser makes of the lines the scanner returns, when none of
    them makes it fail. *)
Lemma scanned_menu_blocks (lines : list string) :
  Forall (λ l, ¬ overflowingMenu l) (significant lines) →
  ∃ hosts,
    readConfigFile (Ok lines) = Ok hosts
    ∧ hosts = List.filter retained (map blockHost (blocks lines))
    ∧ hosts = map blockHost (List.filter carriesMenu (blocks lines))
    ∧ map ShortName hosts = map fst (List.filter carriesMenu (blocks lines))
    ∧ (forallb carriesMenu (blocks lines) = true →
       hosts = map blockHost (blocks lines)
       ∧ length hosts = length (blocks lines)).
Proof.
  intros Hov.
  assert (Forall (λ l, aborts l = false) (significant lines)) as Hab.
  { eapply Forall_impl; [exact Hov|]. intros l Hl. simpl in Hl.
    destruct (aborts l) eqn:Ha; [|done]. by apply aborts_overflowing in Ha. }
  destruct (scanLines_blocks lines noHost [] Hab) as (cur & hs & Hscan & Heq).
  destruct (blocks_from_plain (significant lines)) as [Hpre Hbodies].
  destruct (blocks_from_lines _ _ Hab) as [_ Habodies].
  pose proof (blocks_from_names (significant lines)) as Hnames.
  assert (List.filter retained (map blockHost (blocks lines))
          = map blockHost (List.filter carriesMenu (blocks lines))) as Hfilter.
  { rewrite filter_map_comm. f_equal. apply filter_ext_Forall.
    unfold blocks. apply Forall_forall. intros b Hb.
    rewrite Forall_forall in Hbodies, Habodies, Hnames.
    apply retained_blockHost; auto. }
  exists (List.filter retained (map blockHost (blocks lines))).
  split_and!.
  - unfold readConfigFile. rewrite Hscan, Heq. simpl.
    unfold retained at 1. rewrite fold_effect_ShortName by done. done.
  - done.
  - done.
  - rewrite Hfilter, map_map. apply map_ext_in. intros b Hb.
    unfold blockHost. rewrite fold_effect_ShortName; [reflexivity|].
    apply filter_In in Hb as [Hb _]. unfold blocks in Hb.
    rewrite List.Forall_forall in Hbodies. by apply Hbodies.
  - intros Hall. rewrite Hfilter, filter_all by done.
    split; [done|]. by rewrite length_map.
Qed.

(** C3.  A file whose lines are all shorter than
    [bufio.MaxScanTokenSize] and none of whose lines makes the parser fail
    yields exactly the hosts of its [Host] blocks whose short name and
    description are non-empty when the block ends (at the next [Host] line
    or at the end of the file), in file order.  These are the blocks that
    carry a menu comment: a block without one is not in the result, the
    short names of the result are the names of the blocks with one, and
    when all N blocks carry one the result has N entries. *)
Theorem parser_keeps_menu_blocks (content : string) :
  shortLines content →
  Forall (λ l, ¬ overflowingMenu l) (significant (fileLines content)) →
  ∃ hosts,
    readConfigFile (Ok (Scan content)) = Ok hosts
    ∧ hosts
      = List.filter retained (map blockHost (blocks (fileLines content)))
    ∧ hosts
      = map blockHost (List.filter carriesMenu (blocks (fileLines content)))
    ∧ map ShortName hosts
      = map fst (List.filter carriesMenu (blocks (fileLines content)))
    ∧ (forallb carriesMenu (blocks (fileLines content)) = true →
       hosts = map blockHost (blocks (fileLines content))
       ∧ length hosts = length (blocks (fileLines content))).
Proof.
  intros Hshort Hov. rewrite (Scan_short content Hshort).
  by apply scanned_menu_blocks.
Qed.

Lemma parser_keeps_menu_blocks_witness :
  ∃ hosts,
    readConfigFile (Ok (Scan (joinLines sampleConfig))) = Ok hosts
    ∧ hosts
      = List.filter retained
          (map blockHost (blocks (fileLines (joinLines sampleConfig))))
    ∧ hosts
      = map blockHost
          (List.filter carriesMenu
             (blocks (fileLines (joinLines sampleConfig))))
    ∧ map ShortName hosts
      = map fst
          (List.filter carriesMenu
             (blocks (fileLines (joinLines sampleConfig))))
    ∧ (forallb carriesMenu (blocks (fileLines (joinLines sampleConfig)))
       = true →
       hosts = map blockHost (blocks (fileLines (joinLines sampleConfig)))
       ∧ length hosts
         = length (blocks (fileLines (joinLines sampleConfig)))).
Proof.
  apply (parser_keeps_menu_blocks (joinLines sampleConfig)).
  - vm_compute. reflexivity.
  - assert (forallb (λ l, negb (aborts l))
              (significant (fileLines (joinLines sampleConfig))) = true)
      as Hb by (vm_compute; reflexivity).
    rewrite forallb_forall in Hb.
    apply List.Forall_forall. intros l Hl Hov%aborts_overflowing.
    specialize (Hb l Hl). rewrite Hov in Hb. discriminate.
Defined.

(** The claim fails on two files.  The first has two [Host] blocks, each
    with a menu comment, and a line of [bufio.MaxScanTokenSize] bytes
    between them: the parser returns the first block only, without an
    error, as the scan ends at the long line.  The second has one [Host]
    block with a menu comment whose number is beyond the largest [int]:
    the parser returns no host but the error of that line. *)
Lemma long_line_loses_menu_blocks :
  (map fst (blocks (fileLines longLineConfig)) = ["a"; "b"]
   ∧ forallb carriesMenu (blocks (fileLines longLineConfig)) = true
   ∧ readConfigFile (Ok (Scan longLineConfig))
     = Ok [entry "a" "first" 0 []])
  ∧ (map fst (blocks (fileLines hugeNumberConfig)) = ["a"]
     ∧ forallb carriesMenu (blocks (fileLines hugeNumberConfig)) = true
     ∧ readConfigFile (Ok (Scan hugeNumberConfig))
       = Err "invalid menu number: 9223372036854775808").
Proof. vm_compute. repeat split. Qed.

(** The hosts of the sample file: the template block is left out. *)
Example sampleConfig_hosts :
  map ShortName
    (match readConfigFile (Ok (Scan (joinLines sampleConfig))) with
     | Ok hs => hs
     | Err _ => []
     end)
  = ["web1"; "db"; "lb"].
Proof. vm_compute. reflexivity. Qed.

End Blocks.

(* ===================================================================== *)
(** ** The one line that makes the parser fail *)
(* ===================================================================== *)

Section MenuNumbers.

#[local] Arguments String.append !_ _ / : simpl nomatch.

(** Two texts cut at their first colon agree on what precedes it. *)
Lemma first_colon (x y r1 r2 : string) :
  all (λ a, negb (colon a)) x = true → all (λ a, negb (colon a)) y = true →
  x +:+ ":" +:+ r1 = y +:+ ":" +:+ r2 → x = y.
Proof.
  revert y. induction x as [|a x IH]; intros [|b y]; simpl; try done.
  - intros _ [Hb _]%andb_true_iff [= <- _]. done.
  - intros [Ha _]%andb_true_iff _ [= -> _]. done.
  - intros [_ Hx]%andb_true_iff [_ Hy]%andb_true_iff [= -> Heq].
    f_equal. by apply IH.
Qed.

Lemma numeric_no_colon (s : string) :
  all numeric s = true → all (λ a, negb (colon a)) s = true.
Proof.
  induction s as [|a s IH]; cbn [all]; [done|].
  intros [Ha Hs]%andb_true_iff. rewrite IH by done.
  rewrite andb_true_r. unfold colon.
  destruct (N.eqb_spec (byte_of a) 58) as [Heq|]; [|done].
  unfold numeric, in_class, isDigit in Ha. rewrite Heq in Ha. done.
Qed.

Lemma space_numeric (s : string) :
  all (in_class Space) s = true → all numeric s = true.
Proof.
  induction s as [|a s IH]; cbn [all]; [done|].
  intros [Ha Hs]%andb_true_iff. unfold numeric at 1. by rewrite Ha, IH.
Qed.

Lemma digit_numeric (s : string) :
  all isDigit s = true → all numeric s = true.
Proof.
  induction s as [|a s IH]; cbn [all]; [done|].
  intros [Ha Hs]%andb_true_iff. unfold numeric at 1.
  rewrite Ha, IH by done. by rewrite orb_true_r.
Qed.

(** A comment whose number position holds something else than blanks and
    digits is no menu comment. *)
Lemma non_numeric_no_match (w text : string) :
  all (λ a, negb (colon a)) w = true → all numeric w = false →
  FindStringSubmatch reMenu 2 ("# Menu " +:+ w +:+ ":" +:+ text) = None.
Proof.
  intros Hc Hn.
  destruct (FindStringSubmatch reMenu 2 _) as [m|] eqn:Hm; [|done].
  exfalso.
  apply menu_line in Hm as (sp & num & sp' & text' & Hs & Hsp & Hd & _).
  assert (sp = " ") as ->.
  { destruct Hs as [[Hs _]|(ws & Hs & _)]; simpl in Hs;
      destruct sp as [|a [|b sp]]; simpl in *; try done;
      injection Hs as Ha Hb; subst; try done.
    all: by apply andb_true_iff in Hsp as [_ Hsp]. }
  destruct Hs as [[Hs _]|(ws & Hs & Hnum & Hws)]; simpl in Hs; [done|].
  assert (String " " w = ws +:+ num) as Hw.
  { apply (first_colon _ _ text (sp' +:+ text')).
    - simpl. by rewrite Hc.
    - apply numeric_no_colon. rewrite all_app.
      rewrite space_numeric by done. by rewrite digit_numeric.
    - injection Hs as Hs. exact Hs. }
  assert (all numeric (String " " w) = true) as Hall.
  { rewrite Hw, all_app. rewrite space_numeric by done.
    by rewrite digit_numeric. }
  simpl in Hall. congruence.
Qed.

Lemma scanLines_fails (lines : list string) :
  ∀ (cur : Host) (hs : list Host),
  (∃ e, scanLines lines cur hs = Err e)
  ↔ Exists (λ l, aborts l = true) (significant lines).
Proof.
  unfold significant.
  induction lines as [|text lines IH]; intros cur hs; simpl.
  - split; [by intros [? ?]|by intros ?%Exists_nil].
  - destruct (nonempty (TrimSpace text)) eqn:Hne; [|apply IH].
    rewrite Exists_cons.
    destruct (parseLine (TrimSpace text) cur hs) as [[cur' hs']|e] eqn:Hp.
    + rewrite IH. split; [tauto|]. intros [Ha|?]; [|done].
      apply (parseLine_aborts _ cur hs) in Ha as [e He]. congruence.
    + split; [|eauto]. intros _. left.
      apply (parseLine_aborts _ cur hs). eauto.
Qed.

Lemma scanLines_message (lines : list string) :
  ∀ (cur : Host) (hs : list Host) (e : string),
  scanLines lines cur hs = Err e →
  HasPrefix e "invalid menu number: " = true.
Proof.
  induction lines as [|text lines IH]; intros cur hs e; simpl; [done|].
  destruct (nonempty (TrimSpace text)); [|apply IH].
  destruct (parseLine (TrimSpace text) cur hs) as [[cur' hs']|e'] eqn:Hp;
    [apply IH|].
  intros [= <-].
  destruct (hostLine (TrimSpace text)) as [name|] eqn:Hh.
  { by rewrite (parseLine_host _ _ _ _ Hh) in Hp. }
  destruct (menuLine (TrimSpace text)) eqn:Hml.
  - unfold menuLine in Hml.
    destruct (FindStringSubmatch reMenu 2 _) as [m|] eqn:Hm; [|done].
    rewrite (parseLine_menu _ _ _ _ Hm) in Hp. unfold handleMenuLine in Hp.
    destruct (nonempty (sub m 1)); [|done].
    destruct (Atoi (sub m 1)); [done|]. by injection Hp as <-.
  - destruct (parseLine_plain _ cur Hh Hml) as (c1 & H1 & _). congruence.
Qed.

(** A line one of the three tuning patterns matches is matched by no
    pattern before it, and never makes the parser fail. *)
Lemma tuning_lines (line : string) (m : list string) (cur : Host)
    (hs : list Host) :
  (FindStringSubmatch reConnTimeout 1 line = Some m →
   parseLine line cur hs = Ok (tuned set_ConnectTimeout (sub m 1) cur, hs))
  ∧ (FindStringSubmatch reServerAliveInterval 1 line = Some m →
     parseLine line cur hs
     = Ok (tuned set_ServerAliveInterval (sub m 1) cur, hs))
  ∧ (FindStringSubmatch reServerAliveCountMax 1 line = Some m →
     parseLine line cur hs
     = Ok (tuned set_ServerAliveCountMax (sub m 1) cur, hs)).
Proof.
  assert (∀ (set : Z → Host → Host) (v : string),
            nonempty v = true → all isDigit v = true →
            setIfInt set v cur = tuned set v cur) as Hset.
  { intros set v Hne Hd. unfold setIfInt, tuned. rewrite Atoi_digits by done.
    by destruct (decimal v <=? maxInt). }
  split_and!; intros Hm; pose proof Hm as Hk;
    apply keyword_line in Hk as (sp & v & -> & _ & _ & Hv & Hd & ->);
    unfold parseLine;
    repeat match goal with
      | |- context [FindStringSubmatch ?re ?n ?l] =>
          lazymatch re with
          | reConnTimeout => fail
          | reServerAliveInterval => fail
          | reServerAliveCountMax => fail
          | _ => change (FindStringSubmatch re n l) with (@None (list string))
          end
      end.
  - rewrite Hm. cbv iota beta. by rewrite Hset.
  - change (FindStringSubmatch reConnTimeout 1
              ("ServerAliveInterval" +:+ sp +:+ v))
      with (@None (list string)).
    rewrite Hm. cbv iota beta. by rewrite Hset.
  - change (FindStringSubmatch reConnTimeout 1
              ("ServerAliveCountMax" +:+ sp +:+ v))
      with (@None (list string)).
    change (FindStringSubmatch reServerAliveInterval 1
              ("ServerAliveCountMax" +:+ sp +:+ v))
      with (@None (list string)).
    rewrite Hm. cbv iota beta. by rewrite Hset.
Qed.

(** C2, as the parser has it.  A comment [# Menu <w>: <text>] whose [<w>]
    holds a byte that is neither a blank nor a digit does not match the
    menu pattern and is passed over like any other comment, without an
    error and without a change.  The explicit number of a menu comment is
    always a run of digits, and the parser fails on a line exactly when
    that run writes a number beyond the largest [int].  So reading a file
    whose lines are all shorter than [bufio.MaxScanTokenSize] fails
    exactly when one of its lines is such a comment, and a failure always
    carries the message [invalid menu number: ...].  No other line makes
    the parser fail: a [ConnectTimeout], [ServerAliveInterval] or
    [ServerAliveCountMax] line stores the number its digits write when an
    [int] holds it, and leaves the host as it was when not. *)
Theorem menu_number_failures :
  (∀ (w text : string) (cur : Host) (hs : list Host),
     all (λ a, negb (colon a)) w = true → all numeric w = false →
     parseLine ("# Menu " +:+ w +:+ ":" +:+ text) cur hs = Ok (cur, hs))
  ∧ (∀ (line : string) (m : list string),
       FindStringSubmatch reMenu 2 line = Some m →
       all isDigit (sub m 1) = true)
  ∧ (∀ (line : string) (cur : Host) (hs : list Host),
       (∃ e, parseLine line cur hs = Err e) ↔ overflowingMenu line)
  ∧ (∀ content : string,
       shortLines content →
       (∃ e, readConfigFile (Ok (Scan content)) = Err e)
       ↔ Exists overflowingMenu (significant (fileLines content)))
  ∧ (∀ (content e : string),
       readConfigFile (Ok (Scan content)) = Err e →
       HasPrefix e "invalid menu number: " = true)
  ∧ (∀ (line : string) (m : list string) (cur : Host) (hs : list Host),
       (FindStringSubmatch reConnTimeout 1 line = Some m →
        parseLine line cur hs
        = Ok (tuned set_ConnectTimeout (sub m 1) cur, hs))
       ∧ (FindStringSubmatch reServerAliveInterval 1 line = Some m →
          parseLine line cur hs
          = Ok (tuned set_ServerAliveInterval (sub m 1) cur, hs))
       ∧ (FindStringSubmatch reServerAliveCountMax 1 line = Some m →
          parseLine line cur hs
          = Ok (tuned set_ServerAliveCountMax (sub m 1) cur, hs))).
Proof.
  split_and!.
  - intros w text cur hs Hc Hn. unfold parseLine.
    rewrite (non_numeric_no_match w text Hc Hn). reflexivity.
  - apply menu_number_digits.
  - intros line cur hs. rewrite parseLine_aborts. apply aborts_overflowing.
  - intros content Hshort. rewrite (Scan_short content Hshort).
    generalize (fileLines content). intros lines. unfold readConfigFile.
    transitivity (∃ e, scanLines lines noHost [] = Err e).
    + destruct (scanLines lines noHost []) as [[cur hs]|e];
        split; intros [e' He]; by eauto.
    + rewrite scanLines_fails.
      split; intros H; (eapply Exists_impl; [exact H|]); intros l;
        apply aborts_overflowing.
  - intros content e. unfold readConfigFile.
    destruct (scanLines (Scan content) noHost []) as [[cur hs]|e'] eqn:Hs;
      [done|].
    intros [= <-]. by apply scanLines_message in Hs.
  - apply tuning_lines.
Qed.

Lemma menu_number_failures_witness :
  parseLine "# Menu one: Primary database server" web1 [] = Ok (web1, [])
  ∧ ((∃ e, readConfigFile (Ok (Scan hugeNumberConfig)) = Err e)
     ↔ Exists overflowingMenu (significant (fileLines hugeNumberConfig)))
  ∧ parseLine "ConnectTimeout 9223372036854775808" web1 [] = Ok (web1, []).
Proof.
  destruct menu_number_failures as (Hword & _ & _ & Hfile & _ & Htuning).
  split_and!.
  - apply (Hword "one" " Primary database server"); reflexivity.
  - apply (Hfile hugeNumberConfig). vm_compute. reflexivity.
  - exact (proj1 (Htuning "ConnectTimeout 9223372036854775808"
                    ["ConnectTimeout 9223372036854775808";
                     "9223372036854775808"] web1 [])
             eq_refl).
Defined.

(** The claim fails on a file with a word in the number position: the
    file is read without an error, the comment is passed over and its host
    is left out for want of a menu comment. *)
Lemma word_menu_number_is_not_fatal :
  readConfigFile (Ok (Scan (joinLines wordNumberConfig))) = Ok [web1].
Proof. vm_compute. reflexivity. Qed.

(** A number beyond the largest [int] does make the parser fail. *)
Example huge_menu_number_is_fatal :
  readConfigFile (Ok (Scan hugeNumberConfig))
  = Err "invalid menu number: 9223372036854775808".
Proof. vm_compute. reflexivity. Qed.

(** A tuning value beyond the largest [int] does not: the line is passed
    over and the field stays what it was. *)
Example huge_timeout_is_ignored :
  readConfigFile
    (Ok (Scan (joinLines ["Host a"; "# Menu: host"; "ConnectTimeout 15";
                          "ConnectTimeout 9223372036854775808"])))
  = Ok [mkHost "a" "a" "root" "22" "" "" "host" 0 [] 0 0 15].
Proof. vm_compute. reflexivity. Qed.

End MenuNumbers.

(* ===================================================================== *)
(** ** The list of groups *)
(* ===================================================================== *)

Section Groups.

Lemma strLess_irrefl (a : string) : strLess a a = false.
Proof.
  unfold strLess. destruct (String_as_OT.compare_spec a a) as [?|H|?]; try done.
  by apply (irreflexivity String_as_OT.lt) in H.
Qed.

Lemma strLess_total (a b : string) :
  strLess a b = false → strLess b a = false → a = b.
Proof.
  unfold strLess.
  destruct (String_as_OT.compare_spec a b) as [?|?|Hba]; try done.
  destruct (String_as_OT.compare_spec b a) as [?|?|Hab]; try done.
  intros _ _. exfalso.
  apply (irreflexivity String_as_OT.lt a). by etrans.
Qed.

Lemma strLess_trans (a b c : string) :
  strLess a b = true → strLess b c = true → strLess a c = true.
Proof.
  unfold strLess.
  destruct (String_as_OT.compare_spec a b) as [?|Hab|?]; try done.
  destruct (String_as_OT.compare_spec b c) as [?|Hbc|?]; try done.
  intros _ _. assert (String_as_OT.lt a c) as Hac by by etrans.
  destruct (String_as_OT.compare_spec a c) as [->|?|Hca]; try done.
  - by apply (irreflexivity String_as_OT.lt) in Hac.
  - exfalso. apply (irreflexivity String_as_OT.lt a). by etrans.
Qed.

Lemma strLess_asym (a b : string) : strLess a b = true → strLess b a = false.
Proof.
  intros Hab. destruct (strLess b a) eqn:Hba; [|done].
  pose proof (strLess_trans _ _ _ Hab Hba) as Haa.
  by rewrite strLess_irrefl in Haa.
Qed.

(** [lessGroup] through the two cases of its definition. *)
Lemma lessGroup_spec (a b : string) :
  lessGroup a b = true
  ↔ a ≠ "Ungrouped" ∧ (b = "Ungrouped" ∨ strLess a b = true).
Proof.
  unfold lessGroup.
  destruct (String.eqb_spec a "Ungrouped") as [->|Ha]; [naive_solver|].
  destruct (String.eqb_spec b "Ungrouped") as [->|Hb]; naive_solver.
Qed.

#[local] Instance notAfter_lessGroup_total : Total (notAfter lessGroup).
Proof.
  intros a b. unfold notAfter.
  destruct (lessGroup b a) eqn:Hba; [|by left]. right.
  destruct (lessGroup a b) eqn:Hab; [|done].
  apply lessGroup_spec in Hba as [Hb [->|Hba]], Hab as [Ha [->|Hab]]; try done.
  apply strLess_asym in Hab. congruence.
Qed.

#[local] Instance notAfter_lessGroup_antisym : AntiSymm (=) (notAfter lessGroup).
Proof.
  intros a b. unfold notAfter. intros Hba Hab.
  destruct (decide (a = "Ungrouped")) as [->|Ha];
    destruct (decide (b = "Ungrouped")) as [->|Hb]; try done.
  - assert (lessGroup b "Ungrouped" = true) by (apply lessGroup_spec; auto).
    congruence.
  - assert (lessGroup a "Ungrouped" = true) by (apply lessGroup_spec; auto).
    congruence.
  - apply strLess_total.
    + destruct (strLess a b) eqn:H; [|done].
      assert (lessGroup a b = true) by (apply lessGroup_spec; auto). congruence.
    + destruct (strLess b a) eqn:H; [|done].
      assert (lessGroup b a = true) by (apply lessGroup_spec; auto). congruence.
Qed.

#[local] Instance notAfter_lessGroup_trans : Transitive (notAfter lessGroup).
Proof.
  intros a b c. unfold notAfter. intros Hba Hcb.
  destruct (lessGroup c a) eqn:Hca; [|done]. exfalso.
  apply lessGroup_spec in Hca as [Hc Hca].
  assert (b ≠ "Ungrouped") as Hb.
  { intros ->. assert (lessGroup c "Ungrouped" = true)
      by (apply lessGroup_spec; auto). congruence. }
  assert (a ≠ "Ungrouped") as Ha.
  { intros ->. assert (lessGroup b "Ungrouped" = true)
      by (apply lessGroup_spec; auto). congruence. }
  destruct Hca as [->|Hca]; [done|].
  assert (strLess b a = false) as Hba'.
  { destruct (strLess b a) eqn:H; [|done].
    assert (lessGroup b a = true) by (apply lessGroup_spec; auto). congruence. }
  assert (strLess c b = false) as Hcb'.
  { destruct (strLess c b) eqn:H; [|done].
    assert (lessGroup c b = true) by (apply lessGroup_spec; auto). congruence. }
  destruct (strLess a b) eqn:Hab.
  - pose proof (strLess_trans _ _ _ Hca Hab) as Hcb''. congruence.
  - assert (a = b) as -> by by apply strLess_total. congruence.
Qed.

(** What a sorted list of distinct group names looks like. *)
Lemma sorted_groups_in_order (l : list string) :
  StronglySorted (notAfter lessGroup) l → NoDup l → groupsInOrder l.
Proof.
  induction 1 as [|x l Hl IH Hx]; intros Hnd.
  - exists []. split_and!; [set_solver|constructor|by left].
  - apply NoDup_cons in Hnd as [Hxl Hnd].
    destruct (IH Hnd) as (named & HU & Hs & Hshape).
    rewrite Forall_forall in Hx.
    destruct (decide (x = "Ungrouped")) as [->|Hxu].
    + assert (l = []) as ->.
      { destruct l as [|y l]; [done|]. exfalso.
        assert (y ≠ "Ungrouped") by set_solver.
        assert (lessGroup y "Ungrouped" = true) by (apply lessGroup_spec; auto).
        specialize (Hx y ltac:(set_solver)). unfold notAfter in Hx. congruence. }
      exists []. split_and!; [set_solver|constructor|by right].
    + exists (x :: named). split_and!.
      * set_solver.
      * constructor; [done|]. apply Forall_forall. intros y Hy.
        assert (y ∈ l) as Hyl by (destruct Hshape as [->| ->]; set_solver).
        assert (y ≠ "Ungrouped") as Hyu by set_solver.
        assert (x ≠ y) as Hxy by set_solver.
        specialize (Hx y Hyl). unfold notAfter in Hx. unfold lexLt.
        destruct (strLess x y) eqn:Hlt; [done|]. exfalso. apply Hxy.
        apply strLess_total; [done|].
        destruct (strLess y x) eqn:H; [|done].
        assert (lessGroup y x = true) by (apply lessGroup_spec; auto).
        congruence.
      * destruct Hshape as [->| ->]; [by left|by right].
Qed.

Lemma insert_groups_dom (gs : list string) (m : gmap string bool) :
  dom (fold_left (λ groupMap g, <[g := true]> groupMap) gs m)
  = dom m ∪ list_to_set gs.
Proof.
  revert m. induction gs as [|g gs IH]; intros m; simpl; [set_solver|].
  rewrite IH, dom_insert_L. set_solver.
Qed.

Lemma collect_groups_dom (hosts : list Host) (m : gmap string bool) (g : string) :
  g ∈ dom (fold_left
             (λ groupMap h,
                fold_left (λ groupMap g, <[g := true]> groupMap) (Groups h)
                  groupMap) hosts m)
  ↔ g ∈ dom m ∨ ∃ h, h ∈ hosts ∧ g ∈ Groups h.
Proof.
  revert m. induction hosts as [|h hosts IH]; intros m; simpl.
  - set_solver.
  - rewrite IH, insert_groups_dom. set_solver.
Qed.

Lemma hasUngrouped_spec (hosts : list Host) :
  hasUngrouped hosts = true ↔ ∃ h, h ∈ hosts ∧ Groups h = [].
Proof.
  induction hosts as [|h hosts IH]; simpl.
  - split; [done|]. intros (h & Hh & _). by apply elem_of_nil in Hh.
  - unfold len. destruct (Groups h) as [|g gs] eqn:Hg; simpl.
    + split; [|done]. intros _. exists h. split; [left|done].
    + rewrite IH. split.
      * intros (h' & Hh' & He). exists h'. split; [by right|done].
      * intros (h' & Hh' & He). apply elem_of_cons in Hh' as [->|Hh'];
          [congruence|eauto].
Qed.

Lemma groupMap_dom (hosts : list Host) (g : string) :
  g ∈ dom (groupMap hosts)
  ↔ (∃ h, h ∈ hosts ∧ g ∈ Groups h)
    ∨ (g = "Ungrouped" ∧ ∃ h, h ∈ hosts ∧ Groups h = []).
Proof.
  unfold groupMap, collectGroups.
  destruct (hasUngrouped hosts) eqn:Hu.
  - apply hasUngrouped_spec in Hu.
    rewrite dom_insert_L, elem_of_union, elem_of_singleton, collect_groups_dom.
    set_solver.
  - rewrite collect_groups_dom.
    assert (¬ ∃ h, h ∈ hosts ∧ Groups h = []) as Hno.
    { intros H%hasUngrouped_spec. congruence. }
    set_solver.
Qed.

(** C8.  [GetAllGroups] returns, without repetition, exactly the group
    names carried by at least one host, together with ["Ungrouped"] when
    some host has no group; the names are in lexicographic order except
    that ["Ungrouped"], when present, comes last.  The result is the same
    whatever order the range over the map yields the keys in and whichever
    sort [sort.Slice] performs. *)
Theorem all_groups_union_in_order (hosts : list Host) :
  (∀ g, g ∈ GetAllGroups hosts
        ↔ (∃ h, h ∈ hosts ∧ g ∈ Groups h)
          ∨ (g = "Ungrouped" ∧ ∃ h, h ∈ hosts ∧ Groups h = []))
  ∧ NoDup (GetAllGroups hosts)
  ∧ groupsInOrder (GetAllGroups hosts)
  ∧ (∀ keys out,
       keys ≡ₚ elements (dom (groupMap hosts)) →
       sortSlice_spec lessGroup keys out →
       out = GetAllGroups hosts).
Proof.
  assert (GetAllGroups hosts ≡ₚ elements (dom (groupMap hosts))) as Hperm.
  { unfold GetAllGroups, GetAllGroups_in, sortSlice. apply merge_sort_Permutation. }
  assert (StronglySorted (notAfter lessGroup) (GetAllGroups hosts)) as Hsorted.
  { unfold GetAllGroups, GetAllGroups_in, sortSlice.
    apply StronglySorted_merge_sort; apply _. }
  assert (NoDup (GetAllGroups hosts)) as Hnd.
  { rewrite Hperm. apply NoDup_elements. }
  split_and!.
  - intros g. rewrite Hperm, elem_of_elements. apply groupMap_dom.
  - done.
  - by apply sorted_groups_in_order.
  - intros keys out Hkeys [Hout Hs].
    apply (StronglySorted_unique (notAfter lessGroup)); [done..|].
    by rewrite Hout, Hkeys, Hperm.
Qed.

Lemma all_groups_union_in_order_witness :
  sortSlice lessGroup (reverse (elements (dom (groupMap twoFives))))
  = GetAllGroups twoFives.
Proof.
  apply (proj2 (proj2 (proj2 (all_groups_union_in_order twoFives)))
           (reverse (elements (dom (groupMap twoFives))))).
  - apply reverse_Permutation.
  - split.
    + apply merge_sort_Permutation.
    + apply StronglySorted_merge_sort; apply _.
Defined.

(** The groups of the sample hosts. *)
Example sample_groups :
  GetAllGroups
    [ entry "a" "first" 1 []; entry "b" "second" 2 ["web"; "Zeta"];
      entry "c" "third" 3 ["db"; "web"] ]
  = ["Zeta"; "db"; "web"; "Ungrouped"].
Proof. vm_compute. reflexivity. Qed.

End Groups.

(* ===================================================================== *)
(** ** The filter of the selector *)
(* ===================================================================== *)

Section Filter.
Import ui.

Variable unicodeLower : string → string.

#[local] Abbreviation ToLower := (GoStr.ToLower unicodeLower).

Lemma selectsb_selects (text : string) (h : Host) :
  selectsb ToLower text h = true ↔ selects ToLower text h.
Proof.
  unfold selectsb, selects, isPrefixNoCase, isPrefix.
  rewrite !orb_true_iff, !HasPrefix_app. tauto.
Qed.

(** The loop appends the selected hosts of the view, in the order of the
    view, to what it was given. *)
Lemma filterLoop_filter (text : string) (vh acc : list Host) :
  filterLoop unicodeLower text (ToLower text) vh acc
  = acc ++ List.filter (selectsb ToLower text) vh.
Proof.
  revert acc. induction vh as [|h vh IH]; intros acc; simpl.
  - by rewrite List.app_nil_r.
  - unfold selectsb at 1.
    destruct (HasPrefix (Itoa (MenuNumber h)) text); simpl.
    { by rewrite IH, <- List.app_assoc. }
    destruct (HasPrefix (ToLower (ShortName h)) (ToLower text)); simpl.
    { by rewrite IH, <- List.app_assoc. }
    destruct (HasPrefix (ToLower (LongName h)) (ToLower text)); simpl.
    { by rewrite IH, <- List.app_assoc. }
    apply IH.
Qed.

Lemma applyFilter_filter (text : string) (vh : list Host) :
  applyFilter unicodeLower text vh
  = if nonempty text then List.filter (selectsb ToLower text) vh else vh.
Proof.
  unfold applyFilter. destruct (nonempty text); [|done].
  by rewrite filterLoop_filter.
Qed.

Lemma filter_twice {A : Type} (p : A → bool) (l : list A) :
  List.filter p (List.filter p l) = List.filter p l.
Proof.
  induction l as [|x l IH]; simpl; [done|].
  destruct (p x) eqn:Hp; simpl; [|done]. by rewrite Hp, IH.
Qed.

Lemma filter_sublist {A : Type} (p : A → bool) (l : list A) :
  List.filter p l `sublist_of` l.
Proof.
  induction l as [|x l IH]; simpl; [done|].
  destruct (p x); by constructor.
Qed.

(** C5.  When the filter is recomputed on a view, an empty filter text
    gives the hosts of the view unchanged; a non-empty one gives exactly
    the hosts of the view that the text selects (the text starts the
    decimal writing of the menu number, or starts the short name or the
    long name when case is ignored), each as often and in the order the
    view has them.  The text "1" on the menu numbers 1, 2, 10, 11 and 100
    keeps 1, 10, 11 and 100 and drops 2. *)
Theorem filter_keeps_prefix_matches (m : Model) (vh : list Host) :
  viewHosts m = Some vh →
  ∃ m',
    updateFilteredHosts unicodeLower m = Some m'
    ∧ (filterText m = "" → filteredHosts m' = vh)
    ∧ (filterText m ≠ "" →
       filteredHosts m' = List.filter (selectsb ToLower (filterText m)) vh
       ∧ ∀ h, h ∈ filteredHosts m'
              ↔ h ∈ vh ∧ selects ToLower (filterText m) h)
    ∧ (∀ h, selectsb ToLower (filterText m) h = true
            ↔ selects ToLower (filterText m) h)
    ∧ filteredHosts m' `sublist_of` vh
    ∧ map MenuNumber (applyFilter unicodeLower "1" fiveNumbers)
      = [1; 10; 11; 100].
Proof.
  intros Hv. unfold updateFilteredHosts. rewrite Hv.
  eexists. split; [reflexivity|]. simpl. rewrite applyFilter_filter.
  split_and!.
  - by intros ->.
  - intros Hne%nonempty_true. rewrite Hne. split; [done|].
    intros h. rewrite <- selectsb_selects, list_elem_of_In, filter_In.
    by rewrite <- list_elem_of_In.
  - intros h. apply selectsb_selects.
  - destruct (nonempty (filterText m)); [apply filter_sublist|done].
  - vm_compute. reflexivity.
Qed.

(** C9.  Filtering is idempotent: the filter applied, with the same text,
    to the list it has produced gives that list again; and recomputing the
    filtered hosts of a model whose filtered hosts were just computed
    changes nothing. *)
Theorem filter_is_idempotent :
  (∀ (text : string) (vh : list Host),
     applyFilter unicodeLower text (applyFilter unicodeLower text vh)
     = applyFilter unicodeLower text vh)
  ∧ (∀ m m' : Model,
       updateFilteredHosts unicodeLower m = Some m' →
       updateFilteredHosts unicodeLower m' = Some m').
Proof.
  split.
  - intros text vh. rewrite !applyFilter_filter.
    destruct (nonempty text); [apply filter_twice|done].
  - intros m m'. unfold updateFilteredHosts.
    destruct (viewHosts m) as [vh|] eqn:Hv; [|done]. intros [= <-].
    change (viewHosts (set_filteredHosts (applyFilter unicodeLower (filterText m) vh) m))
      with (viewHosts m).
    rewrite Hv. reflexivity.
Qed.

End Filter.

Lemma filter_keeps_prefix_matches_witness :
  ∃ m',
    ui.updateFilteredHosts noUnicode
      (ui.mkModel fiveNumbers None false false "" 0 0 [] fiveNumbers "D" 0 0)
    = Some m'
    ∧ map ShortName (ui.filteredHosts m') = ["db"; "dev"].
Proof.
  destruct (filter_keeps_prefix_matches noUnicode
              (ui.mkModel fiveNumbers None false false "" 0 0 [] fiveNumbers
                 "D" 0 0) fiveNumbers eq_refl)
    as (m' & Hm & _ & Hf & _).
  exists m'. split; [exact Hm|].
  destruct (Hf ltac:(discriminate)) as [-> _]. reflexivity.
Defined.

Lemma filter_is_idempotent_witness :
  ui.updateFilteredHosts noUnicode
    (ui.mkModel fiveNumbers None false false "" 0 0 []
       (ui.applyFilter noUnicode "1" fiveNumbers) "1" 0 0)
  = Some (ui.mkModel fiveNumbers None false false "" 0 0 []
            (ui.applyFilter noUnicode "1" fiveNumbers) "1" 0 0).
Proof.
  apply (proj2 (filter_is_idempotent noUnicode)
           (ui.mkModel fiveNumbers None false false "" 0 0 [] fiveNumbers
              "1" 0 0)).
  reflexivity.
Defined.

(* ===================================================================== *)
(** ** The assignment of menu numbers *)
(* ===================================================================== *)

Section Numbering.

Lemma wrap_fits (z : Z) : minInt ≤ z ≤ maxInt → wrap z = z.
Proof.
  unfold wrap, minInt, maxInt. intros H.
  rewrite Z.mod_small by lia. lia.
Qed.

Lemma used_dom (m : gmap Z bool) (n : Z) :
  allTrue m → used m n = true ↔ n ∈ dom m.
Proof.
  intros Hm. unfold used. rewrite elem_of_dom.
  destruct (m !! n) as [v|] eqn:Hl; simpl.
  - rewrite (Hm n v Hl). split; [eauto|done].
  - split; [done|]. by intros [? ?].
Qed.

Lemma allTrue_insert (m : gmap Z bool) (n : Z) :
  allTrue m → allTrue (<[n := true]> m).
Proof. intros Hm. by apply map_Forall_insert_2. Qed.

(** A set that holds 1, ..., c has at least c elements. *)
Lemma initial_segment_size (U : gset Z) (c : Z) :
  0 ≤ c → (∀ k, 1 ≤ k ≤ c → k ∈ U) → c ≤ Z.of_nat (size U).
Proof.
  intros Hc HU.
  assert (list_to_set (seqZ 1 c) ⊆ U) as Hsub.
  { intros k. rewrite elem_of_list_to_set, elem_of_seqZ. intros ?. apply HU. lia. }
  apply subseteq_size in Hsub.
  rewrite size_list_to_set, length_seqZ in Hsub by apply NoDup_seqZ. lia.
Qed.

Lemma leastFree_unique (U : gset Z) (n n' : Z) :
  leastFree U n → leastFree U n' → n = n'.
Proof.
  intros (Hp & Hn & Hl) (Hp' & Hn' & Hl').
  destruct (Z.lt_total n n') as [?|[?|?]]; [|done|].
  - exfalso. apply Hn, Hl'. lia.
  - exfalso. apply Hn', Hl. lia.
Qed.

(** The inner loop stops at the smallest free positive number when it is
    given enough rounds. *)
Lemma nextFree_least (bound : Z) (m : gmap Z bool) (fuel : nat) :
  ∀ next : Z,
  allTrue m → Z.of_nat (size (dom m)) ≤ bound → bound < maxInt →
  1 ≤ next → (∀ k, 1 ≤ k < next → k ∈ dom m) →
  bound + 2 - next ≤ Z.of_nat fuel →
  ∃ n, nextFree fuel m next = Some n ∧ leastFree (dom m) n ∧ next ≤ n.
Proof.
  intros next Hm Hsize Hb. revert next.
  induction fuel as [|fuel IH]; intros next Hnext Hseg Hfuel.
  - exfalso.
    pose proof (initial_segment_size (dom m) (next - 1) ltac:(lia)
                  ltac:(intros; apply Hseg; lia)). lia.
  - simpl. destruct (used m next) eqn:Hu.
    + apply used_dom in Hu; [|done].
      assert (next ≤ Z.of_nat (size (dom m))) as Hle.
      { apply initial_segment_size; [lia|]. intros k Hk.
        destruct (decide (k = next)) as [->|]; [done|]. apply Hseg. lia. }
      rewrite wrap_fits by (unfold minInt, maxInt in *; lia).
      destruct (IH (next + 1)) as (n & Hn & Hleast & Hge); [lia| |lia|].
      { intros k Hk. destruct (decide (k = next)) as [->|]; [done|].
        apply Hseg. lia. }
      exists n. split_and!; [done..|lia].
    + exists next. split_and!; [done| |lia].
      split_and!; [lia| |].
      * intros Hin. apply used_dom in Hin; [|done]. congruence.
      * intros k Hk. apply Hseg. lia.
Qed.

Lemma unnumbered_cons (h : Host) (hosts : list Host) :
  unnumbered (h :: hosts)
  = ((if (MenuNumber h =? 0)%Z then 1 else 0) + unnumbered hosts)%nat.
Proof. unfold unnumbered. simpl. by destruct (MenuNumber h =? 0). Qed.

(** The second loop follows pass 2 of the specification. *)
Lemma assign_numbered (bound : Z) (fuel : nat) (hosts : list Host) :
  ∀ (m : gmap Z bool) (next : Z),
  allTrue m →
  Z.of_nat (size (dom m)) + Z.of_nat (unnumbered hosts) ≤ bound →
  bound < maxInt → bound + 1 ≤ Z.of_nat fuel →
  1 ≤ next → (∀ k, 1 ≤ k < next → k ∈ dom m) →
  ∃ out, assign fuel hosts m next = Some out ∧ numbered (dom m) hosts out.
Proof.
  induction hosts as [|h hosts IH]; intros m next Hm Hsize Hb Hfuel Hnext Hseg.
  - exists []. split; [done|constructor].
  - rewrite unnumbered_cons in Hsize. simpl.
    destruct (Z.eqb_spec (MenuNumber h) 0) as [Hz|Hz].
    + destruct (nextFree_least bound m fuel next) as (n & -> & Hleast & Hge);
        [done|lia|done..|lia|].
      destruct Hleast as (Hpos & Hfree & Hbelow).
      destruct (IH (<[n := true]> m) n) as (out & -> & Hout).
      * by apply allTrue_insert.
      * rewrite dom_insert_L, size_union by set_solver.
        rewrite size_singleton. lia.
      * done.
      * done.
      * lia.
      * intros k Hk. rewrite dom_insert_L. apply elem_of_union_r, Hbelow. lia.
      * eexists. split; [done|].
        apply numbered_free; [done|done|].
        rewrite dom_insert_L in Hout.
        by replace (dom m ∪ {[n]}) with ({[n]} ∪ dom m) by set_solver.
    + destruct (IH m next) as (out & -> & Hout); [done|lia|done..|].
      eexists. split; [done|]. by constructor.
Qed.

Lemma explicitNumbers_cons (h : Host) (hosts : list Host) :
  explicitNumbers (h :: hosts)
  = if MenuNumber h =? 0 then explicitNumbers hosts
    else MenuNumber h :: explicitNumbers hosts.
Proof. unfold explicitNumbers. simpl. by destruct (MenuNumber h =? 0). Qed.

(** Without a repeated explicit number the first loop runs to its end
    and the map holds the explicit numbers. *)
Lemma validate_collects (hosts : list Host) :
  ∀ m : gmap Z bool,
  allTrue m → NoDup (explicitNumbers hosts) →
  (∀ n, n ∈ explicitNumbers hosts → n ∉ dom m) →
  ∃ m', validate hosts m = Done m' ∧ allTrue m'
        ∧ dom m' = dom m ∪ list_to_set (explicitNumbers hosts).
Proof.
  induction hosts as [|h hosts IH]; intros m Hm Hnd Hfresh.
  - exists m. split_and!; [done..|]. set_solver.
  - rewrite explicitNumbers_cons in Hnd, Hfresh. simpl.
    rewrite explicitNumbers_cons.
    destruct (Z.eqb_spec (MenuNumber h) 0) as [Hz|Hz]; [by apply IH|].
    apply NoDup_cons in Hnd as [Hh Hnd].
    destruct (used m (MenuNumber h)) eqn:Hu.
    { apply used_dom in Hu; [|done]. exfalso.
      by apply (Hfresh (MenuNumber h)); [left|]. }
    destruct (IH (<[MenuNumber h := true]> m)) as (m' & -> & Hm' & Hdom).
    + by apply allTrue_insert.
    + done.
    + intros n Hn. rewrite dom_insert_L.
      assert (n ≠ MenuNumber h) by (intros ->; done).
      assert (n ∉ dom m) by (apply Hfresh; by right). set_solver.
    + exists m'. split_and!; [done..|]. rewrite Hdom, dom_insert_L. set_solver.
Qed.

Lemma explicit_unnumbered_length (hosts : list Host) :
  (length (explicitNumbers hosts) + unnumbered hosts = length hosts)%nat.
Proof.
  induction hosts as [|h hosts IH]; [done|].
  rewrite explicitNumbers_cons, unnumbered_cons. simpl.
  destruct (MenuNumber h =? 0); simpl; lia.
Qed.

(** The numbers pass 2 hands out are new, so that no number occurs twice
    in its result. *)
Lemma numbered_distinct (U : gset Z) (hosts out : list Host) :
  numbered U hosts out →
  NoDup (explicitNumbers hosts) →
  (∀ n, n ∈ explicitNumbers hosts → n ∈ U) →
  NoDup (map MenuNumber out)
  ∧ ∀ n, n ∈ map MenuNumber out → n ∈ explicitNumbers hosts ∨ n ∉ U.
Proof.
  induction 1 as [U|U h hosts out Hnz Hnum IH|U h hosts out n Hz Hleast Hnum IH];
    intros Hnd Hsub.
  - split; [constructor|]. intros n Hn. by apply elem_of_nil in Hn.
  - rewrite explicitNumbers_cons in Hnd, Hsub |- *.
    destruct (Z.eqb_spec (MenuNumber h) 0) as [?|_]; [done|].
    apply NoDup_cons in Hnd as [Hh Hnd].
    destruct IH as [IHnd IHin]; [done|by intros; apply Hsub; right|].
    simpl. split.
    + apply NoDup_cons. split; [|done]. intros Hin.
      destruct (IHin _ Hin) as [?|Hout]; [done|].
      apply Hout, Hsub. by left.
    + intros k [->|Hk]%elem_of_cons; [left; by left|].
      destruct (IHin _ Hk) as [?|?]; [left; by right|by right].
  - rewrite explicitNumbers_cons in Hnd, Hsub |- *.
    destruct (Z.eqb_spec (MenuNumber h) 0) as [_|?]; [|done].
    destruct Hleast as (Hpos & Hfree & Hbelow).
    destruct IH as [IHnd IHin]; [done|by intros; apply elem_of_union_l, Hsub|].
    simpl. split.
    + apply NoDup_cons. split; [|done]. intros Hin.
      destruct (IHin _ Hin) as [Hex|Hout]; [by apply Hfree, Hsub|].
      apply Hout. set_solver.
    + intros k [->|Hk]%elem_of_cons; [by right|].
      destruct (IHin _ Hk) as [?|Hout]; [by left|right]. set_solver.
Qed.

(** With no explicit number at all, pass 2 counts upwards. *)
Lemma numbered_counts (hosts : list Host) :
  ∀ (U : gset Z) (c : Z) (out : list Host),
  Forall (λ h, MenuNumber h = 0) hosts →
  0 ≤ c → (∀ k, k ∈ U ↔ 1 ≤ k ≤ c) →
  numbered U hosts out → out = numberFrom (c + 1) hosts.
Proof.
  induction hosts as [|h hosts IH]; intros U c out Hall Hc HU Hnum.
  - by inversion Hnum.
  - apply Forall_cons in Hall as [Hh Hall].
    inversion Hnum as [|? ? ? ? Hnz|? ? ? out' n Hz Hleast Hnum']; subst; [done|].
    assert (n = c + 1) as ->.
    { destruct Hleast as (Hpos & Hfree & Hbelow).
      destruct (Z.lt_total n (c + 1)) as [?|[?|?]]; [|done|].
      - exfalso. apply Hfree, HU. lia.
      - exfalso. assert (c + 1 ∈ U) as Hin by (apply Hbelow; lia).
        apply HU in Hin. lia. }
    simpl. f_equal. apply (IH (U ∪ {[c + 1]})); [done|lia| |done].
    intros k. rewrite elem_of_union, elem_of_singleton, HU. lia.
Qed.

Lemma numberFrom_numbers (hosts : list Host) (n : Z) :
  Forall (λ h, n ≤ MenuNumber h) (numberFrom n hosts)
  ∧ ascending (numberFrom n hosts).
Proof.
  revert n. induction hosts as [|h hosts IH]; intros n; simpl.
  - split; constructor.
  - destruct (IH (n + 1)) as [Hge Hasc]. split.
    + constructor; [simpl; lia|].
      eapply Forall_impl; [exact Hge|]. simpl. intros; lia.
    + constructor; [done|].
      eapply Forall_impl; [exact Hge|]. simpl. intros; lia.
Qed.

#[local] Instance notAfter_lessMenu_total : Total (notAfter lessMenu).
Proof. intros a b. unfold notAfter, lessMenu. rewrite !Z.ltb_ge. lia. Qed.

#[local] Instance notAfter_lessMenu_trans : Transitive (notAfter lessMenu).
Proof. intros a b c. unfold notAfter, lessMenu. rewrite !Z.ltb_ge. lia. Qed.

Lemma distinct_numbers_inj (l : list Host) (x y : Host) :
  NoDup (map MenuNumber l) → x ∈ l → y ∈ l →
  MenuNumber x = MenuNumber y → x = y.
Proof.
  induction l as [|h l IH]; simpl; intros Hnd Hx Hy Heq.
  - by apply elem_of_nil in Hx.
  - apply NoDup_cons in Hnd as [Hh Hnd].
    apply elem_of_cons in Hx as [->|Hx], Hy as [->|Hy]; [done| | |by apply IH].
    + exfalso. apply Hh. rewrite Heq. by apply list_elem_of_In, in_map, list_elem_of_In.
    + exfalso. apply Hh. rewrite <- Heq. by apply list_elem_of_In, in_map, list_elem_of_In.
Qed.

(** Sorted hosts with distinct numbers are strictly ascending. *)
Lemma sorted_distinct_ascending (l : list Host) :
  StronglySorted (notAfter lessMenu) l → NoDup (map MenuNumber l) →
  ascending l.
Proof.
  induction 1 as [|x l Hl IH Hx]; simpl; intros Hnd; [constructor|].
  apply NoDup_cons in Hnd as [Hxl Hnd].
  constructor; [by apply IH|].
  rewrite Forall_forall in Hx |- *. intros y Hy.
  specialize (Hx y Hy). unfold notAfter, lessMenu in Hx. apply Z.ltb_ge in Hx.
  assert (MenuNumber x ≠ MenuNumber y); [|lia].
  intros Heq. apply Hxl. rewrite Heq. by apply list_elem_of_In, in_map, list_elem_of_In.
Qed.

Lemma ascending_sorted (l : list Host) :
  ascending l → StronglySorted (notAfter lessMenu) l.
Proof.
  induction 1 as [|x l Hl IH Hx]; constructor; [done|].
  eapply Forall_impl; [exact Hx|]. simpl. intros y Hy.
  unfold notAfter, lessMenu. apply Z.ltb_ge. lia.
Qed.

(** Whatever [sort.Slice] does with hosts of distinct numbers, the result
    is the same. *)
Lemma sortSlice_distinct (l out out' : list Host) :
  NoDup (map MenuNumber l) →
  sortSlice_spec lessMenu l out → sortSlice_spec lessMenu l out' →
  out' = out.
Proof.
  intros Hnd [Hp Hs] [Hp' Hs'].
  apply (StronglySorted_unique_strong (notAfter lessMenu)); [|done..|by rewrite Hp, Hp'].
  intros x y Hx Hy Hxy Hyx. unfold notAfter, lessMenu in *.
  apply Z.ltb_ge in Hxy, Hyx.
  apply (distinct_numbers_inj l); [done|by rewrite <- Hp'|by rewrite <- Hp|lia].
Qed.

Lemma sortSlice_meets_spec (l : list Host) :
  sortSlice_spec lessMenu l (sortSlice lessMenu l).
Proof.
  split; [apply merge_sort_Permutation|].
  apply StronglySorted_merge_sort; apply _.
Qed.

(** When the first loop runs to its end no explicit number was repeated. *)
Lemma validate_done (hosts : list Host) :
  ∀ m m' : gmap Z bool,
  allTrue m → validate hosts m = Done m' →
  NoDup (explicitNumbers hosts) ∧ allTrue m'
  ∧ (∀ n, n ∈ explicitNumbers hosts → n ∉ dom m)
  ∧ dom m' = dom m ∪ list_to_set (explicitNumbers hosts).
Proof.
  induction hosts as [|h hosts IH]; intros m m' Hm; simpl.
  - intros [= <-]. split_and!; [constructor|done| |set_solver].
    intros n Hn. by apply elem_of_nil in Hn.
  - rewrite explicitNumbers_cons.
    destruct (Z.eqb_spec (MenuNumber h) 0) as [Hz|Hz]; [by apply IH|].
    destruct (used m (MenuNumber h)) eqn:Hu; [done|].
    assert (MenuNumber h ∉ dom m) as Hfresh.
    { intros Hin. apply used_dom in Hin; [|done]. congruence. }
    intros Hv. apply IH in Hv as (Hnd & Hm' & Hnew & Hdom);
      [|by apply allTrue_insert].
    rewrite dom_insert_L in Hnew, Hdom.
    split_and!; [|done| |rewrite Hdom; set_solver].
    + apply NoDup_cons. split; [|done]. intros Hin.
      apply (Hnew _ Hin). set_solver.
    + intros n [->|Hn]%elem_of_cons; [done|].
      specialize (Hnew n Hn). set_solver.
Qed.

(** What the second loop returns has pairwise distinct numbers, whatever
    the fuel. *)
Lemma assign_distinct (fuel : nat) (hosts : list Host) :
  ∀ (m : gmap Z bool) (next : Z) (out : list Host),
  allTrue m → assign fuel hosts m next = Some out →
  NoDup (explicitNumbers hosts) →
  (∀ n, n ∈ explicitNumbers hosts → n ∈ dom m) →
  NoDup (map MenuNumber out)
  ∧ ∀ n, n ∈ map MenuNumber out → n ∈ explicitNumbers hosts ∨ n ∉ dom m.
Proof.
  induction hosts as [|h hosts IH]; intros m next out Hm; simpl.
  - intros [= <-] _ _. split; [constructor|].
    intros n Hn. by apply elem_of_nil in Hn.
  - rewrite explicitNumbers_cons.
    destruct (Z.eqb_spec (MenuNumber h) 0) as [Hz|Hz].
    + destruct (nextFree fuel m next) as [n|] eqn:Hn; [|done].
      destruct (assign fuel hosts _ n) as [out'|] eqn:Ha; [|done].
      intros [= <-] Hnd Hsub.
      assert (n ∉ dom m) as Hfresh.
      { clear -Hn Hm. revert next Hn.
        induction fuel as [|fuel IHf]; intros next; simpl; [done|].
        destruct (used m next) eqn:Hu; [apply IHf|].
        intros [= <-] Hin. apply used_dom in Hin; [|done]. congruence. }
      apply IH in Ha as [IHnd IHin]; [|by apply allTrue_insert|done|].
      2:{ intros k Hk. rewrite dom_insert_L. apply elem_of_union_r. by apply Hsub. }
      rewrite dom_insert_L in IHin. simpl. split.
      * apply NoDup_cons. split; [|done]. intros Hin.
        destruct (IHin _ Hin) as [Hex|Hout]; [by apply Hfresh, Hsub|].
        apply Hout. set_solver.
      * intros k [->|Hk]%elem_of_cons; [by right|].
        destruct (IHin _ Hk) as [?|Hout]; [by left|right]. set_solver.
    + destruct (assign fuel hosts m next) as [out'|] eqn:Ha; [|done].
      intros [= <-] Hnd Hsub.
      apply NoDup_cons in Hnd as [Hh Hnd].
      apply IH in Ha as [IHnd IHin]; [|done..|by intros; apply Hsub; right].
      simpl. split.
      * apply NoDup_cons. split; [|done]. intros Hin.
        destruct (IHin _ Hin) as [?|Hout]; [done|].
        apply Hout, Hsub. by left.
      * intros k [->|Hk]%elem_of_cons; [left; by left|].
        destruct (IHin _ Hk) as [?|?]; [left; by right|by right].
Qed.

(** The menu numbers [AssignMenuNumbers] returns are pairwise distinct. *)
Lemma assigned_numbers_distinct (fuel : nat) (hosts out : list Host) :
  AssignMenuNumbers fuel hosts = Some (Done out) →
  NoDup (map MenuNumber out).
Proof.
  unfold AssignMenuNumbers.
  destruct (validate hosts ∅) as [m|] eqn:Hv; [|done].
  destruct (assign fuel hosts m 1) as [out0|] eqn:Ha; [|done].
  intros [= <-].
  apply validate_done in Hv as (Hnd & Hm & _ & Hdom); [|apply map_Forall_empty].
  apply assign_distinct in Ha as [Hout _]; [|done..|].
  2:{ intros n Hn. rewrite Hdom. set_solver. }
  assert (map MenuNumber (sortSlice lessMenu out0) ≡ₚ map MenuNumber out0)
    as -> by apply Permutation_map, merge_sort_Permutation.
  done.
Qed.

(** C4.  For a list without a repeated explicit number (and of a length an
    [int] can hold, with fuel beyond that length), [AssignMenuNumbers]
    returns the hosts numbered as pass 2 of the specification says, each
    entry at 0 getting in list order the smallest positive integer not yet
    used, and sorted by menu number: the numbers of the result ascend
    strictly, and no other sort of the numbered hosts exists.  When no
    entry has an explicit number the result is the list itself with the
    numbers 1, 2, ..., N. *)
Theorem numbers_assigned_smallest_first (fuel : nat) (hosts : list Host) :
  NoDup (explicitNumbers hosts) →
  len hosts < maxInt → (length hosts < fuel)%nat →
  ∃ numberedHosts out,
    AssignMenuNumbers fuel hosts = Some (Done out)
    ∧ numbered (list_to_set (explicitNumbers hosts)) hosts numberedHosts
    ∧ sortSlice_spec lessMenu numberedHosts out
    ∧ ascending out
    ∧ (∀ out', sortSlice_spec lessMenu numberedHosts out' → out' = out)
    ∧ (Forall (λ h, MenuNumber h = 0) hosts → out = numberFrom 1 hosts).
Proof.
  intros Hnd Hlen Hfuel. unfold len in Hlen.
  destruct (validate_collects hosts ∅) as (m & Hv & Hm & Hdom);
    [apply map_Forall_empty|done|set_solver|].
  rewrite dom_empty_L, (left_id_L ∅ (∪)) in Hdom.
  pose proof (explicit_unnumbered_length hosts) as Hcount.
  destruct (assign_numbered (Z.of_nat (length hosts)) fuel hosts m 1)
    as (out0 & Ha & Hnum); [done| |done|lia|lia|intros; lia|].
  { rewrite Hdom, size_list_to_set by done. lia. }
  rewrite Hdom in Hnum.
  destruct (numbered_distinct _ _ _ Hnum Hnd) as [Hdist _].
  { intros n. by rewrite elem_of_list_to_set. }
  pose proof (sortSlice_meets_spec out0) as Hspec.
  exists out0, (sortSlice lessMenu out0). split_and!.
  - unfold AssignMenuNumbers. by rewrite Hv, Ha.
  - done.
  - done.
  - destruct Hspec as [Hp Hs]. apply sorted_distinct_ascending; [done|].
    assert (map MenuNumber (sortSlice lessMenu out0) ≡ₚ map MenuNumber out0)
      as -> by by apply Permutation_map.
    done.
  - intros out' Hout'. by apply (sortSlice_distinct out0).
  - intros Hall.
    assert (explicitNumbers hosts = []) as Hex.
    { clear -Hall. induction Hall as [|h hosts Hh _ IH]; [done|].
      rewrite explicitNumbers_cons, Hh. done. }
    rewrite Hex in Hnum. simpl in Hnum.
    apply (numbered_counts hosts ∅ 0) in Hnum; [|done|lia|set_solver by lia].
    subst out0. symmetry. apply (sortSlice_distinct (numberFrom 1 hosts));
      [done|done|].
    split; [done|]. apply ascending_sorted, numberFrom_numbers.
Qed.

End Numbering.

Lemma numbers_assigned_smallest_first_witness :
  ∃ numberedHosts out,
    AssignMenuNumbers 4 threeHosts = Some (Done out)
    ∧ numbered (list_to_set (explicitNumbers threeHosts)) threeHosts
        numberedHosts
    ∧ sortSlice_spec lessMenu numberedHosts out
    ∧ ascending out
    ∧ (∀ out', sortSlice_spec lessMenu numberedHosts out' → out' = out)
    ∧ (Forall (λ h, MenuNumber h = 0) threeHosts
       → out = numberFrom 1 threeHosts).
Proof.
  apply (numbers_assigned_smallest_first 4 threeHosts).
  - vm_compute. repeat constructor. intros H. inversion H.
  - vm_compute. reflexivity.
  - vm_compute. lia.
Defined.

(** The example of the specification: [db] keeps its explicit 1, and
    [web1] and [lb] get 2 and 3 in file order. *)
Example sample_numbers :
  option_map (outcome_map (map (λ h, (ShortName h, MenuNumber h))))
    (AssignMenuNumbers 4 threeHosts)
  = Some (Done [("db", 1); ("web1", 2); ("lb", 3)]).
Proof. vm_compute. reflexivity. Qed.

(* ===================================================================== *)
(** ** The colour configuration *)
(* ===================================================================== *)

Section Colours.

Variable Getenv : string → string.

(** One colour slot of [ApplyColorConfig] with a configuration path:
    [default] is the built-in colour and [fromFile] what the comment of
    the file gives, empty without a comment.  The environment wins unless
    it is set to the built-in colour itself. *)
Lemma slot_priority (name default fromFile : string) :
  let slot := mergeColor (fromEnv Getenv name default) default fromFile in
  (Getenv name ≠ "" → Getenv name ≠ default → slot = Getenv name)
  ∧ (Getenv name = "" → fromFile ≠ "" → slot = fromFile)
  ∧ (Getenv name = "" → fromFile = "" → slot = default)
  ∧ (Getenv name = default → fromFile ≠ "" → slot = fromFile).
Proof.
  unfold mergeColor, fromEnv. split_and!.
  - intros Hset%nonempty_true Hne. rewrite Hset.
    by apply String.eqb_neq in Hne as ->.
  - intros -> Hf%nonempty_true. simpl. by rewrite String.eqb_refl, Hf.
  - intros -> ->. simpl. by rewrite String.eqb_refl.
  - intros -> Hf%nonempty_true. rewrite Hf, andb_true_r.
    destruct (nonempty default); by rewrite String.eqb_refl.
Qed.

Lemma ApplyColorConfig_slots (configPath : string) (content : result string) :
  nonempty configPath = true →
  let file := readColorsFromConfig content in
  let defaults := DefaultColors in
  ApplyColorConfig Getenv configPath content
  = mkColors
      (mergeColor (fromEnv Getenv EnvColorBackground (Background defaults))
         (Background defaults) (Background file))
      (mergeColor (fromEnv Getenv EnvColorForeground (Foreground defaults))
         (Foreground defaults) (Foreground file))
      (mergeColor (fromEnv Getenv EnvColorBorder (Border defaults))
         (Border defaults) (Border file))
      (mergeColor (fromEnv Getenv EnvColorSelected (Selected defaults))
         (Selected defaults) (Selected file))
      (mergeColor (fromEnv Getenv EnvColorAccent (Accent defaults))
         (Accent defaults) (Accent file))
      (mergeColor (fromEnv Getenv EnvColorDimmed (Dimmed defaults))
         (Dimmed defaults) (Dimmed file)).
Proof. intros Hp. unfold ApplyColorConfig. by rewrite Hp. Qed.

End Colours.

(** C6 fails on the code.  With [SSH_MENU_COLOR_BACKGROUND] set to
    [#1e1e2e] and the comment [# ColorBackground: #ff0000] in the file,
    [ApplyColorConfig] stores the colour of the file, not that of the
    environment: [mergeConfigColors] takes a slot that still holds the
    built-in colour for a slot the environment did not set.  The colour
    reader next to the host parser, [getColorSettings], asks the
    environment itself and keeps [#1e1e2e] on the same input. *)
Theorem environment_loses_to_file_at_default :
  backgroundEnv EnvColorBackground = "#1e1e2e"
  ∧ Background
      (ApplyColorConfig backgroundEnv "/home/user/.ssh/config"
         (Ok redBackground))
    = "#ff0000"
  ∧ Background (getColorSettings backgroundEnv (Ok [redBackground]))
    = "#1e1e2e".
Proof. vm_compute. done. Qed.

(* ===================================================================== *)
(** ** Direct selection behind the group filter *)
(* ===================================================================== *)

Section DirectSelection.

Lemma search_Some (test : Host → bool) (hosts : list Host) (h : Host) :
  search test hosts = Some h → h ∈ hosts ∧ test h = true.
Proof.
  induction hosts as [|h0 hosts IH]; simpl; [done|].
  destruct (test h0) eqn:Ht.
  - intros [= <-]. split; [left|done].
  - intros [Hin Hh]%IH. split; [by right|done].
Qed.

Lemma search_None (test : Host → bool) (hosts : list Host) :
  (∀ h, h ∈ hosts → test h = false) → search test hosts = None.
Proof.
  induction hosts as [|h0 hosts IH]; simpl; [done|]. intros Hall.
  rewrite (Hall h0) by left. apply IH. intros h Hh. apply Hall. by right.
Qed.

Lemma filterHostsByGroup_elem (hosts : list Host) (group : string) (h : Host) :
  h ∈ filterHostsByGroup hosts group ↔ h ∈ hosts ∧ inGroup group h = true.
Proof.
  induction hosts as [|h0 hosts IH]; simpl.
  - split; [by intros ?%elem_of_nil|by intros [?%elem_of_nil _]].
  - destruct (inGroup group h0) eqn:Hg.
    + rewrite !elem_of_cons, IH. split.
      * intros [->|[? ?]]; [by split; [left|]|by split; [right|]].
      * intros [[->|?] ?]; [by left|by right].
    + rewrite elem_of_cons, IH. split.
      * intros [? ?]. by split; [right|].
      * intros [[->|?] ?]; [congruence|done].
Qed.

(** What direct selection connects to is a host of the list it was given
    that meets the test of the argument. *)
Lemma direct_selection_result (input : string) (hosts : list Host) (h : Host) :
  handleDirectHostSelection input hosts = Done (Connect h) →
  h ∈ hosts
  ∧ match Atoi input with
    | Some num => MenuNumber h = num
    | None => byName input h = true
    end.
Proof.
  unfold handleDirectHostSelection. destruct (Atoi input) as [num|].
  - destruct (search (byNumber num) hosts) as [h'|] eqn:Hs; [|done].
    intros [= <-]. apply search_Some in Hs as [Hin Ht].
    split; [done|]. by apply Z.eqb_eq in Ht.
  - destruct (search (byName input) hosts) as [h'|] eqn:Hs; [|done].
    intros [= <-]. by apply search_Some in Hs.
Qed.

(** C7.  With a group filter and a positional argument, [main] filters
    the hosts by the group before it searches: the host it connects to,
    if any, is a host of the group, and the menu is never started.  So a
    host outside the group is never selected, whatever the argument.
    Its menu number makes the process end with status 1, and so does its
    short name, long name or IP unless a host inside the group answers to
    the same text. *)
Theorem group_filter_precedes_direct_selection (fuel : nat)
    (raw hosts : list Host) (group input : string) (args : list string) :
  AssignMenuNumbers fuel raw = Some (Done hosts) →
  nonempty group = true →
  (∀ h, selectFrom group (input :: args) hosts = Done (Connect h) →
        h ∈ hosts ∧ inGroup group h = true)
  ∧ (∀ hs, selectFrom group (input :: args) hosts ≠ Done (Menu hs))
  ∧ (∀ h, h ∈ hosts → inGroup group h = false →
        selectFrom group (input :: args) hosts ≠ Done (Connect h)
        ∧ (Atoi input = Some (MenuNumber h) →
           ∃ printed, selectFrom group (input :: args) hosts = Exit 1 printed)
        ∧ (Atoi input = None →
           input = ShortName h ∨ input = LongName h ∨ input = IP h →
           (∀ h', h' ∈ hosts → inGroup group h' = true →
                  byName input h' = false) →
           ∃ printed, selectFrom group (input :: args) hosts = Exit 1 printed)).
Proof.
  intros Hassign Hgroup.
  pose proof (assigned_numbers_distinct _ _ _ Hassign) as Hdist.
  assert (∀ h, selectFrom group (input :: args) hosts = Done (Connect h) →
               h ∈ hosts ∧ inGroup group h = true) as Hin.
  { intros h. unfold selectFrom. rewrite Hgroup.
    destruct (len (filterHostsByGroup hosts group) =? 0); [done|].
    intros [Hh _]%direct_selection_result.
    by apply filterHostsByGroup_elem in Hh. }
  split_and!.
  - exact Hin.
  - intros hs. unfold selectFrom. rewrite Hgroup.
    destruct (len (filterHostsByGroup hosts group) =? 0); [done|].
    unfold handleDirectHostSelection.
    destruct (Atoi input); by destruct (search _ _).
  - intros h Hh Hout. split_and!.
    + intros [_ Hg]%Hin. congruence.
    + intros Hnum. unfold selectFrom. rewrite Hgroup.
      destruct (len (filterHostsByGroup hosts group) =? 0); [by eexists|].
      unfold handleDirectHostSelection. rewrite Hnum.
      rewrite search_None; [by eexists|].
      intros h' [Hh' Hg']%filterHostsByGroup_elem.
      unfold byNumber. apply Z.eqb_neq. intros Heq.
      assert (h' = h) as -> by by apply (distinct_numbers_inj hosts).
      congruence.
    + intros Hname _ Hnone. unfold selectFrom. rewrite Hgroup.
      destruct (len (filterHostsByGroup hosts group) =? 0); [by eexists|].
      unfold handleDirectHostSelection. rewrite Hname.
      rewrite search_None; [by eexists|].
      intros h' [Hh' Hg']%filterHostsByGroup_elem. by apply Hnone.
Qed.

End DirectSelection.

Lemma group_filter_precedes_direct_selection_witness :
  ∃ printed, selectFrom "Prod" ["3"] groupedHosts = Exit 1 printed.
Proof.
  destruct (group_filter_precedes_direct_selection 4 groupedHosts groupedHosts
              "Prod" "3" [] eq_refl eq_refl) as (_ & _ & Hout).
  destruct (Hout (entry "dev" "Development" 3 ["Test"])) as (_ & Hnum & _).
  - do 2 right. left.
  - reflexivity.
  - apply Hnum. reflexivity.
Defined.

(** A host outside the group answers neither to its number nor to its
    name; without the group filter it is found. *)
Example outside_group_unselectable :
  selectFrom "Prod" ["3"] groupedHosts
  = Exit 1 ("Invalid selection." +:+ newline)
  ∧ selectFrom "Prod" ["dev"] groupedHosts
    = Exit 1 ("Host not found." +:+ newline)
  ∧ selectFrom "" ["dev"] groupedHosts
    = Done (Connect (entry "dev" "Development" 3 ["Test"])).
Proof. vm_compute. done. Qed.

(* ===================================================================== *)
(** ** The cursor of the selector *)
(* ===================================================================== *)

Section Cursor.
Import ui.

Variable unicodeLower : string → string.

Lemma len_nonneg {A : Type} (l : list A) : 0 ≤ len l.
Proof. unfold len. lia. Qed.

Lemma len_nil {A : Type} (l : list A) : len l = 0 ↔ l = [].
Proof.
  unfold len. destruct l as [|a l]; [done|].
  split; [|done]. intros H. exfalso.
  change (Z.of_nat (S (length l)) = 0) in H. lia.
Qed.

Lemma index_in_range {A : Type} (l : list A) (i : Z) :
  0 ≤ i < len l → is_Some (index l i).
Proof.
  intros Hi. unfold index.
  assert ((0 <=? i) && (i <? len l) = true) as ->.
  { apply andb_true_iff. split; [apply Z.leb_le|apply Z.ltb_lt]; lia. }
  apply lookup_lt_is_Some. unfold len in Hi. lia.
Qed.

Lemma len_sublist {A : Type} (l k : list A) : l `sublist_of` k → len l ≤ len k.
Proof. intros H%sublist_length. unfold len. lia. Qed.

Lemma getHostsForGroup_sublist (m : Model) (groupName : string) :
  getHostsForGroup m groupName `sublist_of` hosts m.
Proof.
  unfold getHostsForGroup. destruct (String.eqb _ _); apply filter_sublist.
Qed.

(** In a view that is in range the hosts of the view are read without a
    fault and are hosts of the model. *)
Lemma viewHosts_in_range (m : Model) :
  len (groups m) < maxInt → viewInRange m →
  ∃ vh, viewHosts m = Some vh ∧ vh `sublist_of` hosts m.
Proof.
  unfold viewInRange, viewHosts. intros Hg Hv.
  destruct (Z.eqb_spec (viewIndex m) 0) as [_|Hne]; [by eexists|].
  pose proof (len_nonneg (groups m)).
  rewrite wrap_fits by (unfold minInt, maxInt in *; lia).
  destruct (Z.ltb_spec (viewIndex m - 1) (len (groups m))) as [Hlt|Hge].
  - destruct (index_in_range (groups m) (viewIndex m - 1)) as [g ->]; [lia|].
    eexists. split; [done|]. apply getHostsForGroup_sublist.
  - eexists. split; [done|]. apply sublist_nil_l.
Qed.

Lemma applyFilter_sublist (text : string) (vh : list Host) :
  applyFilter unicodeLower text vh `sublist_of` vh.
Proof.
  rewrite applyFilter_filter. destruct (nonempty text); [apply filter_sublist|done].
Qed.

(** With the cursor at 0 a model is sound. *)
Lemma cursor_zero_sound (m : Model) :
  slicesFit m → viewInRange m → cursor m = 0 → sound m.
Proof.
  intros Hfit Hview Hc. split_and!; [done..|].
  unfold cursorInBounds, cursorAtRest. rewrite Hc.
  destruct (filteredHosts m) as [|h l] eqn:Hf; [right; auto|left].
  unfold len. cbn [length]. lia.
Qed.

(** The filtered hosts are recomputed without a fault. *)
Lemma update_total (m : Model) :
  slicesFit m → viewInRange m →
  ∃ m', updateFilteredHosts unicodeLower m = Some m'
        ∧ slicesFit m' ∧ viewInRange m' ∧ cursor m' = cursor m.
Proof.
  intros (Hh & Hg & Hf) Hview. unfold updateFilteredHosts.
  destruct (viewHosts_in_range m Hg Hview) as (vh & -> & Hsub).
  eexists. split; [done|]. split_and!; [|done..].
  split_and!; [done..|]. simpl.
  pose proof (len_sublist _ _ (applyFilter_sublist (filterText m) vh)).
  pose proof (len_sublist _ _ Hsub). lia.
Qed.

Lemma moveCursor_sound (delta : Z) (m : Model) :
  delta = 1 ∨ delta = -1 → sound m → sound (moveCursor delta m).
Proof.
  intros Hd (Hfit & Hview & Hc). pose proof Hfit as (Hh & Hg & Hf).
  pose proof (len_nonneg (filteredHosts m)) as Hlen.
  assert (-1 ≤ cursor m < len (filteredHosts m) ∨ (cursor m = 0 ∧ len (filteredHosts m) = 0))
    as Hrange.
  { destruct Hc as [?|[He [?|?]]]; unfold cursorInBounds in *;
      rewrite ?He in *; unfold len in *; simpl in *; lia. }
  unfold moveCursor. simpl.
  rewrite wrap_fits by (unfold minInt, maxInt in *; lia).
  destruct (Z.ltb_spec (cursor m + delta) 0) as [Hneg|Hnn].
  { by apply cursor_zero_sound. }
  destruct (Z.leb_spec (len (filteredHosts m)) (cursor m + delta)) as [Hbig|Hin].
  - rewrite wrap_fits by (unfold minInt, maxInt in *; lia).
    split_and!; [done..|]. unfold cursorInBounds, cursorAtRest. simpl.
    destruct (decide (len (filteredHosts m) = 0)) as [Hz|Hnz].
    + right. split; [by apply len_nil|]. lia.
    + left. lia.
  - split_and!; [done..|]. left. unfold cursorInBounds. simpl. lia.
Qed.

Lemma navigateView_sound (delta : Z) (m : Model) :
  delta = 1 ∨ delta = -1 → sound m →
  ∃ m', navigateView unicodeLower delta m = Some m' ∧ sound m'.
Proof.
  intros Hd (Hfit & Hview & Hc). pose proof Hfit as (Hh & Hg & Hf).
  pose proof (len_nonneg (groups m)) as Hlen. unfold viewInRange in Hview.
  unfold navigateView. simpl.
  rewrite !(wrap_fits (1 + _)) by (unfold minInt, maxInt in *; lia).
  rewrite !(wrap_fits (viewIndex m + delta)) by (unfold minInt, maxInt in *; lia).
  rewrite !(wrap_fits (1 + len (groups m) - 1)) by (unfold minInt, maxInt in *; lia).
  match goal with |- ∃ m', updateFilteredHosts _ ?m0 = _ ∧ _ =>
    destruct (update_total m0) as (m' & Hu & Hfit' & Hview' & Hc')
  end.
  - destruct (Z.ltb_spec (viewIndex m + delta) 0);
      [|destruct (Z.leb_spec (1 + len (groups m)) (viewIndex m + delta))];
      done.
  - unfold viewInRange.
    destruct (Z.ltb_spec (viewIndex m + delta) 0);
      [|destruct (Z.leb_spec (1 + len (groups m)) (viewIndex m + delta))];
      simpl; lia.
  - exists m'. split; [done|]. apply cursor_zero_sound; [done..|].
    rewrite Hc'. done.
Qed.

Lemma handleEnterKey_sound (m : Model) :
  sound m →
  ∃ m' quit, handleEnterKey m = Some (m', quit) ∧ sound m'
             ∧ (filteredHosts m = [] → m' = m ∧ quit = false).
Proof.
  intros (Hfit & Hview & Hc). unfold handleEnterKey.
  destruct (Z.eqb_spec (len (filteredHosts m)) 1) as [H1|H1].
  - destruct (index_in_range (filteredHosts m) 0) as [h ->]; [lia|].
    eexists _, _. split_and!; [done|done|].
    intros He. rewrite He in H1. done.
  - destruct (Z.ltb_spec 0 (len (filteredHosts m))) as [Hpos|Hzero]; simpl.
    + destruct (Z.ltb_spec (cursor m) (len (filteredHosts m))) as [Hlt|Hge].
      * destruct (index_in_range (filteredHosts m) (cursor m)) as [h ->].
        { destruct Hc as [?|[He _]]; [done|]. rewrite He in Hpos. done. }
        eexists _, _. split_and!; [done|done|].
        intros He. rewrite He in Hpos. done.
      * eexists _, _. split_and!; done.
    + eexists _, _. split_and!; done.
Qed.

Lemma Update_sound (msg : Msg) (m : Model) :
  sound m → ∃ m' quit, Update unicodeLower msg m = Some (m', quit) ∧ sound m'.
Proof.
  intros Hs. destruct msg as [w h|type text|]; simpl.
  - eexists _, _. split; [done|]. exact Hs.
  - destruct type; simpl.
    + eexists _, _. split; done.
    + destruct (handleEnterKey_sound m Hs) as (m' & q & -> & Hs' & _). eauto.
    + eexists _, _. split; [done|]. apply moveCursor_sound; auto.
    + eexists _, _. split; [done|]. apply moveCursor_sound; auto.
    + destruct (navigateView_sound (-1) m) as (m' & -> & Hs'); eauto.
    + destruct (navigateView_sound 1 m) as (m' & -> & Hs'); eauto.
    + unfold handleBackspace. destruct (nonempty (filterText m)); [|eauto].
      destruct Hs as (Hfit & Hview & Hc).
      destruct (update_total (set_filterText (dropLast (filterText m)) m))
        as (m' & -> & Hfit' & Hview' & Hc'); [done..|].
      eexists _, _. split; [done|]. by apply cursor_zero_sound.
    + unfold handleTypedCharacter. destruct Hs as (Hfit & Hview & Hc).
      destruct (update_total (set_filterText (filterText m +:+ text) m))
        as (m' & -> & Hfit' & Hview' & Hc'); [done..|].
      eexists _, _. split; [done|]. by apply cursor_zero_sound.
    + destruct (navigateView_sound 1 m) as (m' & -> & Hs'); eauto.
    + eauto.
  - eauto.
Qed.

Lemma events_sound (msgs : list Msg) :
  ∀ (m : Model) (quit : bool),
  sound m →
  ∃ m' quit', events unicodeLower msgs m quit = Some (m', quit') ∧ sound m'.
Proof.
  induction msgs as [|msg msgs IH]; intros m quit Hs; simpl; [eauto|].
  destruct (Update_sound msg m Hs) as (m' & q & -> & Hs'). by apply IH.
Qed.

(** The model [SetupUI] builds from a non-empty list of hosts is one the
    next theorem starts from. *)
Lemma SetupUI_start (hosts : list Host) (verbose detailed : bool)
    (sshOpts : string) :
  hosts ≠ [] → len hosts < maxInt → len (GetAllGroups hosts) < maxInt →
  ∃ m, SetupUI unicodeLower hosts verbose detailed sshOpts = Some m
       ∧ filteredHosts m = hosts ∧ cursor m = 0
       ∧ viewInRange m ∧ slicesFit m.
Proof.
  intros Hne Hlen Hg. eexists. split; [reflexivity|]. simpl.
  split_and!; [done..| |].
  - unfold viewInRange. simpl. pose proof (len_nonneg (GetAllGroups hosts)). lia.
  - unfold slicesFit. simpl. done.
Qed.

(** C10.  From a model with a non-empty filtered list and the cursor at
    0 (in a view that is in range, with slices an [int] can measure), no
    sequence of messages makes a handler read a slice out of range: the
    event loop runs through.  In the model it reaches, the cursor lies in
    [0, len(filteredHosts) - 1] when the filtered list is not empty; when
    it is empty the cursor is 0 or -1 and Enter changes nothing and does
    not quit; either way Enter reads [filteredHosts] in range.  A
    cursor-down on an empty list does leave the cursor at -1. *)
Theorem confirm_reads_in_range (m0 : Model) (msgs : list Msg) :
  filteredHosts m0 ≠ [] → cursor m0 = 0 →
  viewInRange m0 → slicesFit m0 →
  ∃ m quit,
    events unicodeLower msgs m0 false = Some (m, quit)
    ∧ (filteredHosts m ≠ [] → cursorInBounds m)
    ∧ (filteredHosts m = [] →
       (cursor m = 0 ∨ cursor m = -1) ∧ handleEnterKey m = Some (m, false))
    ∧ is_Some (handleEnterKey m)
    ∧ (filteredHosts m = [] → cursor m = 0 →
       cursor (moveCursor 1 m) = -1).
Proof.
  intros Hne Hc Hview Hfit.
  assert (sound m0) as Hs by by apply cursor_zero_sound.
  destruct (events_sound msgs m0 false Hs) as (m & quit & Hev & Hsm).
  exists m, quit. split; [done|].
  destruct (handleEnterKey_sound m Hsm) as (m' & q & He & _ & Hempty).
  split_and!.
  - intros Hn. destruct Hsm as (_ & _ & [?|[? _]]); done.
  - intros Hn. destruct (Hempty Hn) as [-> ->]. split; [|done].
    destruct Hsm as (_ & _ & [Hin|[_ ?]]); [|done].
    unfold cursorInBounds in Hin. rewrite Hn in Hin. unfold len in Hin.
    simpl in Hin. lia.
  - by rewrite He.
  - intros Hn Hz. unfold moveCursor. simpl. rewrite Hz, Hn. reflexivity.
Qed.

End Cursor.

Lemma confirm_reads_in_range_witness :
  ∃ m quit,
    ui.events noUnicode
      [ ui.KeyMsg ui.KeyRunes "x"; ui.KeyMsg ui.KeyDown "";
        ui.KeyMsg ui.KeyEnter "" ]
      (ui.mkModel fiveNumbers None false false "" 0 0 [] fiveNumbers "" 0 0)
      false
    = Some (m, quit)
    ∧ ui.filteredHosts m = [] ∧ ui.cursor m = -1 ∧ quit = false.
Proof.
  destruct (confirm_reads_in_range noUnicode
              (ui.mkModel fiveNumbers None false false "" 0 0 [] fiveNumbers
                 "" 0 0)
              [ ui.KeyMsg ui.KeyRunes "x"; ui.KeyMsg ui.KeyDown "";
                ui.KeyMsg ui.KeyEnter "" ])
    as (m & quit & Hev & _).
  - discriminate.
  - reflexivity.
  - unfold viewInRange. simpl. unfold len. simpl. lia.
  - unfold slicesFit, maxInt, len. simpl. lia.
  - exists m, quit. split; [exact Hev|].
    vm_compute in Hev. injection Hev as <- <-. repeat split.
Defined.

(* ===================================================================== *)
(** * Further properties of the code *)
(* ===================================================================== *)

(* ===================================================================== *)
(** ** The hosts the parser builds *)
(* ===================================================================== *)

Section ParsedHosts.

Lemma contains_elem (slice : list string) (s : string) :
  contains slice s = true ↔ s ∈ slice.
Proof.
  induction slice as [|item slice IH]; simpl.
  - split; [done|by intros ?%elem_of_nil].
  - destruct (String.eqb_spec item s) as [->|Hne].
    + split; [by left|done].
    + rewrite IH, elem_of_cons. naive_solver.
Qed.

Lemma Atoi_digits_range (d : string) (v : Z) :
  nonempty d = true → all isDigit d = true → Atoi d = Some v → inIntRange v.
Proof.
  intros Hne Hd. rewrite Atoi_digits by done.
  destruct (Z.leb_spec (decimal d) maxInt); [|done]. intros [= <-].
  split; [|done]. by apply decimal_from_nonneg.
Qed.

Lemma newHost_wellFormed (name : string) : wellFormed (newHost name).
Proof.
  unfold wellFormed, inIntRange, maxInt. simpl.
  split_and!; try done; try lia. constructor.
Qed.

(** A tuning line keeps a well-formed host well formed. *)
Lemma setIfInt_range (line kw : string) (m : list string) (cur : Host)
    (set : Z → Host → Host) :
  FindStringSubmatch
    (Bol >> Lit kw >> Plus Space >> Group 1 (Plus Digit) >> Eol)%re 1 line
  = Some m →
  (∀ v h, inIntRange v → wellFormed h → wellFormed (set v h)) →
  wellFormed cur → wellFormed (setIfInt set (sub m 1) cur).
Proof.
  intros (sp & v & _ & _ & _ & Hv & Hd & ->)%keyword_line Hset Hcur.
  unfold setIfInt, sub. simpl.
  destruct (Atoi v) as [z|] eqn:Hz; [|done].
  apply Hset; [|done]. by apply (Atoi_digits_range v).
Qed.

(** Every line keeps the host under construction and the hosts found so
    far well formed. *)
Lemma parseLine_wellFormed (line : string) (cur cur' : Host)
    (hs hs' : list Host) :
  wellFormed cur → Forall wellFormed hs →
  parseLine line cur hs = Ok (cur', hs') →
  wellFormed cur' ∧ Forall wellFormed hs'.
Proof.
  intros Hcur Hhs. unfold parseLine.
  destruct (FindStringSubmatch reHost 1 line) as [m|] eqn:H1.
  { unfold handleHostLine. intros [= <- <-]. split; [apply newHost_wellFormed|].
    destruct (retained cur); [|done]. apply Forall_app. split; [done|].
    by constructor. }
  destruct (FindStringSubmatch reHostname 1 line) as [m|] eqn:H2.
  { by intros [= <- <-]. }
  destruct (FindStringSubmatch reUser 1 line) as [m|] eqn:H3.
  { by intros [= <- <-]. }
  destruct (FindStringSubmatch rePort 1 line) as [m|] eqn:H4.
  { intros [= <- <-]. split; [|done].
    apply keyword_line in H4 as (sp & v & _ & _ & _ & Hv & Hd & ->).
    destruct Hcur as (? & _ & _ & ? & ? & ? & ?). split_and!; done. }
  destruct (FindStringSubmatch reIdentity 1 line) as [m|] eqn:H5.
  { by intros [= <- <-]. }
  destruct (FindStringSubmatch reMenu 2 line) as [m|] eqn:H6.
  { pose proof (menu_number_digits _ _ H6) as Hd. unfold handleMenuLine.
    destruct Hcur as (? & ? & ? & _ & ? & ? & ?).
    destruct (nonempty (sub m 1)) eqn:Hne.
    - destruct (Atoi (sub m 1)) as [num|] eqn:Hnum; [|done].
      intros [= <- <-]. split; [|done].
      apply Atoi_digits_range in Hnum; [|done..].
      split_and!; done.
    - intros [= <- <-]. split; [|done].
      split_and!; done. }
  destruct (FindStringSubmatch reIP 1 line) as [m|] eqn:H7.
  { by intros [= <- <-]. }
  destruct (FindStringSubmatch reGroup 1 line) as [m|] eqn:H8.
  { intros [= <- <-]. split; [|done]. unfold handleGroupLine.
    destruct (contains _ _) eqn:Hc; [done|].
    destruct Hcur as (Hnd & ? & ? & ? & ? & ? & ?). split_and!; try done.
    simpl.
    apply NoDup_app. split_and!; [done| |apply NoDup_singleton].
    intros g Hg ->%list_elem_of_singleton.
    apply contains_elem in Hg. congruence. }
  destruct (FindStringSubmatch reConnTimeout 1 line) as [m|] eqn:H9.
  { intros [= <- <-]. split; [|done].
    apply (setIfInt_range line "ConnectTimeout"); [done| |done].
    intros v h Hv (? & ? & ? & ? & _ & ? & ?). split_and!; done. }
  destruct (FindStringSubmatch reServerAliveInterval 1 line) as [m|] eqn:H10.
  { intros [= <- <-]. split; [|done].
    apply (setIfInt_range line "ServerAliveInterval"); [done| |done].
    intros v h Hv (? & ? & ? & ? & ? & _ & ?). split_and!; done. }
  destruct (FindStringSubmatch reServerAliveCountMax 1 line) as [m|] eqn:H11.
  { intros [= <- <-]. split; [|done].
    apply (setIfInt_range line "ServerAliveCountMax"); [done| |done].
    intros v h Hv (? & ? & ? & ? & ? & ? & _). split_and!; done. }
  by intros [= <- <-].
Qed.

Lemma parseLine_retained (line : string) (cur cur' : Host)
    (hs hs' : list Host) :
  Forall (λ h, retained h = true) hs →
  parseLine line cur hs = Ok (cur', hs') →
  Forall (λ h, retained h = true) hs'.
Proof.
  intros Hhs.
  destruct (hostLine line) as [name|] eqn:Hh.
  - rewrite (parseLine_host _ _ _ _ Hh). intros [= <- <-].
    destruct (retained cur) eqn:Hr; [|done].
    apply Forall_app. split; [done|]. by constructor.
  - destruct (menuLine line) eqn:Hml.
    + unfold menuLine in Hml.
      destruct (FindStringSubmatch reMenu 2 line) as [m|] eqn:Hm; [|done].
      rewrite (parseLine_menu _ _ _ _ Hm).
      destruct (handleMenuLine m cur); [|done]. by intros [= <- <-].
    + destruct (parseLine_plain line cur Hh Hml) as (c1 & -> & _).
      by intros [= <- <-].
Qed.

Lemma scanLines_wellFormed (lines : list string) :
  ∀ (cur cur' : Host) (hs hs' : list Host),
  wellFormed cur → Forall wellFormed hs →
  Forall (λ h, retained h = true) hs →
  scanLines lines cur hs = Ok (cur', hs') →
  wellFormed cur' ∧ Forall wellFormed hs'
  ∧ Forall (λ h, retained h = true) hs'.
Proof.
  induction lines as [|text lines IH]; intros cur cur' hs hs' Hc Hw Hr; simpl.
  - by intros [= <- <-].
  - destruct (nonempty (TrimSpace text)); [|by apply IH].
    destruct (parseLine (TrimSpace text) cur hs) as [[c1 h1]|e] eqn:Hp; [|done].
    destruct (parseLine_wellFormed _ _ _ _ _ Hc Hw Hp) as [Hc1 Hw1].
    pose proof (parseLine_retained _ _ _ _ _ Hr Hp) as Hr1.
    by apply IH.
Qed.

(** X1.  Every host [readConfigFile] returns has a non-empty short name
    and a non-empty description, a port that is a non-empty run of
    digits, groups without repetition, and a menu number and three tuning
    values between 0 and the largest [int]. *)
Theorem parsed_hosts_well_formed (opened : result (list string))
    (hosts : list Host) :
  readConfigFile opened = Ok hosts →
  Forall (λ h, nonempty (ShortName h) = true ∧ nonempty (DescText h) = true
               ∧ wellFormed h) hosts.
Proof.
  unfold readConfigFile. destruct opened as [lines|e]; [|done].
  destruct (scanLines lines noHost []) as [[cur hs]|e] eqn:Hs; [|done].
  intros [= <-].
  apply scanLines_wellFormed in Hs as (Hc & Hw & Hr); [|by apply (newHost_wellFormed "")|done..].
  assert (Forall (λ h, retained h = true ∧ wellFormed h) hs) as Hall.
  { apply Forall_and. by split. }
  assert (∀ l, Forall (λ h, retained h = true ∧ wellFormed h) l →
               Forall (λ h, nonempty (ShortName h) = true
                            ∧ nonempty (DescText h) = true ∧ wellFormed h) l)
    as Hconv.
  { intros l Hl. eapply Forall_impl; [exact Hl|]. simpl.
    intros h [[? ?]%andb_true_iff ?]. done. }
  apply Hconv. destruct (retained cur) eqn:Hrc; [|done].
  apply Forall_app. split; [done|]. by constructor.
Qed.

End ParsedHosts.

Lemma parsed_hosts_well_formed_witness :
  Forall (λ h, nonempty (ShortName h) = true ∧ nonempty (DescText h) = true
               ∧ wellFormed h)
    [web1].
Proof.
  apply (parsed_hosts_well_formed (Ok wordNumberConfig)).
  vm_compute. reflexivity.
Defined.

(* ===================================================================== *)
(** ** Keywords, the lines before the first block, and [config.d] *)
(* ===================================================================== *)

Section Files.

(** X2.  The keywords are matched with their case: a line that starts
    with [HostName], the spelling of ssh_config, is matched by no pattern
    of the parser (the pattern reads [Hostname]) and changes neither the
    host under construction, whose long name stays what it was, nor the
    hosts found so far. *)
Theorem HostName_spelling_is_ignored (value : string) (cur : Host)
    (hs : list Host) :
  parseLine ("HostName" +:+ value) cur hs = Ok (cur, hs).
Proof. reflexivity. Qed.

(** The README's own block: the long name is not taken from the
    [HostName] line. *)
Example readme_block_long_name :
  readConfigFile
    (Ok (Scan (joinLines ["Host myserver"; "    HostName server.example.com";
                          "    # Menu: Production web server"])))
  = Ok [mkHost "myserver" "myserver" "root" "22" "" ""
          "Production web server" 0 [] 0 0 0].
Proof. vm_compute. reflexivity. Qed.

(** The message of a failing line does not depend on the state. *)
Lemma parseLine_error_same (line e : string) (c1 c2 : Host)
    (h1 h2 : list Host) :
  parseLine line c1 h1 = Err e → parseLine line c2 h2 = Err e.
Proof.
  destruct (hostLine line) as [name|] eqn:Hh.
  { by rewrite !(parseLine_host _ _ _ _ Hh). }
  destruct (menuLine line) eqn:Hml.
  - unfold menuLine in Hml.
    destruct (FindStringSubmatch reMenu 2 line) as [m|] eqn:Hm; [|done].
    rewrite !(parseLine_menu _ _ _ _ Hm). unfold handleMenuLine.
    destruct (nonempty (sub m 1)); [|done]. by destruct (Atoi (sub m 1)).
  - destruct (parseLine_plain line c1 Hh Hml) as (c & -> & _). done.
Qed.

(** As long as no [Host] line was read, the host under construction does
    not show in the result. *)
Lemma scanLines_unnamed (lines : list string) :
  ∀ (c1 c2 : Host) (hs : list Host),
  ShortName c1 = "" → ShortName c2 = "" →
  finished (scanLines lines c1 hs) = finished (scanLines lines c2 hs).
Proof.
  induction lines as [|text lines IH]; intros c1 c2 hs H1 H2; simpl.
  - unfold retained. by rewrite H1, H2.
  - destruct (nonempty (TrimSpace text)); [|by apply IH].
    destruct (hostLine (TrimSpace text)) as [name|] eqn:Hh.
    + rewrite !(parseLine_host _ _ _ _ Hh). unfold retained.
      by rewrite H1, H2.
    + destruct (aborts (TrimSpace text)) eqn:Hab.
      * apply (parseLine_aborts _ c1 hs) in Hab as [e He].
        rewrite He, (parseLine_error_same _ _ _ c2 _ hs He). done.
      * rewrite !(parseLine_effect _ _ _ Hh Hab).
        apply IH; by rewrite effect_ShortName.
Qed.

Lemma scanLines_preamble (pre lines : list string) :
  ∀ cur : Host,
  ShortName cur = "" → Forall preambleLine pre →
  ∃ cur', ShortName cur' = ""
          ∧ scanLines (pre ++ lines) cur [] = scanLines lines cur' [].
Proof.
  induction pre as [|text pre IH]; intros cur Hc Hpre; simpl; [eauto|].
  apply Forall_cons in Hpre as [[Hh Hab] Hpre].
  destruct (nonempty (TrimSpace text)); [|by apply IH].
  rewrite (parseLine_effect _ _ _ Hh Hab).
  apply IH; [|done]. by rewrite effect_ShortName.
Qed.

(** X3.  Lines before the first [Host] line belong to no host: when
    they are shorter than [bufio.MaxScanTokenSize] and none of them is a
    [Host] line or makes the parser fail, the file gives what it gives
    without them. *)
Theorem lines_before_first_host_are_ignored (pre : list string)
    (content : string) :
  Forall scannable pre → Forall preambleLine (map dropCR pre) →
  readConfigFile (Ok (Scan (joinLines pre +:+ content)))
  = readConfigFile (Ok (Scan content)).
Proof.
  intros Hshort Hpre. rewrite Scan_joinLines by done.
  destruct (scanLines_preamble (map dropCR pre) (Scan content) noHost eq_refl
              Hpre) as (cur & Hc & Heq).
  change (finished (scanLines (map dropCR pre ++ Scan content) noHost [])
          = finished (scanLines (Scan content) noHost [])).
  rewrite Heq. by apply scanLines_unnamed.
Qed.

Lemma readDirEntries_flat (files : list DirEntry) :
  ∀ (allHosts : list Host) (warnings : list (string * string)),
  readDirEntries files allHosts warnings
  = (allHosts ++ flat_map entryHosts files,
     warnings ++ flat_map entryWarnings files).
Proof.
  induction files as [|file files IH]; intros allHosts warnings;
    cbn [readDirEntries flat_map].
  - by rewrite !List.app_nil_r.
  - unfold entryHosts at 1, entryWarnings at 1, skipped.
    destruct (entryIsDir file || HasPrefix (entryName file) "."); [apply IH|].
    destruct (readConfigFile (entryOpened file)) as [hosts|err]; rewrite IH.
    + by rewrite <- List.app_assoc.
    + by rewrite <- List.app_assoc.
Qed.

(** X4.  [ReadConfigFiles] fails exactly when the main file cannot be
    read or parsed, when [config.d] cannot be examined, or when it is a
    directory that cannot be listed: no file inside [config.d] makes it
    fail, and it prints no warning when it fails. *)
Theorem ReadConfigFiles_failures (mainOpened : result (list string))
    (stat : statResult) (dir : result (list DirEntry)) :
  ((∃ e, fst (ReadConfigFiles mainOpened stat dir) = Err e)
   ↔ (∃ e, readConfigFile mainOpened = Err e)
     ∨ (∃ e, stat = StatFailed e)
     ∨ (stat = StatFound true ∧ ∃ e, dir = Err e))
  ∧ (∀ e, fst (ReadConfigFiles mainOpened stat dir) = Err e →
          snd (ReadConfigFiles mainOpened stat dir) = []).
Proof.
  unfold ReadConfigFiles.
  destruct (readConfigFile mainOpened) as [mainHosts|e0]; simpl.
  2:{ split; [|done]. split; eauto. }
  destruct stat as [|[|]|e1]; simpl.
  - split; [|done]. split; [by intros [? ?]|].
    intros [[? ?]|[[? ?]|[? _]]]; done.
  - destruct dir as [files|e2]; simpl.
    + rewrite readDirEntries_flat. simpl. split; [|done].
      split; [by intros [? ?]|].
      intros [[? ?]|[[? ?]|[_ [? ?]]]]; done.
    + split; [|done]. split; [|eauto]. intros _. right. right. eauto.
  - split; [|done]. split; [by intros [? ?]|].
    intros [[? ?]|[[? ?]|[? _]]]; done.
  - split; [|done]. split; [|eauto]. intros _. right. left. eauto.
Qed.

(** X5.  When the main file is read and [config.d] is a directory that
    can be listed, [ReadConfigFiles] returns the hosts of the main file
    followed by the hosts of the entries in the order of the listing,
    where a directory, a hidden file and a file that fails give no host;
    it prints one warning for each file that fails, and the failure of
    one file takes nothing from the others. *)
Theorem ReadConfigFiles_collects (mainOpened : result (list string))
    (files : list DirEntry) (mainHosts : list Host) :
  readConfigFile mainOpened = Ok mainHosts →
  ReadConfigFiles mainOpened (StatFound true) (Ok files)
  = (Ok (mainHosts ++ flat_map entryHosts files),
     flat_map entryWarnings files).
Proof.
  intros Hmain. unfold ReadConfigFiles. rewrite Hmain.
  by rewrite readDirEntries_flat.
Qed.

End Files.

Lemma lines_before_first_host_are_ignored_witness :
  readConfigFile
    (Ok (Scan (joinLines ["# my hosts"; "User nobody"]
               +:+ joinLines wordNumberConfig)))
  = readConfigFile (Ok (Scan (joinLines wordNumberConfig))).
Proof.
  apply (lines_before_first_host_are_ignored ["# my hosts"; "User nobody"]).
  - repeat constructor.
  - repeat constructor.
Defined.

Lemma ReadConfigFiles_failures_witness :
  snd (ReadConfigFiles (Err "no such file") (StatFound true) (Ok sampleDir))
  = [].
Proof.
  apply (proj2 (ReadConfigFiles_failures (Err "no such file") (StatFound true)
                  (Ok sampleDir))
           "error reading main config file: no such file").
  reflexivity.
Defined.

Lemma ReadConfigFiles_collects_witness :
  ReadConfigFiles (Ok wordNumberConfig) (StatFound true) (Ok sampleDir)
  = (Ok ([web1] ++ flat_map entryHosts sampleDir),
     flat_map entryWarnings sampleDir).
Proof.
  apply (ReadConfigFiles_collects (Ok wordNumberConfig) sampleDir [web1]).
  vm_compute. reflexivity.
Defined.

(** The sample directory: the hidden file and the subdirectory are passed
    over, the two failing files are warned about, the good file is read. *)
Example sample_directory :
  flat_map entryWarnings sampleDir
  = [("bad", "invalid menu number: 99999999999999999999");
     ("gone", "permission denied")]
  ∧ map ShortName (flat_map entryHosts sampleDir) = ["e"].
Proof. vm_compute. done. Qed.

(* ===================================================================== *)
(** ** What the numbering keeps *)
(* ===================================================================== *)

Section Renumbering.

Lemma assign_renumbered (fuel : nat) (hosts : list Host) :
  ∀ (m : gmap Z bool) (next : Z) (out : list Host),
  assign fuel hosts m next = Some out → Forall2 renumbered hosts out.
Proof.
  induction hosts as [|h hosts IH]; intros m next out; simpl.
  - intros [= <-]. constructor.
  - destruct (Z.eqb_spec (MenuNumber h) 0) as [Hz|Hz].
    + destruct (nextFree fuel m next) as [n|]; [|done].
      destruct (assign fuel hosts _ n) as [out'|] eqn:Ha; [|done].
      intros [= <-]. constructor; [|by eapply IH].
      unfold renumbered. rewrite Hz. simpl. eauto.
    + destruct (assign fuel hosts m next) as [out'|] eqn:Ha; [|done].
      intros [= <-]. constructor; [|by eapply IH].
      unfold renumbered. by apply Z.eqb_neq in Hz as ->.
Qed.

Lemma numbered_positive (U : gset Z) (hosts out : list Host) :
  numbered U hosts out →
  Forall (λ h, 0 ≤ MenuNumber h) hosts → Forall (λ h, 1 ≤ MenuNumber h) out.
Proof.
  induction 1 as [U|U h hosts out Hnz Hnum IH|U h hosts out n Hz Hleast Hnum IH];
    intros Hall.
  - constructor.
  - apply Forall_cons in Hall as [Hh Hall]. constructor; [lia|by apply IH].
  - apply Forall_cons in Hall as [Hh Hall]. constructor; [|by apply IH].
    destruct Hleast as [Hpos _]. simpl. lia.
Qed.

(** X6.  Whenever [AssignMenuNumbers] returns hosts, they are the hosts
    it was given, none lost and none repeated, in an order that may
    differ: a host with an explicit number comes back as it was, a host
    at 0 comes back with only its menu number changed, and no two hosts
    of the result have the same menu number. *)
Theorem AssignMenuNumbers_keeps_hosts (fuel : nat) (hosts out : list Host) :
  AssignMenuNumbers fuel hosts = Some (Done out) →
  ∃ numberedHosts,
    Forall2 renumbered hosts numberedHosts
    ∧ out ≡ₚ numberedHosts
    ∧ length out = length hosts
    ∧ NoDup (map MenuNumber out).
Proof.
  intros Hout. pose proof (assigned_numbers_distinct _ _ _ Hout) as Hdist.
  unfold AssignMenuNumbers in Hout.
  destruct (validate hosts ∅) as [m|]; [|done].
  destruct (assign fuel hosts m 1) as [out0|] eqn:Ha; [|done].
  injection Hout as <-.
  apply assign_renumbered in Ha.
  assert (sortSlice lessMenu out0 ≡ₚ out0) as Hp by apply merge_sort_Permutation.
  exists out0. split_and!; [done|done| |done].
  rewrite (Permutation_length Hp). symmetry. by eapply Forall2_length.
Qed.

(** X7.  On a list whose menu numbers are not negative (as the parser
    gives them), of a length an [int] can hold and with fuel beyond that
    length, [AssignMenuNumbers] comes to an end, and every host it
    returns has a menu number of at least 1: 0 never reaches the menu. *)
Theorem assigned_numbers_are_positive (fuel : nat) (hosts : list Host) :
  Forall (λ h, 0 ≤ MenuNumber h) hosts →
  len hosts < maxInt → (length hosts < fuel)%nat →
  is_Some (AssignMenuNumbers fuel hosts)
  ∧ ∀ out, AssignMenuNumbers fuel hosts = Some (Done out) →
           Forall (λ h, 1 ≤ MenuNumber h) out.
Proof.
  intros Hnn Hlen Hfuel. unfold len in Hlen. unfold AssignMenuNumbers.
  destruct (validate hosts ∅) as [m|code printed] eqn:Hv; [|by split].
  apply validate_done in Hv as (Hnd & Hm & _ & Hdom); [|apply map_Forall_empty].
  rewrite dom_empty_L, (left_id_L ∅ (∪)) in Hdom.
  pose proof (explicit_unnumbered_length hosts) as Hcount.
  destruct (assign_numbered (Z.of_nat (length hosts)) fuel hosts m 1)
    as (out0 & -> & Hnum); [done| |done|lia|lia|intros; lia|].
  { rewrite Hdom, size_list_to_set by done. lia. }
  split; [done|]. intros out [= <-].
  apply numbered_positive in Hnum; [|done].
  assert (sortSlice lessMenu out0 ≡ₚ out0) as -> by apply merge_sort_Permutation.
  done.
Qed.

End Renumbering.

Lemma AssignMenuNumbers_keeps_hosts_witness :
  ∃ numberedHosts,
    Forall2 renumbered threeHosts numberedHosts
    ∧ threeNumbered ≡ₚ numberedHosts
    ∧ length threeNumbered = length threeHosts
    ∧ NoDup (map MenuNumber threeNumbered).
Proof.
  apply (AssignMenuNumbers_keeps_hosts 4 threeHosts).
  vm_compute. reflexivity.
Defined.

Lemma assigned_numbers_are_positive_witness :
  is_Some (AssignMenuNumbers 4 threeHosts)
  ∧ ∀ out, AssignMenuNumbers 4 threeHosts = Some (Done out) →
           Forall (λ h, 1 ≤ MenuNumber h) out.
Proof.
  apply (assigned_numbers_are_positive 4 threeHosts).
  - repeat constructor; vm_compute; discriminate.
  - vm_compute. reflexivity.
  - vm_compute. lia.
Defined.

(* ===================================================================== *)
(** ** Groups: the list, the filter, the view, the count and the index *)
(* ===================================================================== *)

Section GroupSelectors.

Lemma hasGroup_elem (gs : list string) (g : string) :
  ui.hasGroup gs g = true ↔ g ∈ gs.
Proof.
  induction gs as [|g0 gs IH]; simpl.
  - split; [done|by intros ?%elem_of_nil].
  - destruct (String.eqb_spec g0 g) as [->|Hne].
    + split; [by left|done].
    + rewrite IH, elem_of_cons. naive_solver.
Qed.

Lemma len_zero_nil {A : Type} (l : list A) : (len l =? 0) = true ↔ l = [].
Proof. rewrite Z.eqb_eq. apply len_nil. Qed.

Lemma inGroup_spec (g : string) (h : Host) :
  inGroup g h = true
  ↔ (g = "Ungrouped" ∧ Groups h = []) ∨ (g ≠ "Ungrouped" ∧ g ∈ Groups h).
Proof.
  unfold inGroup. destruct (String.eqb_spec g "Ungrouped") as [->|Hne].
  - rewrite len_zero_nil. naive_solver.
  - rewrite hasGroup_elem. naive_solver.
Qed.

Lemma GetAllGroups_elem (hosts : list Host) (g : string) :
  g ∈ GetAllGroups hosts
  ↔ (∃ h, h ∈ hosts ∧ g ∈ Groups h)
    ∨ (g = "Ungrouped" ∧ ∃ h, h ∈ hosts ∧ Groups h = []).
Proof.
  assert (GetAllGroups hosts ≡ₚ elements (dom (groupMap hosts))) as ->.
  { unfold GetAllGroups, GetAllGroups_in, sortSlice. apply merge_sort_Permutation. }
  rewrite elem_of_elements. apply groupMap_dom.
Qed.

Lemma filterHostsByGroup_filter (hosts : list Host) (g : string) :
  filterHostsByGroup hosts g = List.filter (inGroup g) hosts.
Proof.
  induction hosts as [|h hosts IH]; simpl; [done|].
  by destruct (inGroup g h); rewrite IH.
Qed.

(** X8.  A list of hosts has no group at all only when it is empty:
    every host is in a group of the list, its own or ["Ungrouped"]. *)
Theorem no_groups_only_without_hosts (hosts : list Host) :
  GetAllGroups hosts = [] ↔ hosts = [].
Proof.
  split.
  - intros Hnil. destruct hosts as [|h hosts]; [done|]. exfalso.
    destruct (Groups h) as [|g gs] eqn:Hg.
    + assert ("Ungrouped" ∈ GetAllGroups (h :: hosts)) as Hin.
      { apply GetAllGroups_elem. right. split; [done|].
        exists h. split; [left|done]. }
      rewrite Hnil in Hin. by apply elem_of_nil in Hin.
    + assert (g ∈ GetAllGroups (h :: hosts)) as Hin.
      { apply GetAllGroups_elem. left. exists h. split; [left|].
        rewrite Hg. left. }
      rewrite Hnil in Hin. by apply elem_of_nil in Hin.
  - intros ->. vm_compute. reflexivity.
Qed.

(** X9.  The group view of the selector, the [-g] filter and the count of
    [-l] agree: the view of a group shows the hosts the filter keeps for
    it, in the same order, and the count printed for it is their number
    (for a list of a length an [int] can hold). *)
Theorem group_selectors_agree (m : ui.Model) (hosts : list Host)
    (g : string) :
  ui.getHostsForGroup m g = filterHostsByGroup (ui.hosts m) g
  ∧ (len hosts < maxInt →
     countInGroup hosts g = len (filterHostsByGroup hosts g)).
Proof.
  split.
  - rewrite filterHostsByGroup_filter. unfold ui.getHostsForGroup, inGroup.
    by destruct (String.eqb g "Ungrouped").
  - induction hosts as [|h hosts IH]; [done|]. intros Hlen.
    assert (len hosts < maxInt) as Hlen'.
    { unfold len in *. cbn [length] in Hlen. lia. }
    specialize (IH Hlen').
    assert (0 ≤ len (filterHostsByGroup hosts g) ≤ len hosts) as Hle.
    { split; [apply len_nonneg|]. apply len_sublist.
      rewrite filterHostsByGroup_filter. apply filter_sublist. }
    cbn [countInGroup filterHostsByGroup]. unfold inGroup.
    destruct (String.eqb g "Ungrouped").
    + destruct (len (Groups h) =? 0); [|done].
      rewrite IH, wrap_fits by (unfold minInt, maxInt in *; lia).
      unfold len. cbn [length]. lia.
    + destruct (ui.hasGroup (Groups h) g); [|done].
      rewrite IH, wrap_fits by (unfold minInt, maxInt in *; lia).
      unfold len. cbn [length]. lia.
Qed.

(** X10.  A group has hosts under the [-g] filter only if it is in the
    list of groups; and a group of the list has hosts under the filter,
    with one exception: ["Ungrouped"] is in the list with no host under
    the filter when no host is without a group and some host carries
    ["Ungrouped"] as a group name of its own. *)
Theorem listed_groups_and_filter (hosts : list Host) (g : string) :
  (filterHostsByGroup hosts g ≠ [] → g ∈ GetAllGroups hosts)
  ∧ (g ∈ GetAllGroups hosts → filterHostsByGroup hosts g = [] →
     g = "Ungrouped"
     ∧ Forall (λ h, Groups h ≠ []) hosts
     ∧ ∃ h, h ∈ hosts ∧ "Ungrouped" ∈ Groups h).
Proof.
  assert (∀ h, h ∈ filterHostsByGroup hosts g ↔ h ∈ hosts ∧ inGroup g h = true)
    as Hmem by (intros h; apply filterHostsByGroup_elem).
  split.
  - intros Hne. destruct (filterHostsByGroup hosts g) as [|h l] eqn:Hf; [done|].
    assert (h ∈ hosts ∧ inGroup g h = true) as [Hh Hg].
    { apply Hmem. left. }
    apply GetAllGroups_elem.
    apply inGroup_spec in Hg as [[-> Hg]|[_ Hg]]; [right|left]; eauto.
  - intros Hin Hnil.
    assert (∀ h, h ∈ hosts → inGroup g h = false) as Hnone.
    { intros h Hh. destruct (inGroup g h) eqn:Hg; [|done].
      assert (h ∈ filterHostsByGroup hosts g) as Hf
        by by apply filterHostsByGroup_elem.
      rewrite Hnil in Hf. by apply elem_of_nil in Hf. }
    apply GetAllGroups_elem in Hin as [(h & Hh & Hg)|[-> (h & Hh & Hg)]].
    + destruct (decide (g = "Ungrouped")) as [->|Hne].
      * split_and!; [done| |eauto].
        apply Forall_forall. intros h' Hh' He.
        specialize (Hnone h' Hh').
        assert (inGroup "Ungrouped" h' = true); [|congruence].
        apply inGroup_spec. by left.
      * specialize (Hnone h Hh).
        assert (inGroup g h = true); [|congruence].
        apply inGroup_spec. by right.
    + specialize (Hnone h Hh).
      assert (inGroup "Ungrouped" h = true); [|congruence].
      apply inGroup_spec. by left.
Qed.

End GroupSelectors.

Lemma group_selectors_agree_witness :
  countInGroup groupedHosts "Prod"
  = len (filterHostsByGroup groupedHosts "Prod").
Proof.
  apply (proj2 (group_selectors_agree
                  (ui.mkModel [] None false false "" 0 0 [] [] "" 0 0)
                  groupedHosts "Prod")).
  vm_compute. reflexivity.
Defined.

Lemma listed_groups_and_filter_witness :
  "Ungrouped" = "Ungrouped"
  ∧ Forall (λ h, Groups h ≠ []) taggedUngrouped
  ∧ ∃ h, h ∈ taggedUngrouped ∧ "Ungrouped" ∈ Groups h.
Proof.
  apply (proj2 (listed_groups_and_filter taggedUngrouped "Ungrouped")).
  - apply GetAllGroups_elem. left.
    exists (entry "old" "Old box" 2 ["Ungrouped"]).
    split; [right; left|left].
  - reflexivity.
Defined.

(** With such hosts [-l] lists ["Ungrouped"] with no host. *)
Example ungrouped_listed_without_hosts :
  listAvailableGroups taggedUngrouped
  = [ "Available groups:" +:+ newline;
      "  Prod (1 hosts)" +:+ newline;
      "  Ungrouped (0 hosts)" +:+ newline ].
Proof. vm_compute. reflexivity. Qed.

Section GroupIndex.

Lemma fileUnder_lookup (h : Host) (m : gmap string (list Host))
    (g0 g : string) :
  fileUnder h m g0 !! g
  = if decide (g0 = g) then Some (default [] (m !! g) ++ [h]) else m !! g.
Proof.
  unfold fileUnder. rewrite lookup_insert.
  destruct (decide (g0 = g)) as [->|]; done.
Qed.

(** Filing a host under groups that do not repeat appends it once to each
    of them. *)
Lemma fold_fileUnder_lookup (h : Host) (gs : list string) :
  ∀ (m : gmap string (list Host)) (g : string),
  NoDup gs →
  fold_left (fileUnder h) gs m !! g
  = if ui.hasGroup gs g then Some (default [] (m !! g) ++ [h]) else m !! g.
Proof.
  induction gs as [|g0 gs IH]; intros m g Hnd; simpl; [done|].
  apply NoDup_cons in Hnd as [Hg0 Hnd].
  rewrite IH by done. rewrite fileUnder_lookup.
  destruct (String.eqb_spec g0 g) as [->|Hne].
  - rewrite decide_True by done.
    destruct (ui.hasGroup gs g) eqn:Hh; [|done].
    apply hasGroup_elem in Hh. done.
  - by rewrite decide_False by done.
Qed.

(** The index after one more host. *)
Lemma GroupHosts_snoc (hosts : list Host) (h : Host) (g : string) :
  NoDup (Groups h) →
  GroupHosts (hosts ++ [h]) !! g
  = if filedUnder g h then Some (default [] (GroupHosts hosts !! g) ++ [h])
    else GroupHosts hosts !! g.
Proof.
  intros Hnd. unfold GroupHosts at 1. rewrite fold_left_app. simpl.
  fold (GroupHosts hosts). unfold filedUnder.
  destruct (len (Groups h) =? 0).
  - rewrite fileUnder_lookup.
    destruct (String.eqb_spec g "Ungrouped") as [->|Hne].
    + by rewrite decide_True.
    + by rewrite decide_False.
  - by apply fold_fileUnder_lookup.
Qed.

Lemma GroupHosts_lookup (hosts : list Host) (g : string) :
  Forall (λ h, NoDup (Groups h)) hosts →
  GroupHosts hosts !! g
  = match List.filter (filedUnder g) hosts with
    | [] => None
    | filed => Some filed
    end.
Proof.
  induction hosts as [|h hosts IH] using rev_ind; intros Hall; [done|].
  apply Forall_app in Hall as [Hall Hh]. apply List.Forall_inv in Hh.
  rewrite GroupHosts_snoc by exact Hh. rewrite (IH Hall).
  rewrite List.filter_app. simpl.
  destruct (filedUnder g h).
  - destruct (List.filter (filedUnder g) hosts) as [|x l]; done.
  - by rewrite List.app_nil_r.
Qed.

(** X11.  For hosts whose groups do not repeat (as the parser gives
    them), [GroupHosts] holds under each key the hosts filed under it, in
    list order and once each: the hosts that carry the key as a group,
    and under ["Ungrouped"] also the hosts without a group.  A key is in
    the index exactly when some host is filed under it, and the keys are
    the groups [GetAllGroups] lists. *)
Theorem GroupHosts_files_each_host (hosts : list Host) (g : string) :
  Forall (λ h, NoDup (Groups h)) hosts →
  default [] (GroupHosts hosts !! g) = List.filter (filedUnder g) hosts
  ∧ (GroupHosts hosts !! g = None ↔ List.filter (filedUnder g) hosts = [])
  ∧ (g ∈ dom (GroupHosts hosts) ↔ g ∈ GetAllGroups hosts).
Proof.
  intros Hall. pose proof (GroupHosts_lookup hosts g Hall) as Hl.
  split_and!.
  - rewrite Hl. by destruct (List.filter (filedUnder g) hosts).
  - rewrite Hl. by destruct (List.filter (filedUnder g) hosts).
  - rewrite elem_of_dom, Hl, GetAllGroups_elem.
    assert (is_Some (match List.filter (filedUnder g) hosts with
                     | [] => None | filed => Some filed end)
            ↔ ∃ h, h ∈ hosts ∧ filedUnder g h = true) as ->.
    { split.
      - destruct (List.filter (filedUnder g) hosts) as [|h l] eqn:Hf;
          [by intros [? ?]|].
        intros _. exists h.
        assert (In h (List.filter (filedUnder g) hosts)) as Hin
          by (rewrite Hf; left; done).
        apply filter_In in Hin as [Hin ?]. by rewrite list_elem_of_In.
      - intros (h & Hh & Hg).
        assert (In h (List.filter (filedUnder g) hosts)) as Hin.
        { apply filter_In. by rewrite <- list_elem_of_In. }
        destruct (List.filter (filedUnder g) hosts); [done|eauto]. }
    unfold filedUnder. split.
    + intros (h & Hh & Hg).
      destruct (Z.eqb_spec (len (Groups h)) 0) as [Hz|Hz].
      * apply String.eqb_eq in Hg as ->. right. split; [done|].
        exists h. split; [done|]. by apply len_nil.
      * apply hasGroup_elem in Hg. left. eauto.
    + intros [(h & Hh & Hg)|[-> (h & Hh & Hg)]]; exists h; (split; [done|]).
      * destruct (Z.eqb_spec (len (Groups h)) 0) as [Hz|Hz].
        -- apply len_nil in Hz. rewrite Hz in Hg. by apply elem_of_nil in Hg.
        -- by apply hasGroup_elem.
      * rewrite Hg. done.
Qed.

End GroupIndex.

Lemma GroupHosts_files_each_host_witness :
  default [] (GroupHosts groupedHosts !! "Prod")
  = List.filter (filedUnder "Prod") groupedHosts
  ∧ (GroupHosts groupedHosts !! "Prod" = None
     ↔ List.filter (filedUnder "Prod") groupedHosts = [])
  ∧ ("Prod" ∈ dom (GroupHosts groupedHosts)
     ↔ "Prod" ∈ GetAllGroups groupedHosts).
Proof.
  apply (GroupHosts_files_each_host groupedHosts "Prod").
  repeat constructor; set_solver.
Defined.

(* ===================================================================== *)
(** ** Colours: what is stored and what is read back *)
(* ===================================================================== *)

Section ColourSlots.

Variable Getenv : string → string.

Lemma fromEnv_nonempty (name x : string) :
  nonempty x = true → nonempty (fromEnv Getenv name x) = true.
Proof. unfold fromEnv. by destruct (nonempty (Getenv name)) eqn:H. Qed.

Lemma mergeColor_nonempty (current default fromFile : string) :
  nonempty current = true →
  nonempty (mergeColor current default fromFile) = true.
Proof.
  unfold mergeColor. destruct (String.eqb current default); simpl; [|done].
  by destruct (nonempty fromFile) eqn:H.
Qed.

(** X12.  Whatever the environment, the path and the file, no colour
    slot [ApplyColorConfig] stores is empty; so [GetCurrentColors] hands
    back what was stored, and the built-in colours before anything was
    stored. *)
Theorem stored_colours_are_never_empty (configPath : string)
    (content : result string) :
  allSet (ApplyColorConfig Getenv configPath content)
  ∧ GetCurrentColors (ApplyColorConfig Getenv configPath content)
    = ApplyColorConfig Getenv configPath content
  ∧ GetCurrentColors (mkColors "" "" "" "" "" "") = DefaultColors.
Proof.
  assert (allSet (ApplyColorConfig Getenv configPath content)) as Hall.
  { unfold ApplyColorConfig, allSet.
    destruct (nonempty configPath); simpl;
      split_and!; repeat first [apply mergeColor_nonempty | apply fromEnv_nonempty];
      done. }
  split_and!; [done| |done].
  unfold GetCurrentColors. by destruct Hall as (_ & -> & _).
Qed.

(** X14.  With a configuration path, each of the six slots
    [ApplyColorConfig] stores follows the same rule: the variable wins
    when it is set to anything but the built-in colour; when it is not
    set, the comment of the file wins over the built-in colour; and a
    variable set to the built-in colour itself gives way to the comment of
    the file. *)
Theorem ApplyColorConfig_slot_rules (configPath : string)
    (content : result string) :
  nonempty configPath = true →
  let file := readColorsFromConfig content in
  let stored := ApplyColorConfig Getenv configPath content in
  slotRule Getenv EnvColorBackground (Background DefaultColors)
    (Background file) (Background stored)
  ∧ slotRule Getenv EnvColorForeground (Foreground DefaultColors)
      (Foreground file) (Foreground stored)
  ∧ slotRule Getenv EnvColorBorder (Border DefaultColors)
      (Border file) (Border stored)
  ∧ slotRule Getenv EnvColorSelected (internal.Selected DefaultColors)
      (internal.Selected file) (internal.Selected stored)
  ∧ slotRule Getenv EnvColorAccent (Accent DefaultColors)
      (Accent file) (Accent stored)
  ∧ slotRule Getenv EnvColorDimmed (Dimmed DefaultColors)
      (Dimmed file) (Dimmed stored).
Proof.
  intros Hp file stored. unfold stored.
  rewrite (ApplyColorConfig_slots Getenv configPath content Hp). simpl.
  split_and!; apply slot_priority.
Qed.

Lemma colorTest_set (re : regex) (envKey line field : string) :
  Getenv envKey ≠ "" → colorTest Getenv re envKey line field = field.
Proof.
  intros Hset%nonempty_true. unfold colorTest.
  destruct (FindStringSubmatch re 1 line); [|done]. by rewrite Hset.
Qed.

Lemma parseColorLine_keeps (c : ColorConfig) (line : string) :
  fromEnvironment Getenv c →
  fromEnvironment Getenv (parseColorLine Getenv c line).
Proof.
  intros (H1 & H2 & H3 & H4 & H5 & H6). unfold fromEnvironment. simpl.
  split_and!; intros Hset; rewrite colorTest_set by done; auto.
Qed.

(** X13.  [getColorSettings], the colour reader next to the host parser,
    gives the environment the last word in every case: a slot whose
    variable is set holds the value of the variable, whatever the file
    says and whether or not it can be opened. *)
Theorem getColorSettings_environment_wins (opened : result (list string)) :
  fromEnvironment Getenv (getColorSettings Getenv opened).
Proof.
  unfold getColorSettings.
  assert (fromEnvironment Getenv (applyEnvColors Getenv DefaultColors)) as H0.
  { unfold fromEnvironment, applyEnvColors, fromEnv. simpl.
    split_and!; by intros ->%nonempty_true. }
  destruct opened as [lines|e]; [|done].
  revert H0. generalize (applyEnvColors Getenv DefaultColors).
  induction lines as [|text lines IH]; intros c Hc; simpl; [done|].
  apply IH. by apply parseColorLine_keeps.
Qed.

End ColourSlots.

Lemma ApplyColorConfig_slot_rules_witness :
  slotRule accentEnv EnvColorAccent (Accent DefaultColors)
    (Accent (readColorsFromConfig (Ok redBackground)))
    (Accent (ApplyColorConfig accentEnv "/home/user/.ssh/config"
               (Ok redBackground))).
Proof.
  destruct (ApplyColorConfig_slot_rules accentEnv "/home/user/.ssh/config"
              (Ok redBackground) eq_refl)
    as (_ & _ & _ & _ & H & _).
  exact H.
Defined.

Lemma getColorSettings_environment_wins_witness :
  Accent (getColorSettings accentEnv (Ok ["# ColorAccent: #000000"]))
  = "#ffffff".
Proof.
  destruct (getColorSettings_environment_wins accentEnv
              (Ok ["# ColorAccent: #000000"]))
    as (_ & _ & _ & _ & H & _).
  apply H. discriminate.
Defined.

(* ===================================================================== *)
(** ** The selector: views, filter text and the selection *)
(* ===================================================================== *)

Section Selecting.
Import ui.

Variable unicodeLower : string → string.

#[local] Abbreviation ToLower := (GoStr.ToLower unicodeLower).
#[local] Arguments String.append !_ _ / : simpl nomatch.

Lemma take_add (s c : string) (n : nat) :
  take (String.length s + n) (s +:+ c) = s +:+ take n c.
Proof. induction s as [|a s IH]; simpl; [done|]. by rewrite IH. Qed.

Lemma dropLast_app (s c : string) :
  c ≠ "" → dropLast (s +:+ c) = s +:+ dropLast c.
Proof.
  intros Hc. unfold dropLast. rewrite str_length_app.
  destruct c as [|a c]; [done|]. cbn [String.length].
  replace (String.length s + S (String.length c) - 1)%nat
    with (String.length s + (S (String.length c) - 1))%nat by lia.
  apply take_add.
Qed.

Lemma isASCII_app (s c : string) :
  isASCII (s +:+ c) = isASCII s && isASCII c.
Proof.
  induction s as [|a s IH]; simpl; [done|]. by rewrite IH, andb_assoc.
Qed.

Lemma lowerASCII_app (s c : string) :
  lowerASCII (s +:+ c) = lowerASCII s +:+ lowerASCII c.
Proof. induction s as [|a s IH]; simpl; [done|]. by rewrite IH. Qed.

Lemma HasPrefix_shorter (s l c : string) :
  HasPrefix s (l +:+ c) = true → HasPrefix s l = true.
Proof.
  rewrite !HasPrefix_app. intros [rest ->]. exists (c +:+ rest).
  apply str_app_assoc.
Qed.

Lemma HasPrefix_refl (s : string) : HasPrefix s s = true.
Proof. apply HasPrefix_app. exists "". by rewrite str_app_nil_r. Qed.

Lemma filter_sublist_impl {A : Type} (p q : A → bool) (l : list A) :
  (∀ x, p x = true → q x = true) →
  List.filter p l `sublist_of` List.filter q l.
Proof.
  intros Hpq. induction l as [|x l IH]; simpl; [done|].
  destruct (p x) eqn:Hp.
  - rewrite (Hpq x Hp). by constructor.
  - destruct (q x); [by constructor|done].
Qed.

(** The hosts of a view depend on the view, the hosts and the groups
    only. *)
Lemma viewHosts_frame (m m' : Model) :
  hosts m' = hosts m → groups m' = groups m → viewIndex m' = viewIndex m →
  viewHosts m' = viewHosts m.
Proof.
  unfold viewHosts, getHostsForGroup. by intros -> -> ->.
Qed.

Lemma viewHosts_elem (m : Model) (vh : list Host) :
  viewHosts m = Some vh → ∀ h, h ∈ vh → h ∈ hosts m.
Proof.
  unfold viewHosts. destruct (viewIndex m =? 0); [by intros [= <-]|].
  destruct (_ <? _); [|by intros [= <-] h ?%elem_of_nil].
  destruct (index _ _) as [g|]; [|done]. intros [= <-] h Hh.
  eapply elem_of_sublist; [done|apply getHostsForGroup_sublist].
Qed.

Lemma index_elem {A : Type} (l : list A) (i : Z) (x : A) :
  index l i = Some x → x ∈ l.
Proof.
  unfold index. destruct (_ && _); [|done]. apply list_elem_of_lookup_2.
Qed.

(** *** Views *)

(** One step to the next or the previous view. *)
Lemma navigateView_step (delta : Z) (m : Model) :
  delta = 1 ∨ delta = -1 → slicesFit m → viewInRange m →
  let view := (viewIndex m + delta) `mod` (1 + len (groups m)) in
  0 ≤ view ≤ len (groups m)
  ∧ ∃ shown, viewHosts (set_viewIndex view m) = Some shown
             ∧ navigateView unicodeLower delta m = Some (viewOf m view shown).
Proof.
  intros Hd (Hh & Hg & Hf) Hview view.
  pose proof (len_nonneg (groups m)) as Hlen. unfold viewInRange in Hview.
  assert (view = if viewIndex m + delta <? 0 then len (groups m)
                 else if 1 + len (groups m) <=? viewIndex m + delta then 0
                 else viewIndex m + delta) as Hmod.
  { unfold view.
    destruct (Z.ltb_spec (viewIndex m + delta) 0);
      [|destruct (Z.leb_spec (1 + len (groups m)) (viewIndex m + delta))].
    - symmetry. apply (Z.mod_unique _ _ (-1)); lia.
    - symmetry. apply (Z.mod_unique _ _ 1); lia.
    - apply Z.mod_small. lia. }
  assert (0 ≤ view ≤ len (groups m)) as Hrange.
  { rewrite Hmod.
    destruct (Z.ltb_spec (viewIndex m + delta) 0);
      [|destruct (Z.leb_spec (1 + len (groups m)) (viewIndex m + delta))];
      lia. }
  split; [done|].
  destruct (viewHosts_in_range (set_viewIndex view m)) as (shown & Hs & _);
    [done|done|].
  exists shown. split; [done|].
  unfold navigateView. simpl.
  rewrite !(wrap_fits (1 + _)) by (unfold minInt, maxInt in *; lia).
  rewrite !(wrap_fits (viewIndex m + delta)) by (unfold minInt, maxInt in *; lia).
  rewrite !(wrap_fits (1 + len (groups m) - 1)) by (unfold minInt, maxInt in *; lia).
  unfold updateFilteredHosts.
  match goal with |- context [viewHosts ?m0] =>
    rewrite (viewHosts_frame (set_viewIndex view m) m0)
  end.
  - rewrite Hs. unfold viewOf. simpl. rewrite Hmod.
    destruct (Z.ltb_spec (viewIndex m + delta) 0);
      [|destruct (Z.leb_spec (1 + len (groups m)) (viewIndex m + delta))];
      unfold set_filteredHosts, set_cursor, set_filterText, set_viewIndex;
      simpl; first [reflexivity | do 2 f_equal; lia].
  - destruct (Z.ltb_spec (viewIndex m + delta) 0);
      [|destruct (Z.leb_spec (1 + len (groups m)) (viewIndex m + delta))];
      done.
  - destruct (Z.ltb_spec (viewIndex m + delta) 0);
      [|destruct (Z.leb_spec (1 + len (groups m)) (viewIndex m + delta))];
      done.
  - rewrite Hmod.
    destruct (Z.ltb_spec (viewIndex m + delta) 0);
      [|destruct (Z.leb_spec (1 + len (groups m)) (viewIndex m + delta))];
      simpl; lia.
Qed.

(** X15.  The views form a ring: with v the current view and n groups,
    a step right (also Tab) or left leads to the view (v ± 1) mod (n + 1),
    without a fault; it empties the filter text, puts the cursor on the
    first line and shows all the hosts of the new view; the hosts, the
    groups and the selection are left as they were. *)
Theorem view_navigation_wraps (delta : Z) (m : Model) :
  delta = 1 ∨ delta = -1 → slicesFit m → viewInRange m →
  ∃ m' shown,
    navigateView unicodeLower delta m = Some m'
    ∧ viewIndex m' = (viewIndex m + delta) `mod` (1 + len (groups m))
    ∧ viewHosts m' = Some shown ∧ filteredHosts m' = shown
    ∧ filterText m' = "" ∧ cursor m' = 0
    ∧ hosts m' = hosts m ∧ groups m' = groups m
    ∧ Selected m' = Selected m.
Proof.
  intros Hd Hfit Hview.
  destruct (navigateView_step delta m Hd Hfit Hview) as (_ & shown & Hs & Hn).
  eexists _, shown. split; [exact Hn|]. split_and!; done.
Qed.

(** X16.  A step to the next view and a step back, in either order,
    lead to the view they started from: the model is the one before the
    two steps, with the filter text emptied, the cursor on the first line
    and all the hosts of the view shown. *)
Theorem view_steps_cancel (delta : Z) (m : Model) :
  delta = 1 ∨ delta = -1 → slicesFit m → viewInRange m →
  ∃ m1 shown,
    navigateView unicodeLower delta m = Some m1
    ∧ viewHosts m = Some shown
    ∧ navigateView unicodeLower (- delta) m1
      = Some (viewOf m (viewIndex m) shown).
Proof.
  intros Hd Hfit Hview.
  destruct (navigateView_step delta m Hd Hfit Hview)
    as (Hr1 & shown1 & Hs1 & Hn1).
  set (view1 := (viewIndex m + delta) `mod` (1 + len (groups m))) in *.
  set (m1 := viewOf m view1 shown1) in *.
  assert (slicesFit m1) as Hfit1.
  { destruct Hfit as (Hh & Hg & Hf). split_and!; [done..|]. simpl.
    destruct (viewHosts_in_range (set_viewIndex view1 m)) as (vh & Hvh & Hsub);
      [done|done|].
    rewrite Hs1 in Hvh. injection Hvh as <-.
    apply len_sublist in Hsub. simpl in Hsub. lia. }
  assert (viewInRange m1) as Hview1 by done.
  destruct (navigateView_step (- delta) m1) as (_ & shown & Hs & Hn);
    [lia|done|done|].
  destruct (viewHosts_in_range m) as (vh & Hvh & _); [apply Hfit|done|].
  pose proof (len_nonneg (groups m)) as Hlen. unfold viewInRange in Hview.
  assert ((viewIndex m1 + - delta) `mod` (1 + len (groups m1)) = viewIndex m)
    as Hback.
  { simpl. unfold view1.
    replace ((viewIndex m + delta) `mod` (1 + len (groups m)) + - delta)
      with ((viewIndex m + delta) `mod` (1 + len (groups m)) - delta) by lia.
    rewrite Zminus_mod_idemp_l.
    replace (viewIndex m + delta - delta) with (viewIndex m) by lia.
    apply Z.mod_small. lia. }
  rewrite Hback in Hs, Hn.
  exists m1, vh. split_and!; [done|done|].
  rewrite Hn.
  rewrite (viewHosts_frame m (set_viewIndex (viewIndex m) m1)) in Hs by done.
  rewrite Hvh in Hs. injection Hs as <-. reflexivity.
Qed.

(** *** The filter text *)

(** X17.  Backspace takes the last byte off the filter text and filters
    the view again from the first line: after a key that types [char], it
    leaves the text before the key followed by [char] without its last
    byte.  So for a key of one byte it takes back the key; of a key of
    several bytes (a character outside ASCII, or pasted text) it takes
    back the last byte only. *)
Theorem backspace_after_typing (char : string) (m : Model) :
  char ≠ "" → slicesFit m → viewInRange m →
  ∃ m1 m2 shown,
    handleTypedCharacter unicodeLower char m = Some m1
    ∧ handleBackspace unicodeLower m1 = Some m2
    ∧ viewHosts m = Some shown
    ∧ filterText m2 = filterText m +:+ dropLast char
    ∧ filteredHosts m2 = applyFilter unicodeLower (filterText m2) shown
    ∧ cursor m2 = 0
    ∧ (String.length char = 1%nat →
       filterText m2 = filterText m
       ∧ filteredHosts m2
         = applyFilter unicodeLower (filterText m) shown).
Proof.
  intros Hc Hfit Hview.
  destruct (viewHosts_in_range m) as (shown & Hvh & _); [apply Hfit|done|].
  unfold handleTypedCharacter, updateFilteredHosts.
  rewrite (viewHosts_frame m (set_filterText _ m)) by done. rewrite Hvh.
  eexists _, _, shown. split; [reflexivity|].
  unfold handleBackspace, updateFilteredHosts.
  cbn [filterText set_cursor set_filteredHosts set_filterText].
  assert (nonempty (filterText m +:+ char) = true) as ->.
  { apply nonempty_true. intros He.
    apply (f_equal String.length) in He. rewrite str_length_app in He.
    destruct char; [done|]. simpl in He. lia. }
  match goal with |- context [viewHosts ?m0] =>
    rewrite (viewHosts_frame m m0) by done
  end.
  rewrite Hvh. split; [reflexivity|]. split; [done|].
  cbn [filterText filteredHosts cursor set_cursor set_filteredHosts
       set_filterText].
  rewrite dropLast_app by done. split_and!; [done..|].
  intros Hone. destruct char as [|a [|b char]]; [done| |done].
  change (dropLast (String a "")) with "". by rewrite str_app_nil_r.
Qed.

(** X18.  While the filter text is ASCII, one more typed character can
    only take hosts off the list: what the longer text selects in a view
    is a sublist of what the shorter text selects. *)
Theorem typing_narrows_the_list (text char : string) (shown : list Host) :
  isASCII (text +:+ char) = true →
  applyFilter unicodeLower (text +:+ char) shown
  `sublist_of` applyFilter unicodeLower text shown.
Proof.
  intros Hascii. rewrite !applyFilter_filter.
  destruct (nonempty text) eqn:Ht.
  - assert (nonempty (text +:+ char) = true) as ->.
    { destruct text; [done|]. done. }
    apply filter_sublist_impl. intros h. unfold selectsb.
    rewrite isASCII_app in Hascii. apply andb_true_iff in Hascii as [Hat Hac].
    assert (ToLower (text +:+ char) = ToLower text +:+ lowerASCII char) as ->.
    { unfold GoStr.ToLower. rewrite isASCII_app, Hat, Hac. simpl.
      apply lowerASCII_app. }
    rewrite !orb_true_iff.
    intros [[H|H]|H]; eauto using HasPrefix_shorter.
  - destruct (nonempty (text +:+ char)); [apply filter_sublist|done].
Qed.

(** X19.  A host of the view is never filtered out by its own number or
    name: with the menu number as it is displayed, or the short or the
    long name in any case the lowering of case maps to the same string, as
    the filter text, the host stays on the list. *)
Theorem own_identifier_keeps_host (text : string) (h : Host)
    (shown : list Host) :
  h ∈ shown →
  text = Itoa (MenuNumber h)
  ∨ ToLower text = ToLower (ShortName h)
  ∨ ToLower text = ToLower (LongName h) →
  h ∈ applyFilter unicodeLower text shown.
Proof.
  intros Hh Hid. rewrite applyFilter_filter.
  destruct (nonempty text); [|done].
  apply list_elem_of_In, filter_In. split; [by apply list_elem_of_In|].
  unfold selectsb. rewrite !orb_true_iff.
  destruct Hid as [->|[->| ->]]; eauto using HasPrefix_refl.
Qed.

(** *** The selection *)

Lemma updateFilteredHosts_frame (m m' : Model) :
  updateFilteredHosts unicodeLower m = Some m' →
  hosts m' = hosts m ∧ Selected m' = Selected m
  ∧ ∀ h, h ∈ filteredHosts m' → h ∈ hosts m.
Proof.
  unfold updateFilteredHosts. destruct (viewHosts m) as [vh|] eqn:Hv; [|done].
  intros [= <-]. simpl. split_and!; [done..|]. intros h Hh.
  eapply viewHosts_elem; [done|].
  eapply elem_of_sublist; [done|apply applyFilter_sublist].
Qed.

(** What one message does to the hosts, the list shown and the
    selection. *)
Lemma Update_step (msg : Msg) (m m' : Model) (q : bool) :
  (∀ h, h ∈ filteredHosts m → h ∈ hosts m) →
  Update unicodeLower msg m = Some (m', q) →
  hosts m' = hosts m
  ∧ (∀ h, h ∈ filteredHosts m' → h ∈ hosts m)
  ∧ (Selected m' = Selected m
     ∨ (confirms msg = true ∧ q = true
        ∧ ∃ h, h ∈ hosts m ∧ Selected m' = Some h)).
Proof.
  intros Hsub.
  assert (∀ o : option Model,
            (∀ m1, o = Some m1 →
                   hosts m1 = hosts m ∧ Selected m1 = Selected m
                   ∧ ∀ h, h ∈ filteredHosts m1 → h ∈ hosts m) →
            match o with Some m1 => Some (m1, false) | None => None end
            = Some (m', q) →
            hosts m' = hosts m
            ∧ (∀ h, h ∈ filteredHosts m' → h ∈ hosts m)
            ∧ (Selected m' = Selected m
               ∨ (confirms msg = true ∧ q = true
                  ∧ ∃ h, h ∈ hosts m ∧ Selected m' = Some h))) as Hcont.
  { intros [m1|] Ho; [|done]. intros [= <- <-].
    destruct (Ho m1 eq_refl) as (? & ? & ?). auto. }
  assert (∀ delta m1, navigateView unicodeLower delta m = Some m1 →
            hosts m1 = hosts m ∧ Selected m1 = Selected m
            ∧ ∀ h, h ∈ filteredHosts m1 → h ∈ hosts m) as Hnav.
  { intros delta m1. unfold navigateView.
    intros (H1 & H2 & H3)%updateFilteredHosts_frame. revert H1 H2 H3. simpl.
    destruct (_ <? 0); [|destruct (_ <=? _)]; simpl; auto. }
  destruct msg as [w hgt|type text|]; simpl.
  - intros [= <- <-]. simpl. auto.
  - destruct type; simpl.
    + intros [= <- <-]. auto.
    + unfold handleEnterKey.
      destruct (len (filteredHosts m) =? 1).
      * destruct (index _ 0) as [h|] eqn:Hi; [|done]. intros [= <- <-].
        simpl. split_and!; [done..|]. right. split_and!; [done..|].
        exists h. split; [|done]. by eapply Hsub, index_elem.
      * destruct (_ && _).
        -- destruct (index _ (cursor m)) as [h|] eqn:Hi; [|done].
           intros [= <- <-]. simpl. split_and!; [done..|]. right.
           split_and!; [done..|].
           exists h. split; [|done]. by eapply Hsub, index_elem.
        -- intros [= <- <-]. auto.
    + intros [= <- <-]. unfold moveCursor. simpl.
      destruct (_ <? 0); [|destruct (_ <=? _)]; simpl; auto.
    + intros [= <- <-]. unfold moveCursor. simpl.
      destruct (_ <? 0); [|destruct (_ <=? _)]; simpl; auto.
    + apply Hcont. intros m1. apply Hnav.
    + apply Hcont. intros m1. apply Hnav.
    + apply Hcont. intros m1. unfold handleBackspace.
      destruct (nonempty (filterText m)); [|by intros [= <-]].
      destruct (updateFilteredHosts _ _) as [m2|] eqn:Hu; [|done].
      intros [= <-]. by apply updateFilteredHosts_frame in Hu.
    + apply Hcont. intros m1. unfold handleTypedCharacter.
      destruct (updateFilteredHosts _ _) as [m2|] eqn:Hu; [|done].
      intros [= <-]. by apply updateFilteredHosts_frame in Hu.
    + apply Hcont. intros m1. apply Hnav.
    + intros [= <- <-]. auto.
  - intros [= <- <-]. auto.
Qed.

Lemma events_step (msgs : list Msg) :
  ∀ (m m' : Model) (quit quit' : bool),
  (∀ h, h ∈ filteredHosts m → h ∈ hosts m) →
  (∀ h, Selected m = Some h → h ∈ hosts m ∧ quit = true) →
  events unicodeLower msgs m quit = Some (m', quit') →
  hosts m' = hosts m
  ∧ (∀ h, Selected m' = Some h → h ∈ hosts m ∧ quit' = true)
  ∧ (Selected m = None → forallb (λ msg, negb (confirms msg)) msgs = true →
     Selected m' = None).
Proof.
  induction msgs as [|msg msgs IH]; intros m m' quit quit' Hsub Hsel; simpl.
  - intros [= <- <-]. auto.
  - destruct (Update unicodeLower msg m) as [[m1 q]|] eqn:Hu; [|done].
    intros Hev.
    destruct (Update_step msg m m1 q Hsub Hu) as (Hh & Hf & Hs).
    apply IH in Hev as (Hh' & Hsel' & Hnone).
    + rewrite Hh in Hh', Hsel'. split_and!; [done..|].
      intros Hn [Hm Hrest]%andb_true_iff. apply Hnone; [|done].
      destruct Hs as [->|(Hc & _)]; [done|]. by rewrite Hc in Hm.
    + by rewrite Hh.
    + rewrite Hh. intros h Hm1.
      destruct Hs as [Hs|(_ & -> & h' & Hh1 & Hs)].
      * rewrite Hs in Hm1. destruct (Hsel h Hm1) as [? ->]. done.
      * rewrite Hs in Hm1. injection Hm1 as <-. split; [done|].
        apply orb_true_r.
Qed.

(** X20.  Whatever the selector is sent after [SetupUI], a host it
    reports as selected is one of the hosts it was set up with, and the
    program was asked to quit when it was selected; without an Enter key
    nothing is ever selected. *)
Theorem selection_is_a_listed_host (hosts : list Host)
    (verbose detailed : bool) (sshOpts : string) (msgs : list Msg)
    (m0 m : Model) (quit : bool) :
  SetupUI unicodeLower hosts verbose detailed sshOpts = Some m0 →
  events unicodeLower msgs m0 false = Some (m, quit) →
  (∀ h, Selected m = Some h → h ∈ hosts ∧ quit = true)
  ∧ (forallb (λ msg, negb (confirms msg)) msgs = true → Selected m = None).
Proof.
  intros [= <-] Hev.
  apply events_step in Hev as (_ & Hsel & Hnone); simpl; [|done..].
  split; [exact Hsel|]. intros Hno. by apply Hnone.
Qed.

End Selecting.


Lemma view_navigation_wraps_witness :
  ∃ m' shown,
    ui.navigateView noUnicode (-1) menuModel = Some m'
    ∧ ui.viewIndex m'
      = (ui.viewIndex menuModel + -1) `mod` (1 + len (ui.groups menuModel))
    ∧ ui.viewHosts m' = Some shown ∧ ui.filteredHosts m' = shown
    ∧ ui.filterText m' = "" ∧ ui.cursor m' = 0
    ∧ ui.hosts m' = ui.hosts menuModel ∧ ui.groups m' = ui.groups menuModel
    ∧ ui.Selected m' = ui.Selected menuModel.
Proof.
  apply (view_navigation_wraps noUnicode (-1) menuModel).
  - right. reflexivity.
  - split_and!; vm_compute; reflexivity.
  - split; vm_compute; discriminate.
Defined.

Lemma view_steps_cancel_witness :
  ∃ m1 shown,
    ui.navigateView noUnicode 1 menuModel = Some m1
    ∧ ui.viewHosts menuModel = Some shown
    ∧ ui.navigateView noUnicode (- 1) m1
      = Some (viewOf menuModel (ui.viewIndex menuModel) shown).
Proof.
  apply (view_steps_cancel noUnicode 1 menuModel).
  - left. reflexivity.
  - split_and!; vm_compute; reflexivity.
  - split; vm_compute; discriminate.
Defined.

Lemma backspace_after_typing_witness :
  ∃ m1 m2 shown,
    ui.handleTypedCharacter noUnicode "w" menuModel = Some m1
    ∧ ui.handleBackspace noUnicode m1 = Some m2
    ∧ ui.viewHosts menuModel = Some shown
    ∧ ui.filterText m2 = ui.filterText menuModel +:+ ui.dropLast "w"
    ∧ ui.filteredHosts m2 = ui.applyFilter noUnicode (ui.filterText m2) shown
    ∧ ui.cursor m2 = 0
    ∧ (String.length "w" = 1%nat →
       ui.filterText m2 = ui.filterText menuModel
       ∧ ui.filteredHosts m2
         = ui.applyFilter noUnicode (ui.filterText menuModel) shown).
Proof.
  apply (backspace_after_typing noUnicode "w" menuModel).
  - discriminate.
  - split_and!; vm_compute; reflexivity.
  - split; vm_compute; discriminate.
Defined.

Lemma typing_narrows_the_list_witness :
  ui.applyFilter noUnicode ("w" +:+ "e") groupedHosts
  `sublist_of` ui.applyFilter noUnicode "w" groupedHosts.
Proof.
  apply (typing_narrows_the_list noUnicode "w" "e" groupedHosts).
  vm_compute. reflexivity.
Defined.

Lemma own_identifier_keeps_host_witness :
  entry "web1" "Primary web" 1 ["Prod"]
  ∈ ui.applyFilter noUnicode "WEB1" groupedHosts.
Proof.
  apply (own_identifier_keeps_host noUnicode "WEB1"
           (entry "web1" "Primary web" 1 ["Prod"]) groupedHosts).
  - left.
  - right. left. vm_compute. reflexivity.
Defined.

Lemma selection_is_a_listed_host_witness :
  ∃ m0 m quit,
    ui.SetupUI noUnicode groupedHosts false false "" = Some m0
    ∧ ui.events noUnicode
        [ui.KeyMsg ui.KeyRunes "2"; ui.KeyMsg ui.KeyEnter "enter"] m0 false
      = Some (m, quit)
    ∧ ui.Selected m = Some (entry "db" "Database" 2 ["Prod"])
    ∧ (∀ h, ui.Selected m = Some h → h ∈ groupedHosts ∧ quit = true).
Proof.
  eexists _, _, _. split; [reflexivity|]. split; [vm_compute; reflexivity|].
  split; [reflexivity|].
  eapply proj1.
  eapply (selection_is_a_listed_host noUnicode groupedHosts false false ""
            [ui.KeyMsg ui.KeyRunes "2"; ui.KeyMsg ui.KeyEnter "enter"]).
  - reflexivity.
  - vm_compute. reflexivity.
Defined.


(* ===================================================================== *)
(** ** The command line: what is listed, selected and handed to ssh *)
(* ===================================================================== *)

Section Launch.

#[local] Arguments String.append !_ _ / : simpl nomatch.

(** *** [fmt.Sprintf("%d")] and [strconv.Atoi] *)

Lemma digits_of_uint_acc (d : Decimal.uint) (acc : positive) :
  digits (NilEmpty.string_of_uint d) (Z.pos acc)
  = Some (Z.pos (Pos.of_uint_acc d acc)).
Proof.
  revert acc. induction d as [|d IH|d IH|d IH|d IH|d IH|d IH|d IH|d IH|d IH|d IH];
    intros acc; [done|..];
    cbn [NilEmpty.string_of_uint digits Pos.of_uint_acc];
    (rewrite <- IH; f_equal; vm_compute (digitVal _); lia).
Qed.

Lemma digits_of_uint (d : Decimal.uint) :
  digits (NilEmpty.string_of_uint d) 0 = Some (Z.of_N (Pos.of_uint d)).
Proof.
  induction d as [|d IH|d IH|d IH|d IH|d IH|d IH|d IH|d IH|d IH|d IH];
    [done|exact IH|..]; apply (digits_of_uint_acc d).
Qed.

Lemma string_of_uint_head (d : Decimal.uint) :
  d ≠ Decimal.Nil →
  ∃ a s, NilZero.string_of_uint d = String a s
         ∧ NilEmpty.string_of_uint d = String a s ∧ isDigit a = true.
Proof. destruct d; [done|..]; intros _; by eexists _, _. Qed.

Lemma Atoi_unsigned (a : ascii) (s : string) (v : Z) :
  isDigit a = true → digits (String a s) 0 = Some v → 0 ≤ v ≤ maxInt →
  Atoi (String a s) = Some v.
Proof.
  intros Ha Hd Hv. unfold Atoi.
  destruct (Ascii.eqb_spec a "-") as [->|_]; [done|].
  destruct (Ascii.eqb_spec a "+") as [->|_]; [done|].
  rewrite Hd.
  destruct (Z.leb_spec minInt v), (Z.leb_spec v maxInt);
    unfold minInt, maxInt in *; simpl; [done|lia..].
Qed.

Lemma Atoi_negative (a : ascii) (s : string) (v : Z) :
  isDigit a = true → digits (String a s) 0 = Some v → minInt ≤ - v ≤ maxInt →
  Atoi (String "-" (String a s)) = Some (- v).
Proof.
  intros Ha Hd Hv. unfold Atoi.
  change (Ascii.eqb "-" "-") with true. cbv iota beta. rewrite Hd.
  destruct (Z.leb_spec minInt (- v)), (Z.leb_spec (- v) maxInt);
    simpl; [done|lia..].
Qed.

(** A number an [int] holds is read back from its decimal writing. *)
Lemma Atoi_Itoa (n : Z) : minInt ≤ n ≤ maxInt → Atoi (Itoa n) = Some n.
Proof.
  intros Hn. destruct n as [|p|p]; [reflexivity|..]; unfold Itoa;
    cbn [Z.to_int NilZero.string_of_int];
    destruct (string_of_uint_head (Pos.to_uint p))
      as (a & s & -> & Hs & Ha);
    try apply DecimalPos.Unsigned.to_uint_nonnil;
    pose proof (digits_of_uint (Pos.to_uint p)) as Hd;
    rewrite Hs, DecimalPos.Unsigned.of_to in Hd.
  - apply Atoi_unsigned; [done|done|]. cbn [Z.of_N]. lia.
  - change (Z.neg p) with (- Z.of_N (N.pos p)).
    apply Atoi_negative; [done|done|]. cbn [Z.of_N]. lia.
Qed.

(** *** [strings.Fields] *)

Lemma fieldsFrom_cons (a : ascii) (s1 cur : string) :
  fieldsFrom (String a s1) cur
  = if isSpace1 a then flush cur ++ fieldsFrom s1 EmptyString
    else match s1 with
         | EmptyString => fieldsFrom s1 (String a cur)
         | String b s2 =>
             if isSpace2 a b then flush cur ++ fieldsFrom s2 EmptyString
             else match s2 with
                  | EmptyString => fieldsFrom s1 (String a cur)
                  | String c s3 =>
                      if isSpace3 a b c
                      then flush cur ++ fieldsFrom s3 EmptyString
                      else fieldsFrom s1 (String a cur)
                  end
         end.
Proof. reflexivity. Qed.

Lemma all_rev_onto (p : ascii → bool) (s acc : string) :
  all p (rev_onto s acc) = all p s && all p acc.
Proof.
  revert acc. induction s as [|a s IH]; intros acc; simpl; [done|].
  rewrite IH. simpl. by destruct (p a), (all p s).
Qed.

Lemma rev_onto_nonempty (s acc : string) :
  acc ≠ "" → rev_onto s acc ≠ "".
Proof.
  revert acc. induction s as [|a s IH]; intros acc Hacc; simpl; [done|].
  by apply IH.
Qed.

Lemma flush_arguments (cur : string) :
  all (λ c, negb (isSpace1 c)) cur = true → Forall argument (flush cur).
Proof.
  intros Hcur. destruct cur as [|a cur]; [constructor|].
  constructor; [|constructor]. split.
  - unfold GoStr.rev. simpl. by apply rev_onto_nonempty.
  - unfold GoStr.rev. rewrite all_rev_onto, Hcur. done.
Qed.

Lemma fieldsFrom_arguments (n : nat) :
  ∀ s cur : string,
  (String.length s ≤ n)%nat →
  all (λ c, negb (isSpace1 c)) cur = true →
  Forall argument (fieldsFrom s cur).
Proof.
  induction n as [|n IH]; intros s cur Hn Hcur.
  { destruct s; [|simpl in Hn; lia]. by apply flush_arguments. }
  destruct s as [|a s1]; [by apply flush_arguments|].
  rewrite fieldsFrom_cons. cbn [String.length] in Hn.
  destruct (isSpace1 a) eqn:Ha.
  { apply Forall_app. split; [by apply flush_arguments|].
    apply IH; [lia|done]. }
  assert (all (λ c, negb (isSpace1 c)) (String a cur) = true) as Hcur'.
  { simpl. by rewrite Ha, Hcur. }
  destruct s1 as [|b s2]; [apply IH; [simpl; lia|done]|].
  cbn [String.length] in Hn.
  destruct (isSpace2 a b).
  { apply Forall_app. split; [by apply flush_arguments|].
    apply IH; [lia|done]. }
  destruct s2 as [|c s3]; [apply IH; [simpl; lia|done]|].
  cbn [String.length] in Hn.
  destruct (isSpace3 a b c).
  { apply Forall_app. split; [by apply flush_arguments|].
    apply IH; [lia|done]. }
  apply IH; [|done]. cbn [String.length]. lia.
Qed.

(** X21.  The ssh client is run with [-v] when verbose, then the fields
    of the options string, then the short name of the host, which is
    always the last argument.  The options are cut at white space and
    nowhere else: no argument made from them is empty or holds an ASCII
    white-space byte, so an empty or blank options string adds nothing,
    and quotes do not keep words together. *)
Theorem ssh_arguments (h : Host) (verbose : bool) (sshOpts : string) :
  sshArgs h verbose sshOpts
  = (if verbose then ["-v"] else []) ++ Fields sshOpts ++ [ShortName h]
  ∧ Forall argument (Fields sshOpts)
  ∧ last (sshArgs h verbose sshOpts) = Some (ShortName h)
  ∧ Fields "-o 'A B'" = ["-o"; "'A"; "B'"].
Proof.
  split_and!.
  - unfold sshArgs. destruct sshOpts as [|a s]; simpl.
    + by destruct verbose.
    + destruct verbose; simpl; [done|]. done.
  - apply (fieldsFrom_arguments (String.length sshOpts)); done.
  - unfold sshArgs. apply last_snoc.
  - reflexivity.
Qed.

(** *** Direct selection *)

Lemma search_finds (test : Host → bool) (hosts : list Host) (h : Host) :
  h ∈ hosts → test h = true → is_Some (search test hosts).
Proof.
  induction hosts as [|h0 hosts IH]; simpl; [by intros ?%elem_of_nil|].
  intros [->|Hh]%elem_of_cons Ht.
  - by rewrite Ht.
  - destruct (test h0); [done|]. by apply IH.
Qed.

Lemma filter_numbers_distinct (hosts : list Host) (group : string) :
  NoDup (map MenuNumber hosts) →
  NoDup (map MenuNumber (filterHostsByGroup hosts group)).
Proof.
  rewrite filterHostsByGroup_filter. intros Hnd.
  eapply sublist_NoDup; [exact Hnd|].
  apply (fmap_sublist MenuNumber), filter_sublist.
Qed.

Lemma number_selects (l : list Host) (h : Host) :
  NoDup (map MenuNumber l) → h ∈ l → minInt ≤ MenuNumber h ≤ maxInt →
  handleDirectHostSelection (Itoa (MenuNumber h)) l = Done (Connect h).
Proof.
  intros Hl Hin Hrange. unfold handleDirectHostSelection.
  rewrite Atoi_Itoa by done.
  destruct (search_finds (byNumber (MenuNumber h)) l h Hin) as [h' Hs].
  { apply Z.eqb_refl. }
  rewrite Hs. apply search_Some in Hs as [Hin' Hn%Z.eqb_eq].
  by rewrite (distinct_numbers_inj l h' h Hl Hin' Hin Hn).
Qed.

(** X22.  Every host of the menu can be selected by the number it is
    displayed with: among the hosts [AssignMenuNumbers] returned, with or
    without the [-g] filter of a group the host is in, the decimal writing
    of the menu number of a host as the first argument selects that host
    and no other. *)
Theorem displayed_number_selects_its_host (fuel : nat)
    (hosts0 hosts : list Host) (h : Host) (group : string)
    (rest : list string) :
  AssignMenuNumbers fuel hosts0 = Some (Done hosts) →
  h ∈ hosts → minInt ≤ MenuNumber h ≤ maxInt →
  group = "" ∨ inGroup group h = true →
  selectFrom group (Itoa (MenuNumber h) :: rest) hosts = Done (Connect h).
Proof.
  intros Hassign Hh Hrange Hgroup.
  pose proof (assigned_numbers_distinct _ _ _ Hassign) as Hnd.
  assert (∀ l, NoDup (map MenuNumber l) → h ∈ l →
               handleDirectHostSelection (Itoa (MenuNumber h)) l
               = Done (Connect h)) as Hsel.
  { intros l Hl Hin. by apply number_selects. }
  unfold selectFrom. destruct (nonempty group) eqn:Hne.
  - destruct Hgroup as [->|Hg]; [done|].
    assert (h ∈ filterHostsByGroup hosts group) as Hin.
    { by apply filterHostsByGroup_elem. }
    destruct (Z.eqb_spec (len (filterHostsByGroup hosts group)) 0) as [Hz|_].
    { apply len_nil in Hz. rewrite Hz in Hin. by apply elem_of_nil in Hin. }
    apply Hsel; [by apply filter_numbers_distinct|done].
  - by apply Hsel.
Qed.

(** *** [listAvailableGroups] and [main] *)

Lemma GetAllGroups_nonempty (hosts : list Host) :
  hosts ≠ [] → GetAllGroups hosts ≠ [].
Proof.
  destruct hosts as [|h hosts]; [done|]. intros _ Hnil.
  destruct (Groups h) as [|g gs] eqn:Hg.
  - assert ("Ungrouped" ∈ GetAllGroups (h :: hosts)) as Hin.
    { apply GetAllGroups_elem. right. split; [done|].
      exists h. split; [left|done]. }
    rewrite Hnil in Hin. by apply elem_of_nil in Hin.
  - assert (g ∈ GetAllGroups (h :: hosts)) as Hin.
    { apply GetAllGroups_elem. left. exists h. split; [left|].
      rewrite Hg. left. }
    rewrite Hnil in Hin. by apply elem_of_nil in Hin.
Qed.

Lemma listAvailableGroups_lines (hosts : list Host) :
  hosts ≠ [] →
  listAvailableGroups hosts
  = ("Available groups:" +:+ newline)
    :: map (groupLine hosts) (GetAllGroups hosts).
Proof.
  intros Hne%GetAllGroups_nonempty. unfold listAvailableGroups.
  destruct (Z.eqb_spec (len (GetAllGroups hosts)) 0) as [Hz%len_nil|_]; done.
Qed.

(** X23.  [listAvailableGroups] prints that there are no groups only
    for the empty list of hosts; for any other list it prints the heading
    and one line for each group of [GetAllGroups], in that order. *)
Theorem groups_listing (hosts : list Host) :
  (listAvailableGroups hosts = ["No groups found in SSH config." +:+ newline]
   ↔ hosts = [])
  ∧ (hosts ≠ [] →
     listAvailableGroups hosts
     = ("Available groups:" +:+ newline)
       :: map (groupLine hosts) (GetAllGroups hosts)).
Proof.
  split; [|apply listAvailableGroups_lines].
  split; [|by intros ->].
  destruct hosts as [|h hosts]; [done|].
  rewrite listAvailableGroups_lines by done. intros [=].
Qed.

Lemma AssignMenuNumbers_elem (fuel : nat) (hosts out : list Host) :
  AssignMenuNumbers fuel hosts = Some (Done out) →
  length out = length hosts ∧ ∀ h, h ∈ out → configured hosts h.
Proof.
  unfold AssignMenuNumbers.
  destruct (validate hosts ∅) as [m|]; [|done].
  destruct (assign fuel hosts m 1) as [out0|] eqn:Ha; [|done].
  intros [= <-]. apply assign_renumbered in Ha.
  assert (sortSlice lessMenu out0 ≡ₚ out0) as Hp by apply merge_sort_Permutation.
  split.
  - rewrite (Permutation_length Hp). symmetry. by eapply Forall2_length.
  - intros h Hh. rewrite Hp in Hh.
    apply list_elem_of_lookup in Hh as [i Hi].
    destruct (Forall2_lookup_r _ _ _ _ _ Ha Hi) as (h0 & Hi0 & Hr).
    exists h0. split; [|done]. by eapply list_elem_of_lookup_2.
Qed.

(** X24.  What [main] can end with once the configuration is read.  A
    listing ([-l]) comes before any selection and is never the message
    that there are no groups.  A connection needs an argument and goes to
    a host of the configuration (with the menu number it was given), in
    the group of [-g] when there is one.  The menu is started only
    without an argument, never on an empty list, and holds only hosts of
    the configuration, in the group of [-g] when there is one. *)
Theorem main_endings (fuel : nat) (hosts : list Host) (listGroups : bool)
    (group : string) (args : list string) (e : ending) :
  mainFrom fuel (Ok hosts) listGroups group args = Some (Done e) →
  match e with
  | Listed printed =>
      listGroups = true
      ∧ ∃ out, AssignMenuNumbers fuel hosts = Some (Done out)
               ∧ printed = ("Available groups:" +:+ newline)
                           :: map (groupLine out) (GetAllGroups out)
  | Selection (Connect h) =>
      listGroups = false ∧ args ≠ []
      ∧ configured hosts h ∧ withinGroup group h
  | Selection (Menu shown) =>
      listGroups = false ∧ args = [] ∧ shown ≠ []
      ∧ Forall (λ h, configured hosts h ∧ withinGroup group h) shown
  end.
Proof.
  unfold mainFrom.
  destruct (Z.eqb_spec (len hosts) 0) as [_|Hlen]; [done|].
  destruct (AssignMenuNumbers fuel hosts) as [[out|]|] eqn:Ha; [|done..].
  destruct (AssignMenuNumbers_elem _ _ _ Ha) as [Hlenout Hout].
  assert (out ≠ []) as Hne.
  { intros ->. apply Hlen, len_nil. by destruct hosts. }
  destruct listGroups.
  { intros [= <-]. split; [done|]. exists out. split; [done|].
    by apply listAvailableGroups_lines. }
  destruct (selectFrom group args out) as [a|] eqn:Hs; [|done].
  intros [= <-].
  assert (∀ shown,
            shown ≠ [] →
            (∀ h, h ∈ shown → configured hosts h ∧ withinGroup group h) →
            match args with
            | input :: _ => handleDirectHostSelection input shown
            | [] => Done (Menu shown)
            end = Done a →
            match a with
            | Connect h =>
                false = false ∧ args ≠ []
                ∧ configured hosts h ∧ withinGroup group h
            | Menu shown =>
                false = false ∧ args = [] ∧ shown ≠ []
                ∧ Forall (λ h, configured hosts h ∧ withinGroup group h) shown
            end) as Hargs.
  { intros shown Hsn Hsh. destruct args as [|input args'].
    - intros [= <-]. split_and!; [done..|]. by apply Forall_forall.
    - intros Hd. destruct a as [h|shown'].
      + apply direct_selection_result in Hd as [Hin _].
        destruct (Hsh h Hin). done.
      + exfalso. revert Hd. unfold handleDirectHostSelection.
        destruct (Atoi input); destruct (search _ shown); done. }
  revert Hs. unfold selectFrom. destruct (nonempty group) eqn:Hg.
  - destruct (Z.eqb_spec (len (filterHostsByGroup out group)) 0) as [_|Hz];
      [done|].
    apply Hargs.
    + intros He. apply Hz. by rewrite He.
    + intros h [Hin Hgr]%filterHostsByGroup_elem. split; [by apply Hout|].
      by intros _.
  - apply Hargs; [done|]. intros h Hin. split; [by apply Hout|].
    apply nonempty_false in Hg as ->. by intros ?.
Qed.

End Launch.


Lemma displayed_number_selects_its_host_witness :
  selectFrom "Prod" [Itoa (MenuNumber (entry "lb" "LB" 3 ["Prod"]))]
    threeNumbered
  = Done (Connect (entry "lb" "LB" 3 ["Prod"])).
Proof.
  apply (displayed_number_selects_its_host 4 threeHosts threeNumbered
           (entry "lb" "LB" 3 ["Prod"]) "Prod" []).
  - vm_compute. reflexivity.
  - right. right. left.
  - split; vm_compute; discriminate.
  - right. reflexivity.
Defined.

Lemma main_endings_witness :
  false = false ∧ ["web1"] ≠ []
  ∧ configured threeHosts (entry "web1" "Primary web" 2 ["Prod"])
  ∧ withinGroup "Prod" (entry "web1" "Primary web" 2 ["Prod"]).
Proof.
  apply (main_endings 4 threeHosts false "Prod" ["web1"]
           (Selection (Connect (entry "web1" "Primary web" 2 ["Prod"])))).
  vm_compute. reflexivity.
Defined.


(* ===================================================================== *)
(** ** From the files to the menu *)
(* ===================================================================== *)

Section Pipeline.

Lemma wrap_range (z : Z) : minInt ≤ wrap z ≤ maxInt.
Proof.
  unfold wrap, minInt, maxInt.
  pose proof (Z.mod_pos_bound (z + 2 ^ 63) (2 ^ 64)). lia.
Qed.

Lemma nextFree_range (fuel : nat) (m : gmap Z bool) :
  ∀ next n : Z,
  nextFree fuel m next = Some n → next ≤ maxInt → n ≤ maxInt.
Proof.
  induction fuel as [|fuel IH]; intros next n; simpl; [done|].
  destruct (used m next).
  - intros Hn _. eapply IH; [exact Hn|]. apply wrap_range.
  - by intros [= <-].
Qed.

Lemma assign_range (fuel : nat) (hosts : list Host) :
  ∀ (m : gmap Z bool) (next : Z) (out : list Host),
  assign fuel hosts m next = Some out → next ≤ maxInt →
  Forall (λ h, MenuNumber h ≤ maxInt) hosts →
  Forall (λ h, MenuNumber h ≤ maxInt) out.
Proof.
  induction hosts as [|h hosts IH]; intros m next out; simpl.
  - by intros [= <-].
  - intros Ha Hnext [Hh Hall]%Forall_cons. revert Ha.
    destruct (MenuNumber h =? 0).
    + destruct (nextFree fuel m next) as [n|] eqn:Hn; [|done].
      apply nextFree_range in Hn; [|done].
      destruct (assign fuel hosts _ n) as [out'|] eqn:Ha; [|done].
      intros [= <-]. constructor; [done|]. by eapply IH.
    + destruct (assign fuel hosts m next) as [out'|] eqn:Ha; [|done].
      intros [= <-]. constructor; [done|]. by eapply IH.
Qed.

Lemma readConfigFile_numbers (opened : result (list string))
    (hosts : list Host) :
  readConfigFile opened = Ok hosts →
  Forall (λ h, inIntRange (MenuNumber h)) hosts.
Proof.
  unfold readConfigFile. destruct opened as [lines|e]; [|done].
  destruct (scanLines lines noHost []) as [[cur hs]|e] eqn:Hs; [|done].
  intros [= <-].
  apply scanLines_wellFormed in Hs as (Hc & Hw & _);
    [|by apply (newHost_wellFormed "")|done..].
  assert (∀ h, wellFormed h → inIntRange (MenuNumber h)) as Hnum.
  { by intros h (_ & _ & _ & ? & _). }
  assert (Forall (λ h, inIntRange (MenuNumber h)) hs) as Hall.
  { eapply Forall_impl; [exact Hw|exact Hnum]. }
  destruct (retained cur); [|done].
  apply Forall_app. split; [done|]. constructor; [by apply Hnum|constructor].
Qed.

Lemma ReadConfigFiles_numbers (mainOpened : result (list string))
    (stat : statResult) (dir : result (list DirEntry)) (hosts : list Host)
    (warnings : list (string * string)) :
  ReadConfigFiles mainOpened stat dir = (Ok hosts, warnings) →
  Forall (λ h, inIntRange (MenuNumber h)) hosts.
Proof.
  unfold ReadConfigFiles.
  destruct (readConfigFile mainOpened) as [mainHosts|e] eqn:Hmain; [|done].
  apply readConfigFile_numbers in Hmain.
  destruct stat as [|[|]|e]; [by intros [= <- _]| |by intros [= <- _]|done].
  destruct dir as [files|e]; [|done].
  rewrite readDirEntries_flat. intros [= <- _].
  apply Forall_app. split; [done|].
  apply Forall_flat_map, Forall_forall. intros file _.
  unfold entryHosts. destruct (skipped file); [constructor|].
  destruct (readConfigFile (entryOpened file)) as [hs|e] eqn:Hf; [|constructor].
  by apply readConfigFile_numbers in Hf.
Qed.

(** X25.  The hosts [ReadConfigFiles] returns always go through
    [AssignMenuNumbers]: on a list of a length an [int] can hold, with fuel
    beyond that length, it comes to an end (with the numbered hosts, or
    with the exit on a repeated number); and every host it returns has a
    menu number between 1 and the largest [int] and is the host that
    number selects from the command line. *)
Theorem configured_hosts_are_numbered (fuel : nat)
    (mainOpened : result (list string)) (stat : statResult)
    (dir : result (list DirEntry)) (hosts : list Host)
    (warnings : list (string * string)) :
  ReadConfigFiles mainOpened stat dir = (Ok hosts, warnings) →
  len hosts < maxInt → (length hosts < fuel)%nat →
  ∃ r, AssignMenuNumbers fuel hosts = Some r
       ∧ ∀ out, r = Done out →
           Forall (λ h, 1 ≤ MenuNumber h ≤ maxInt) out
           ∧ ∀ h, h ∈ out →
               selectFrom "" [Itoa (MenuNumber h)] out = Done (Connect h).
Proof.
  intros Hread Hlen Hfuel. apply ReadConfigFiles_numbers in Hread.
  destruct (AssignMenuNumbers fuel hosts) as [r|] eqn:Hassign.
  - exists r. split; [done|]. intros out ->.
    pose proof (assigned_numbers_distinct _ _ _ Hassign) as Hnd.
    assert (Forall (λ h, 1 ≤ MenuNumber h ≤ maxInt) out) as Hrange.
    { revert Hassign. unfold AssignMenuNumbers.
      destruct (validate hosts ∅) as [m|code printed] eqn:Hv; [|done].
      apply validate_done in Hv as (Hnodup & Hm & _ & Hdom);
        [|apply map_Forall_empty].
      rewrite dom_empty_L, (left_id_L ∅ (∪)) in Hdom.
      pose proof (explicit_unnumbered_length hosts) as Hcount.
      unfold len in Hlen.
      destruct (assign_numbered (Z.of_nat (length hosts)) fuel hosts m 1)
        as (out0 & Ha & Hnum); [done| |done|lia|lia|intros; lia|].
      { rewrite Hdom, size_list_to_set by done. lia. }
      rewrite Ha. intros [= <-].
      assert (sortSlice lessMenu out0 ≡ₚ out0) as ->
        by apply merge_sort_Permutation.
      apply numbered_positive in Hnum;
        [|eapply Forall_impl; [exact Hread|]; by intros h [? _]].
      apply assign_range in Ha;
        [|unfold maxInt; lia
         |eapply Forall_impl; [exact Hread|]; by intros h [_ ?]].
      apply Forall_and. by split. }
    split; [done|]. intros h Hh. unfold selectFrom. simpl.
    apply number_selects; [done..|].
    rewrite Forall_forall in Hrange. specialize (Hrange h Hh).
    unfold minInt, maxInt in *. lia.
  - exfalso. unfold AssignMenuNumbers in Hassign.
    destruct (validate hosts ∅) as [m|code printed] eqn:Hv; [|done].
    apply validate_done in Hv as (Hnodup & Hm & _ & Hdom);
      [|apply map_Forall_empty].
    rewrite dom_empty_L, (left_id_L ∅ (∪)) in Hdom.
    pose proof (explicit_unnumbered_length hosts) as Hcount.
    unfold len in Hlen.
    destruct (assign_numbered (Z.of_nat (length hosts)) fuel hosts m 1)
      as (out0 & Ha & Hnum); [done| |done|lia|lia|intros; lia|].
    { rewrite Hdom, size_list_to_set by done. lia. }
    by rewrite Ha in Hassign.
Qed.

End Pipeline.

Lemma configured_hosts_are_numbered_witness :
  ∃ r, AssignMenuNumbers 2 [entry "a" "first" 0 []] = Some r
       ∧ ∀ out, r = Done out →
           Forall (λ h, 1 ≤ MenuNumber h ≤ maxInt) out
           ∧ ∀ h, h ∈ out →
               selectFrom "" [Itoa (MenuNumber h)] out = Done (Connect h).
Proof.
  apply (configured_hosts_are_numbered 2 (Ok ["Host a"; "# Menu: first"])
           StatNotExist (Err "") [entry "a" "first" 0 []] []).
  - vm_compute. reflexivity.
  - vm_compute. reflexivity.
  - vm_compute. lia.
Defined.
